(** * play-learn-spark: the activity rewriting scripts

    A shallow embedding of the three maintenance scripts under
    [mobile-app/]:

    - [fix_activities.py]     (first pass, [FixActivities] below),
    - [fix_extra_braces.py]   (repair pass, [FixExtraBraces]),
    - [fix_activities_v2.py]  (second pass, [FixActivitiesV2]),

    and of the Python string primitives they are written with.  A Python
    [str] is a sequence of Unicode code points; it is modelled as a list of
    code points so that [str.isspace], the regular expression class [\s],
    [str.split], [str.replace] and [str.count] can be written out exactly. *)

From Stdlib Require Import Ascii String List NArith ZArith Bool Lia.
Import ListNotations.

(** ** Python strings *)

Definition char : Type := N.
Definition str : Type := list char.

(** A literal of the scripts (all of them are ASCII). *)
Definition lit (s : string) : str := map N_of_ascii (list_ascii_of_string s).

Definition nl : char := 10%N.
Definition sp : char := 32%N.
Definition lbrace : char := 123%N.
Definition rbrace : char := 125%N.

(** [c.isspace()], which is also what [\s] matches in a [str] pattern. *)
Definition isspace (c : char) : bool :=
  ((9 <=? c) && (c <=? 13) || (28 <=? c) && (c <=? 32)
   || (c =? 133) || (c =? 160) || (c =? 5760)
   || (8192 <=? c) && (c <=? 8202)
   || (c =? 8232) || (c =? 8233) || (c =? 8239) || (c =? 8287)
   || (c =? 12288))%N.

(** [s.startswith(p)] *)
Fixpoint startswith (s p : str) : bool :=
  match p, s with
  | [], _ => true
  | _ :: _, [] => false
  | a :: p', b :: s' => (a =? b)%N && startswith s' p'
  end.

(** [p in s] *)
Fixpoint isin (p s : str) : bool :=
  startswith s p ||
  match s with
  | [] => false
  | _ :: s' => isin p s'
  end.

(** [s.count(c)] for a one-character [c] *)
Fixpoint count (c : char) (s : str) : Z :=
  match s with
  | [] => 0
  | a :: s' => (if (a =? c)%N then 1 else 0) + count c s'
  end%Z.

(** The longest prefix of whitespace and what follows it. *)
Fixpoint span_space (s : str) : str * str :=
  match s with
  | [] => ([], [])
  | c :: s' =>
      if isspace c then let (w, r) := span_space s' in (c :: w, r)
      else ([], s)
  end.

(** [s.lstrip()], [s.rstrip()], [s.strip()] *)
Definition lstrip (s : str) : str := snd (span_space s).
Definition rstrip (s : str) : str := rev (lstrip (rev s)).
Definition strip (s : str) : str := rstrip (lstrip s).

(** [len(line) - len(line.lstrip())] *)
Definition indent_width (line : str) : nat :=
  length line - length (lstrip line).

(** [s == t] *)
Fixpoint str_eqb (s t : str) : bool :=
  match s, t with
  | [], [] => true
  | a :: s', b :: t' => (a =? b)%N && str_eqb s' t'
  | _, _ => false
  end.

(** [s.split('\n')] and ['\n'.join(ls)] *)
Fixpoint split (s : str) : list str :=
  match s with
  | [] => [[]]
  | c :: s' =>
      if (c =? nl)%N then [] :: split s'
      else match split s' with
           | l :: ls => (c :: l) :: ls
           | [] => [[c]]
           end
  end.

Fixpoint join (ls : list str) : str :=
  match ls with
  | [] => []
  | [l] => l
  | l :: ls' => l ++ nl :: join ls'
  end.

(** ** Left-to-right scanning

    [re.sub], [str.replace] and the [while i < len(lines)] loop of the
    second pass share one shape: walk the sequence from the left; where the
    matcher [m] succeeds on what remains, emit its output and jump over the
    [n] elements it consumed; elsewhere copy one element.  The jump is
    written with a counter of elements still to be skipped, which keeps the
    recursion structural; [scan_unfold] below shows it is the jump. *)

Section Scan.
Variable A : Type.
Variable m : list A -> option (list A * nat).

Fixpoint scan (skip : nat) (s : list A) : list A :=
  match s with
  | [] => []
  | c :: s' =>
      match skip with
      | S k => scan k s'
      | O =>
          match m s with
          | Some (out, n) => out ++ scan (pred n) s'
          | None => c :: scan 0 s'
          end
      end
  end.

(** The number of places where [m] fired, [len(re.findall(...))]. *)
Fixpoint hits (skip : nat) (s : list A) : nat :=
  match s with
  | [] => 0
  | c :: s' =>
      match skip with
      | S k => hits k s'
      | O =>
          match m s with
          | Some (_, n) => S (hits (pred n) s')
          | None => hits 0 s'
          end
      end
  end.
End Scan.

Arguments scan {A} m skip s.
Arguments hits {A} m skip s.

(** [s.replace(old, new)] for a non-empty [old] *)
Definition m_replace (old new : str) (s : str) : option (str * nat) :=
  if startswith s old then Some (new, length old) else None.

Definition replace (old new : str) (s : str) : str :=
  scan (m_replace old new) 0 s.

(** ** The literals of the scripts *)

Definition OLD_SIG : str := lit "void _generateQuestion() {".
Definition NEW_SIG : str := lit "void generateNewQuestion() {".
Definition NEW_NAME : str := lit "void generateNewQuestion()".
Definition OVERRIDE : str := lit "@override".
Definition SET_STATE : str := lit "setState(() {".
Definition CLOSE : str := lit "});".
Definition CLOSE_MARK : str := lit "}); // setState".
Definition OLD_CALL : str := lit "_generateQuestion();".
Definition NEW_CALL : str := lit "generateNewQuestion();".

(** ** fix_activities.py *)

Module FixActivities.

(** [re.sub(r'(\s+)void _generateQuestion\(\) \{\n', ...)] at one position.
    [\s+] is greedy and the literal after it starts with [v], which is not
    whitespace, so the group is the whole run of whitespace. *)
Definition m_signature (s : str) : option (str * nat) :=
  let (w, r) := span_space s in
  match w with
  | [] => None
  | _ :: _ =>
      if startswith r (OLD_SIG ++ [nl]) then
        Some (w ++ OVERRIDE ++ [nl] ++ w ++ NEW_SIG ++ [nl]
                ++ w ++ lit "  " ++ SET_STATE ++ [nl],
              length w + length OLD_SIG + 1)
      else None
  end.

Definition sub_signature (content : str) : str := scan m_signature 0 content.

(** The [for i, line in enumerate(lines)] loop, with its three variables. *)
Fixpoint wrap_loop (in_generate_method : bool) (brace_count : Z)
    (method_start_indent : nat) (lines : list str) : list str :=
  match lines with
  | [] => []
  | line :: rest =>
      if isin NEW_NAME line then
        line :: wrap_loop true brace_count (indent_width line) rest
      else if in_generate_method then
        let brace_count :=
          (brace_count + (count lbrace line - count rbrace line))%Z in
        if (brace_count =? 0)%Z && isin [rbrace] line then
          (repeat sp (method_start_indent + 2) ++ CLOSE_MARK)
            :: line :: wrap_loop false brace_count method_start_indent rest
        else line :: wrap_loop true brace_count method_start_indent rest
      else line :: wrap_loop false brace_count method_start_indent rest
  end.

(** What the script does to the content of one file. *)
Definition transform (content : str) : str :=
  let content := sub_signature content in
  let lines := split content in
  let new_lines := wrap_loop false 0 0 lines in
  let content := join new_lines in
  replace OLD_CALL NEW_CALL content.

End FixActivities.

(** ** fix_extra_braces.py *)

Module FixExtraBraces.

Definition DUP4 : str := CLOSE_MARK ++ [nl] ++ lit "    });".
Definition DUP2 : str := CLOSE_MARK ++ [nl] ++ lit "  });".

Definition transform (content : str) : str :=
  let content := replace DUP4 CLOSE content in
  replace DUP2 CLOSE content.

End FixExtraBraces.

(** ** fix_activities_v2.py *)

Module FixActivitiesV2.

(** [re.sub(r'}\); // setState\s*}\);', '});', content)] at one position.
    [\s*] is greedy and is followed by [}], which is not whitespace. *)
Definition m_revert (s : str) : option (str * nat) :=
  if startswith s CLOSE_MARK then
    let (w, r) := span_space (skipn (length CLOSE_MARK) s) in
    if startswith r CLOSE then
      Some (CLOSE, length CLOSE_MARK + length w + length CLOSE)
    else None
  else None.

Definition revert (content : str) : str := scan m_revert 0 content.

(** [re.sub(r'(\s+)void _generateQuestion\(\) \{', ...)] at one position. *)
Definition m_signature (s : str) : option (str * nat) :=
  let (w, r) := span_space s in
  match w with
  | [] => None
  | _ :: _ =>
      if startswith r OLD_SIG then
        Some (w ++ OVERRIDE ++ [nl] ++ w ++ NEW_SIG,
              length w + length OLD_SIG)
      else None
  end.

Definition sub_signature (content : str) : str := scan m_signature 0 content.

(** The branch "Already has setState, just copy as is": the lines copied
    and how far [i] has moved when the outer loop resumes. *)
Fixpoint copy_wrapped (lines : list str) : list str * nat :=
  match lines with
  | [] => ([], 1)
  | l :: rest =>
      if str_eqb (strip l) [rbrace] then ([l], 1)
      else let (out, n) := copy_wrapped rest in (l :: out, S n)
  end.

(** The loop [while i < len(lines) and brace_count > 0]. *)
Fixpoint wrap_body (setState_indent : str) (brace_count : Z)
    (lines : list str) : list str * nat :=
  match lines with
  | [] => ([], 0)
  | current_line :: rest =>
      if (brace_count >? 0)%Z then
        let brace_count :=
          (brace_count
           + (count lbrace current_line - count rbrace current_line))%Z in
        let (out, n) := wrap_body setState_indent brace_count rest in
        if (brace_count =? 0)%Z then
          ((setState_indent ++ CLOSE) :: current_line :: out, S n)
        else
          match strip current_line with
          | _ :: _ => ((lit "  " ++ current_line) :: out, S n)
          | [] => (current_line :: out, S n)
          end
      else ([], 0)
  end.

(** One turn of the outer [while] at a line where the method is found:
    the lines appended to [new_lines] and the number of lines consumed. *)
Definition m_method (lines : list str) : option (list str * nat) :=
  match lines with
  | line :: sig :: body =>
      if isin OVERRIDE line && isin NEW_NAME sig then
        match body with
        | first :: _ =>
            if isin SET_STATE first then
              let (out, n) := copy_wrapped body in
              Some (line :: sig :: out, 2 + n)
            else
              let setState_indent := repeat sp (indent_width sig + 2) in
              let (out, n) := wrap_body setState_indent 1 body in
              Some (line :: sig :: (setState_indent ++ SET_STATE) :: out,
                    2 + n)
        | [] =>
            let setState_indent := repeat sp (indent_width sig + 2) in
            Some ([line; sig; setState_indent ++ SET_STATE], 2)
        end
      else None
  | _ => None
  end.

Definition wrap_loop (lines : list str) : list str := scan m_method 0 lines.

Definition transform (content : str) : str :=
  let content := revert content in
  let content := sub_signature content in
  let lines := split content in
  let new_lines := wrap_loop lines in
  let content := join new_lines in
  replace OLD_CALL NEW_CALL content.

End FixActivitiesV2.

(** ** The loop over the activity files

    The three scripts share their frame: for each name of [activity_files],
    skip the file when it does not exist, otherwise read it, transform the
    text, write it back and report.  A file is known by its name under
    [base_dir]; the store holds the decoded text of each file. *)

Definition activity_files : list string :=
  [ "alphabet_adventure_activity.dart"; "animal_safari_activity.dart";
    "arabic_learning_activity.dart"; "art_studio_activity.dart";
    "daily_routine_activity.dart"; "counting_train_activity.dart";
    "community_helpers_activity.dart"; "color_match_activity.dart";
    "body_parts_activity.dart"; "music_maker_activity.dart";
    "memory_cards_activity.dart"; "math_adventure_activity.dart";
    "malayalam_learning_activity.dart"; "logic_puzzles_activity.dart";
    "healthy_habits_activity.dart"; "fruit_basket_activity.dart";
    "family_tree_activity.dart"; "english_learning_activity.dart";
    "emotion_explorer_activity.dart"; "nature_walk_activity.dart";
    "number_garden_activity.dart"; "pizza_fractions_activity.dart";
    "physical_fun_activity.dart"; "pet_parade_activity.dart";
    "pattern_builder_activity.dart"; "rhyme_time_activity.dart";
    "shape_explorer_activity.dart"; "science_lab_activity.dart";
    "weather_watcher_activity.dart"; "vegetable_garden_activity.dart";
    "transportation_activity.dart"; "toy_box_activity.dart";
    "story_sequencing_activity.dart"; "social_skills_activity.dart";
    "size_sort_activity.dart"; "simple_puzzles_activity.dart" ]%string.

(** What a script prints. *)
Inductive message : Type :=
| Skipping (activity_file : string)
| Processing (activity_file : string)
| Fixed (activity_file : string)
| AllDone.

Record world : Type := World {
  files : string -> option str;   (* the directory: name to text *)
  writes : list string;           (* the files opened with mode 'w', in order *)
  console : list message          (* what was printed, in order *)
}.

Definition write_file (w : world) (f : string) (content : str) : world :=
  {| files := fun g => if String.eqb g f then Some content else files w g;
     writes := writes w ++ [f];
     console := console w |}.

Definition print (w : world) (msg : message) : world :=
  {| files := files w; writes := writes w; console := console w ++ [msg] |}.

Section Script.
(** [fix_activities.py] and [fix_activities_v2.py] print what they skip
    and what they process, [fix_extra_braces.py] does not. *)
Variable verbose : bool.
Variable transform : str -> str.

Definition process_file (w : world) (activity_file : string) : world :=
  match files w activity_file with
  | None => if verbose then print w (Skipping activity_file) else w
  | Some content =>
      let w := if verbose then print w (Processing activity_file) else w in
      let content := transform content in
      let w := write_file w activity_file content in
      print w (Fixed activity_file)
  end.

Definition run (w : world) : world :=
  print (fold_left process_file activity_files w) AllDone.
End Script.

Definition fix_activities : world -> world :=
  run true FixActivities.transform.
Definition fix_extra_braces : world -> world :=
  run false FixExtraBraces.transform.
Definition fix_activities_v2 : world -> world :=
  run true FixActivitiesV2.transform.

(** A listed file can exist and not hold text: [f.read()] raises
    [UnicodeDecodeError] on bytes that are not UTF-8.  No script catches the
    exception, so the run ends in the turn of the loop that meets such a
    file.  [garbled] names the files of that kind; they are not among the
    files of the [world], which hold text. *)
Inductive outcome : Type :=
| Completed (w : world)     (* the script ran to its end *)
| Raised (w : world).       (* the exception ended it, leaving [w] *)

Definition state (o : outcome) : world :=
  match o with Completed w => w | Raised w => w end.

Section Raising.
Variable verbose : bool.
Variable transform : str -> str.
Variable garbled : string -> bool.

(** One turn of the loop: [process_file], unless the file cannot be read. *)
Definition attempt (w : world) (activity_file : string) : outcome :=
  match files w activity_file with
  | None =>
      if garbled activity_file then
        Raised (if verbose then print w (Processing activity_file) else w)
      else Completed (process_file verbose transform w activity_file)
  | Some _ => Completed (process_file verbose transform w activity_file)
  end.

Fixpoint attempts (l : list string) (w : world) : outcome :=
  match l with
  | [] => Completed w
  | activity_file :: l' =>
      match attempt w activity_file with
      | Completed w' => attempts l' w'
      | Raised w' => Raised w'
      end
  end.

(** The script: the closing message is printed when the loop has ended. *)
Definition run_raising (w : world) : outcome :=
  match attempts activity_files w with
  | Completed w' => Completed (print w' AllDone)
  | Raised w' => Raised w'
  end.
End Raising.

(** ** The scenario of the specification *)

Definition scenario_in : str :=
  lit "  void _generateQuestion() {" ++ [nl] ++
  lit "    score = score + 1;" ++ [nl] ++
  lit "  }".

Definition scenario_out : str :=
  lit "  @override" ++ [nl] ++
  lit "  void generateNewQuestion() {" ++ [nl] ++
  lit "    setState(() {" ++ [nl] ++
  lit "      score = score + 1;" ++ [nl] ++
  lit "    });" ++ [nl] ++
  lit "  }".

(** The running depth of braces after the lines [ls], from depth [d]. *)
Fixpoint depth (d : Z) (ls : list str) : Z :=
  match ls with
  | [] => d
  | l :: ls' => depth (d + (count lbrace l - count rbrace l)) ls'
  end.

(** The extra indentation the second pass gives a body line. *)
Definition indent_body (l : str) : str :=
  match strip l with
  | _ :: _ => lit "  " ++ l
  | [] => l
  end.

(** ** The vocabulary of the properties *)

(** The old name of the method, in the signature and in the call sites. *)
Definition OLD_NAME : str := lit "_generateQuestion".

(** The closing marker [}); // setState] behind its first character. *)
Definition MARK_TAIL : str := lit "); // setState".

(** [u] and [v] agree as far as both go. *)
Fixpoint compat (u v : str) : bool :=
  match u, v with
  | a :: u', b :: v' => (a =? b)%N && compat u' v'
  | _, _ => true
  end.

(** No non-empty suffix of [q] agrees with [new]. *)
Fixpoint apart (q new : str) : bool :=
  match q with
  | [] => true
  | _ :: q' => negb (compat q new) && apart q' new
  end.

(** [}); // setState], a line break, [n] spaces and [});]: the text the repair
    pass looks for, with [n = 4] and [n = 2]. *)
Definition DUP (n : nat) : str := CLOSE_MARK ++ nl :: repeat sp n ++ CLOSE.

(** A buffer with the marked closing line followed by a second closing
    [});] after the whitespace [w], and the buffer with the two collapsed. *)
Definition doubled (pre w post : str) : str :=
  pre ++ CLOSE_MARK ++ nl :: w ++ CLOSE ++ post.

Definition collapsed (pre post : str) : str := pre ++ CLOSE ++ post.

(** The depth stays positive over the lines [body] and is zero after
    [closing]. *)
Definition closes_at (body : list str) (closing : str) (d : Z) : Prop :=
  (forall k, k <= length body -> (0 < depth d (firstn k body))%Z)
  /\ depth d (body ++ [closing]) = 0%Z.

(** The depth stays positive over all the lines [body]. *)
Definition never_closes (body : list str) (d : Z) : Prop :=
  forall k, k <= length body -> (0 < depth d (firstn k body))%Z.

(** The [locateBlockEnd] of the specification, which no script has as a
    function of its own: the first index at which the depth, [d] before the
    lines, is 0. *)
Fixpoint block_end (d : Z) (lines : list str) : option nat :=
  match lines with
  | [] => None
  | l :: ls =>
      let d := (d + (count lbrace l - count rbrace l))%Z in
      if (d =? 0)%Z then Some 0 else option_map S (block_end d ls)
  end.


(** Every line with [@override] that is followed by the renamed signature
    has the opening line of the wrapper behind the signature. *)
Fixpoint all_wrapped (lines : list str) : bool :=
  match lines with
  | [] => true
  | line :: rest =>
      match rest with
      | sig :: body =>
          if isin OVERRIDE line && isin NEW_NAME sig then
            match body with
            | first :: _ => isin SET_STATE first
            | [] => false
            end
          else true
      | [] => true
      end && all_wrapped rest
  end.

(** The braces of the lines. *)
Fixpoint count_lines (c : char) (ls : list str) : Z :=
  match ls with
  | [] => 0
  | l :: ls' => count c l + count_lines c ls'
  end.

(** [{] minus [}] over the whole text; the text is balanced when it is 0. *)
Definition balance (x : str) : Z := (count lbrace x - count rbrace x)%Z.




(** [os.path.exists(file_path)] *)
Definition exists_in (w : world) (f : string) : bool :=
  match files w f with Some _ => true | None => false end.

(** A directory with the single file [alphabet_adventure_activity.dart]. *)
Definition one_file (content : str) : world :=
  {| files := fun g =>
       if String.eqb g "alphabet_adventure_activity.dart" then Some content
       else None;
     writes := [];
     console := [] |}.

(** The body of the scenario's method, and a body whose first line drops the
    depth below zero before the second brings it back to zero. *)
Definition scenario_body : list str := [lit "    score = score + 1;"].



(** The renamed method whose body is not wrapped yet. *)
Definition renamed_unwrapped : str :=
  lit "  @override" ++ [nl] ++
  lit "  void generateNewQuestion() {" ++ [nl] ++
  lit "    score = score + 1;" ++ [nl] ++
  lit "  }".

(** What the first pass makes of the scenario, and of its own result. *)
Definition first_pass_once : str :=
  lit "  @override" ++ [nl] ++
  lit "  void generateNewQuestion() {" ++ [nl] ++
  lit "    setState(() {" ++ [nl] ++
  lit "    score = score + 1;" ++ [nl] ++
  lit "    }); // setState" ++ [nl] ++
  lit "  }".

Definition first_pass_twice : str :=
  lit "  @override" ++ [nl] ++
  lit "  void generateNewQuestion() {" ++ [nl] ++
  lit "    setState(() {" ++ [nl] ++
  lit "    score = score + 1;" ++ [nl] ++
  lit "    }); // setState" ++ [nl] ++
  lit "    }); // setState" ++ [nl] ++
  lit "  }".

(** The text with one marked closing line followed by the redundant one. *)
Definition double_wrapped : str :=
  lit "  @override" ++ [nl] ++
  lit "  void generateNewQuestion() {" ++ [nl] ++
  lit "    setState(() {" ++ [nl] ++
  lit "      score = score + 1;" ++ [nl] ++
  lit "    }); // setState" ++ [nl] ++
  lit "    });" ++ [nl] ++
  lit "  }".

(** The closing lines after the first pass has run twice over the text the
    second pass produces: the marker line is stacked. *)
Definition stacked : str :=
  lit "  @override" ++ [nl] ++
  lit "  void generateNewQuestion() {" ++ [nl] ++
  lit "    setState(() {" ++ [nl] ++
  lit "      score = score + 1;" ++ [nl] ++
  lit "    }); // setState" ++ [nl] ++
  lit "    }); // setState" ++ [nl] ++
  lit "    });" ++ [nl] ++
  lit "  }".



(** A declaration without a body under [@override]. *)
Definition abstract_in : str :=
  lit "@override" ++ [nl] ++ lit "void _generateQuestion();" ++ [nl].

Definition abstract_once : str :=
  lit "@override" ++ [nl] ++ lit "void generateNewQuestion();" ++ [nl].

Definition abstract_twice : str :=
  lit "@override" ++ [nl] ++ lit "void generateNewQuestion();" ++ [nl] ++
  lit "  setState(() {" ++ [nl].



(** No line is [}] between whitespace: the test that ends the copy of a
    method that is wrapped already. *)
Definition no_closing_brace (lines : list str) : bool :=
  forallb (fun l => negb (str_eqb (strip l) [rbrace])) lines.







(** [ // setState], what the marker [}); // setState] has behind [});]. *)
Definition MARK_NOTE : str := lit " // setState".

(** A marker, a line break, [n] spaces and a second marker: the marker
    lines are stacked. *)
Definition STACKED (n : nat) : str :=
  CLOSE_MARK ++ nl :: repeat sp n ++ CLOSE_MARK.

(** A marker is followed, behind whitespace only, by a second marker: at
    the front of [s], and somewhere in [s]. *)
Definition stacked_front (s : str) : bool :=
  startswith s CLOSE_MARK
  && startswith (lstrip (skipn (length CLOSE_MARK) s)) CLOSE_MARK.

Fixpoint stacked_markers (s : str) : bool :=
  stacked_front s ||
  match s with
  | [] => false
  | _ :: s' => stacked_markers s'
  end.

(** Every suffix of [q] that starts with [o] is a prefix of [core]. *)
Fixpoint heads_within (o : char) (core q : str) : bool :=
  match q with
  | [] => true
  | c :: q' =>
      (negb (c =? o)%N || startswith core q) && heads_within o core q'
  end.

(** [s.count(p)] for a non-empty [p]: the occurrences of [p] in [s] that do
    not overlap, counted from the left. *)
Definition count_str (p s : str) : nat := hits (m_replace p p) 0 s.

(** The places of [s] at which [p] starts. *)
Fixpoint occurrences (p s : str) : nat :=
  (if startswith s p then 1 else 0)
  + match s with
    | [] => 0
    | _ :: s' => occurrences p s'
    end.

(** No occurrence of [p] starts inside [a], whatever follows [a]. *)
Definition dead (p a : str) : Prop :=
  forall a1 u r, a = a1 ++ u -> u <> [] -> startswith (u ++ r) p = false.

(** The characters the texts start with that the passes look for in front
    of a declaration or of a closing line, and put there. *)
Definition opens_match (c : char) : bool := isspace c || (c =? rbrace)%N.

(** Two methods with the doubled closing line, one behind the other. *)
Definition double_wrapped_twice : str :=
  double_wrapped ++ [nl] ++ double_wrapped.

Definition wrapped_twice : str := scenario_out ++ [nl] ++ scenario_out.

(** ** The vocabulary of the further properties *)

(** The declaration both signature patterns start with. *)
Definition OLD_DECL : str := lit "void _generateQuestion()".

(** No name occurs twice in the list. *)
Fixpoint distinct (l : list string) : bool :=
  match l with
  | [] => true
  | x :: l' => negb (existsb (String.eqb x) l') && distinct l'
  end.

(** What a script prints for one name of the list, by whether the file
    exists. *)
Definition report (verbose : bool) (w : world) (f : string) : list message :=
  if exists_in w f then
    if verbose then [Processing f; Fixed f] else [Fixed f]
  else
    if verbose then [Skipping f] else [].

(** The first name of [l] whose file cannot be read, and the names of [l]
    in front of it. *)
Definition raises (garbled : string -> bool) (w : world) (f : string) : bool :=
  negb (exists_in w f) && garbled f.

Fixpoint first_raising (garbled : string -> bool) (w : world)
    (l : list string) : option string :=
  match l with
  | [] => None
  | f :: l' => if raises garbled w f then Some f else first_raising garbled w l'
  end.

Fixpoint reached (garbled : string -> bool) (w : world)
    (l : list string) : list string :=
  match l with
  | [] => []
  | f :: l' => if raises garbled w f then [] else f :: reached garbled w l'
  end.

(** What is printed when the loop has ended, or in the turn that raises. *)
Definition last_words (verbose : bool) (raising : option string)
    : list message :=
  match raising with
  | None => [AllDone]
  | Some f => if verbose then [Processing f] else []
  end.

(** Somewhere in [lines] a line with [@override] is followed by a line with
    the renamed signature: the test of the outer loop of the second pass. *)
Fixpoint located_pair (lines : list str) : bool :=
  match lines with
  | [] => false
  | line :: rest =>
      match rest with
      | sig :: _ => isin OVERRIDE line && isin NEW_NAME sig
      | [] => false
      end || located_pair rest
  end.

(** The lines other than the marker lines of the first pass. *)
Definition unmarked (lines : list str) : list str :=
  filter (fun l => negb (str_eqb (lstrip l) CLOSE_MARK)) lines.

(** The lines without their leading whitespace, other than the two wrapper
    lines of the second pass. *)
Definition unwrapped (lines : list str) : list str :=
  filter (fun l => negb (str_eqb l SET_STATE || str_eqb l CLOSE))
    (map lstrip lines).

(** The texts the scripts look for and put in. *)
Definition own_text : str :=
  OLD_SIG ++ NEW_SIG ++ OVERRIDE ++ SET_STATE ++ CLOSE_MARK
    ++ OLD_CALL ++ NEW_CALL.

(** A character that is neither whitespace nor a character of [own_text];
    the text, and the lines, reduced to such characters. *)
Definition foreign (c : char) : bool :=
  negb (isspace c) && negb (existsb (N.eqb c) own_text).

Definition kept (s : str) : str := filter foreign s.

Definition kept_lines (ls : list str) : str := concat (map kept ls).

(** * Properties *)

(** ** Prefixes and occurrences *)

Lemma startswith_nil (s : str) : startswith s [] = true.
Proof. destruct s; reflexivity. Qed.

Lemma startswith_app (p t : str) : startswith (p ++ t) p = true.
Proof.
  induction p as [|a p IH]; simpl.
  - apply startswith_nil.
  - now rewrite N.eqb_refl.
Qed.

Lemma startswith_inv (s p : str) :
  startswith s p = true -> s = p ++ skipn (length p) s.
Proof.
  revert s; induction p as [|a p IH]; intros [|b s]; simpl; try easy.
  intros H. apply andb_true_iff in H as [E H]. apply N.eqb_eq in E. subst b.
  f_equal. now apply IH.
Qed.

Lemma startswith_iff (s p : str) :
  startswith s p = true <-> exists t, s = p ++ t.
Proof.
  split.
  - intros H. eexists. now apply startswith_inv.
  - intros [t ->]. apply startswith_app.
Qed.

Lemma startswith_prefix (s p q : str) :
  startswith s (p ++ q) = true -> startswith s p = true.
Proof.
  intros H. apply startswith_iff in H as [t ->].
  rewrite <- app_assoc. apply startswith_app.
Qed.

Lemma isin_cons (p : str) (c : char) (s : str) :
  isin p (c :: s) = startswith (c :: s) p || isin p s.
Proof. reflexivity. Qed.

Lemma isin_startswith (p s : str) : startswith s p = true -> isin p s = true.
Proof. intros H. destruct s; cbn [isin]; rewrite H; reflexivity. Qed.

Lemma isin_iff (p s : str) :
  isin p s = true <-> exists a b, s = a ++ p ++ b.
Proof.
  split.
  - induction s as [|c s IH]; intros H.
    + change (startswith [] p || false = true) in H.
      rewrite orb_false_r in H. apply startswith_iff in H as [t E].
      exists [], t. exact E.
    + rewrite isin_cons in H. apply orb_true_iff in H as [H|H].
      * apply startswith_iff in H as [t E]. exists [], t. exact E.
      * destruct (IH H) as (a & b & ->). now exists (c :: a), b.
  - intros (a & b & ->). induction a as [|c a IH].
    + apply isin_startswith. simpl. apply startswith_app.
    + change (isin p (c :: a ++ p ++ b) = true).
      rewrite isin_cons, IH. apply orb_true_r.
Qed.

Lemma isin_app_r (p a b : str) : isin p b = true -> isin p (a ++ b) = true.
Proof.
  intros H. apply isin_iff in H as (x & y & ->). apply isin_iff.
  exists (a ++ x), y. now rewrite <- app_assoc.
Qed.

Lemma isin_app_l (p a b : str) : isin p a = true -> isin p (a ++ b) = true.
Proof.
  intros H. apply isin_iff in H as (x & y & ->). apply isin_iff.
  exists x, (y ++ b). now rewrite <- !app_assoc.
Qed.

Lemma isin_trans (q p s : str) :
  isin q p = true -> isin p s = true -> isin q s = true.
Proof.
  intros H1 H2. apply isin_iff in H1 as (x & y & ->).
  apply isin_iff in H2 as (a & b & ->). apply isin_iff.
  exists (a ++ x), (y ++ b). now rewrite <- !app_assoc.
Qed.

Lemma isin_false_startswith (q p a s : str) :
  isin q p = true -> isin q (a ++ s) = false -> startswith s p = false.
Proof.
  intros Hq H. destruct (startswith s p) eqn:E; [|reflexivity].
  rewrite (isin_app_r _ a _ (isin_trans _ _ _ Hq (isin_startswith _ _ E))) in H.
  discriminate.
Qed.

(** ** Scanning *)

Section ScanFacts.
Context {A : Type}.
Variable m : list A -> option (list A * nat).

Lemma scan_skip (k : nat) (s : list A) : scan m k s = scan m 0 (skipn k s).
Proof.
  revert k; induction s as [|c s IH]; intros [|k]; try reflexivity.
  simpl. apply IH.
Qed.

Lemma hits_skip (k : nat) (s : list A) : hits m k s = hits m 0 (skipn k s).
Proof.
  revert k; induction s as [|c s IH]; intros [|k]; try reflexivity.
  simpl. apply IH.
Qed.

(** The counter is the jump of the source: after a match that consumed
    [n >= 1] elements the scan resumes [n] elements further. *)
Lemma scan_unfold (s : list A) :
  scan m 0 s =
  match s with
  | [] => []
  | c :: s' =>
      match m s with
      | Some (out, n) => out ++ scan m 0 (skipn (pred n) s')
      | None => c :: scan m 0 s'
      end
  end.
Proof.
  destruct s as [|c s]; [reflexivity|]. simpl.
  destruct (m (c :: s)) as [[out n]|]; [|reflexivity].
  now rewrite scan_skip.
Qed.

Lemma hits_unfold (s : list A) :
  hits m 0 s =
  match s with
  | [] => 0
  | c :: s' =>
      match m s with
      | Some (_, n) => S (hits m 0 (skipn (pred n) s'))
      | None => hits m 0 s'
      end
  end.
Proof.
  destruct s as [|c s]; [reflexivity|]. simpl.
  destruct (m (c :: s)) as [[out n]|]; [|reflexivity].
  now rewrite hits_skip.
Qed.

(** Where the matcher fires nowhere in front of [t], the front is copied. *)
Lemma scan_app_copy (pre t : list A) :
  (forall a u, pre = a ++ u -> u <> [] -> m (u ++ t) = None) ->
  scan m 0 (pre ++ t) = pre ++ scan m 0 t.
Proof.
  induction pre as [|c pre IH]; intros H; [reflexivity|].
  pose proof (H [] (c :: pre) eq_refl ltac:(discriminate)) as E.
  simpl in *. rewrite E.
  f_equal. apply IH. intros a u -> Hu. apply (H (c :: a) u); easy.
Qed.

Lemma scan_id (s : list A) :
  (forall a u, s = a ++ u -> m u = None) -> scan m 0 s = s.
Proof.
  intros H. rewrite <- (app_nil_r s) at 1. rewrite scan_app_copy.
  - simpl. apply app_nil_r.
  - intros a u -> _. rewrite app_nil_r. now apply (H a).
Qed.

End ScanFacts.

Lemma replace_id (old new s : str) : isin old s = false -> replace old new s = s.
Proof.
  intros H. apply scan_id. intros a u ->. unfold m_replace.
  destruct (startswith u old) eqn:E; [|reflexivity].
  rewrite (isin_app_r _ a _ (isin_startswith _ _ E)) in H. discriminate.
Qed.

(** ** Lines *)

Lemma split_not_nil (s : str) : split s <> [].
Proof.
  induction s as [|c s IH]; simpl; [discriminate|].
  destruct (c =? nl)%N; [discriminate|].
  destruct (split s); [contradiction|discriminate].
Qed.

Lemma join_cons_char (c : char) (l : str) (ls : list str) :
  join ((c :: l) :: ls) = c :: join (l :: ls).
Proof. destruct ls; reflexivity. Qed.

Lemma join_split (s : str) : join (split s) = s.
Proof.
  induction s as [|c s IH]; [reflexivity|]. cbn [split].
  pose proof (split_not_nil s) as Hne.
  destruct (N.eqb_spec c nl) as [->|_]; destruct (split s) as [|l0 ls];
    try contradiction.
  - change (nl :: join (l0 :: ls) = nl :: s). now rewrite IH.
  - rewrite join_cons_char. now rewrite IH.
Qed.

Lemma isin_join (p l : str) (ls : list str) :
  In l ls -> isin p l = true -> isin p (join ls) = true.
Proof.
  induction ls as [|l0 ls IH]; [contradiction|]. intros [->|Hin] Hp.
  - destruct ls; [exact Hp|]. cbn [join]. now apply isin_app_l.
  - destruct ls as [|l1 ls]; [contradiction|]. cbn [join].
    apply isin_app_r. apply (isin_app_r _ [nl]). now apply IH.
Qed.

Lemma isin_false_line (p s l : str) :
  isin p s = false -> In l (split s) -> isin p l = false.
Proof.
  intros H Hin. destruct (isin p l) eqn:E; [|reflexivity].
  rewrite <- (join_split s), (isin_join _ _ _ Hin E) in H. discriminate.
Qed.

Lemma span_space_app (s : str) : s = fst (span_space s) ++ snd (span_space s).
Proof.
  induction s as [|c s IH]; [reflexivity|]. simpl.
  destruct (isspace c); [|reflexivity].
  destruct (span_space s) as [w r]. simpl in *. now rewrite <- IH.
Qed.

Lemma span_space_forall (s : str) : forallb isspace (fst (span_space s)) = true.
Proof.
  induction s as [|c s IH]; [reflexivity|]. simpl.
  destruct (isspace c) eqn:E; [|reflexivity].
  destruct (span_space s) as [w r]. simpl in *. now rewrite E.
Qed.

(** ** Text the scripts leave alone *)

Lemma v1_signature_none (a u : str) :
  isin OLD_NAME (a ++ u) = false -> FixActivities.m_signature u = None.
Proof.
  intros H. unfold FixActivities.m_signature.
  pose proof (span_space_app u) as E.
  destruct (span_space u) as [w r]. simpl in E. destruct w as [|c w]; [reflexivity|].
  rewrite E, app_assoc in H.
  now rewrite (isin_false_startswith OLD_NAME (OLD_SIG ++ [nl]) _ r eq_refl H).
Qed.

Lemma v2_signature_none (a u : str) :
  isin OLD_NAME (a ++ u) = false -> FixActivitiesV2.m_signature u = None.
Proof.
  intros H. unfold FixActivitiesV2.m_signature.
  pose proof (span_space_app u) as E.
  destruct (span_space u) as [w r]. simpl in E. destruct w as [|c w]; [reflexivity|].
  rewrite E, app_assoc in H.
  now rewrite (isin_false_startswith OLD_NAME OLD_SIG _ r eq_refl H).
Qed.

Lemma v2_revert_none (a u : str) :
  isin CLOSE_MARK (a ++ u) = false -> FixActivitiesV2.m_revert u = None.
Proof.
  intros H. unfold FixActivitiesV2.m_revert.
  destruct (startswith u CLOSE_MARK) eqn:E; [|reflexivity].
  rewrite (isin_app_r _ a _ (isin_startswith _ _ E)) in H. discriminate.
Qed.

Lemma v1_wrap_loop_id (brace_count : Z) (indent : nat) (lines : list str) :
  (forall l, In l lines -> isin NEW_NAME l = false) ->
  FixActivities.wrap_loop false brace_count indent lines = lines.
Proof.
  induction lines as [|l lines IH]; intros H; [reflexivity|]. simpl.
  rewrite (H l (or_introl eq_refl)). f_equal. apply IH.
  intros l' Hl'. apply H. now right.
Qed.

Lemma v2_wrap_loop_id (lines : list str) :
  (forall l, In l lines -> isin NEW_NAME l = false) ->
  FixActivitiesV2.wrap_loop lines = lines.
Proof.
  intros H. apply scan_id. intros a u ->.
  destruct u as [|line [|sig body]]; try reflexivity.
  unfold FixActivitiesV2.m_method.
  rewrite (H sig), andb_false_r; [reflexivity|].
  apply in_or_app. right. right. now left.
Qed.

Lemma v1_unchanged (x : str) :
  isin OLD_NAME x = false -> isin NEW_NAME x = false ->
  FixActivities.transform x = x.
Proof.
  intros Hold Hnew. unfold FixActivities.transform.
  assert (E : FixActivities.sub_signature x = x).
  { apply scan_id. intros a u ->. now apply (v1_signature_none a). }
  rewrite E, v1_wrap_loop_id, join_split.
  - apply replace_id.
    destruct (isin OLD_CALL x) eqn:C; [|reflexivity].
    now rewrite (isin_trans OLD_NAME OLD_CALL x eq_refl C) in Hold.
  - intros l Hl. now apply (isin_false_line _ x).
Qed.

Lemma v2_unchanged (x : str) :
  isin OLD_NAME x = false -> isin NEW_NAME x = false ->
  isin CLOSE_MARK x = false ->
  FixActivitiesV2.transform x = x.
Proof.
  intros Hold Hnew Hmark. unfold FixActivitiesV2.transform.
  assert (E1 : FixActivitiesV2.revert x = x).
  { apply scan_id. intros a u ->. now apply (v2_revert_none a). }
  assert (E2 : FixActivitiesV2.sub_signature x = x).
  { apply scan_id. intros a u ->. now apply (v2_signature_none a). }
  rewrite E1, E2, v2_wrap_loop_id, join_split.
  - apply replace_id.
    destruct (isin OLD_CALL x) eqn:C; [|reflexivity].
    now rewrite (isin_trans OLD_NAME OLD_CALL x eq_refl C) in Hold.
  - intros l Hl. now apply (isin_false_line _ x).
Qed.

(** ** Replacing every occurrence *)

Lemma startswith_compat (n r q : str) :
  startswith (n ++ r) q = true -> compat q n = true.
Proof.
  revert q; induction n as [|b n IH]; intros [|a q]; simpl; try easy.
  intros H. apply andb_true_iff in H as [E H]. rewrite E. simpl. now apply IH.
Qed.

Lemma isin_skip (o : char) (p a b : str) :
  existsb (N.eqb o) a = false -> isin (o :: p) (a ++ b) = isin (o :: p) b.
Proof.
  induction a as [|c a IH]; intros H; [reflexivity|].
  simpl in H. apply orb_false_iff in H as [E H].
  change (isin (o :: p) (c :: a ++ b) = isin (o :: p) b).
  rewrite isin_cons. cbn [startswith]. rewrite E. simpl. now apply IH.
Qed.

Section ReplaceAll.
Variables (o : char) (old' new : str).
Hypothesis head_fresh : existsb (N.eqb o) new = false.
Hypothesis tail_apart : apart old' new = true.

Lemma replace_step (c : char) (s : str) :
  replace (o :: old') new (c :: s) =
  if startswith (c :: s) (o :: old') then new ++ replace (o :: old') new (skipn (length old') s)
  else c :: replace (o :: old') new s.
Proof.
  unfold replace. rewrite scan_unfold. unfold m_replace.
  destruct (startswith (c :: s) (o :: old')); reflexivity.
Qed.

Lemma replace_keeps_tail (q s : str) :
  apart q new = true -> startswith (replace (o :: old') new s) q = true -> startswith s q = true.
Proof.
  revert s; induction q as [|a q IH]; intros s Hq H.
  - apply startswith_nil.
  - cbn [apart] in Hq. apply andb_true_iff in Hq as [Hc Hq].
    destruct s as [|c s]; [discriminate H|].
    rewrite replace_step in H.
    destruct (startswith (c :: s) (o :: old')).
    + apply startswith_compat in H. rewrite H in Hc. discriminate.
    + cbn [startswith] in *. apply andb_true_iff in H as [E H].
      rewrite E. simpl. now apply IH.
Qed.

Lemma replace_removes_upto (n : nat) (s : str) :
  length s <= n -> isin (o :: old') (replace (o :: old') new s) = false.
Proof.
  revert s; induction n as [|n IH]; intros [|c s] Hn; try reflexivity.
  - simpl in Hn. lia.
  - rewrite replace_step. destruct (startswith (c :: s) (o :: old')) eqn:E.
    + rewrite isin_skip by exact head_fresh. apply IH.
      rewrite length_skipn. simpl in Hn. lia.
    + rewrite isin_cons, IH by (simpl in Hn; lia).
      rewrite orb_false_r. cbn [startswith] in *.
      destruct (o =? c)%N; [|reflexivity]. simpl in *.
      destruct (startswith (replace (o :: old') new s) old') eqn:F; [|reflexivity].
      now rewrite (replace_keeps_tail old' s tail_apart F) in E.
Qed.

Lemma replace_removes (s : str) : isin (o :: old') (replace (o :: old') new s) = false.
Proof. now apply (replace_removes_upto (length s)). Qed.
End ReplaceAll.

(** ** Writing files *)

Lemma writes_print (w : world) (msg : message) : writes (print w msg) = writes w.
Proof. reflexivity. Qed.

Section WriteBack.
Variable verbose : bool.
Variable transform : str -> str.

Lemma process_file_exists (w : world) (f g : string) :
  exists_in (process_file verbose transform w f) g = exists_in w g.
Proof.
  unfold process_file, exists_in.
  destruct (files w f) eqn:E.
  - destruct verbose; simpl; destruct (String.eqb_spec g f) as [->|_];
      try rewrite E; reflexivity.
  - destruct verbose; reflexivity.
Qed.

Lemma process_file_writes (w : world) (f : string) :
  writes (process_file verbose transform w f)
  = writes w ++ (if exists_in w f then [f] else []).
Proof.
  unfold process_file, exists_in.
  destruct (files w f); destruct verbose; simpl;
    try rewrite app_nil_r; reflexivity.
Qed.

Lemma process_file_content (w : world) (f : string) (content : str) :
  files w f = Some content ->
  files (process_file verbose transform w f) f = Some (transform content).
Proof.
  unfold process_file. intros ->.
  destruct verbose; simpl; now rewrite String.eqb_refl.
Qed.

Lemma fold_process_writes (l : list string) (w : world) :
  writes (fold_left (process_file verbose transform) l w)
  = writes w ++ filter (exists_in w) l.
Proof.
  revert w; induction l as [|f l IH]; intros w; simpl.
  - now rewrite app_nil_r.
  - rewrite IH, process_file_writes, <- app_assoc. f_equal.
    rewrite (filter_ext _ _ (process_file_exists w f)).
    destruct (exists_in w f); reflexivity.
Qed.
End WriteBack.

(** ** Occurrences of a pattern whose first character is not repeated *)

Lemma startswith_same_front (a s p : str) :
  startswith (a ++ s) (a ++ p) = startswith s p.
Proof. induction a as [|c a IH]; simpl; [reflexivity|]. now rewrite N.eqb_refl. Qed.

Lemma existsb_In (c : char) (l : str) :
  existsb (N.eqb c) l = false -> ~ In c l.
Proof.
  intros H Hin. assert (E : existsb (N.eqb c) l = true).
  { apply existsb_exists. exists c. split; [exact Hin|apply N.eqb_refl]. }
  rewrite E in H. discriminate.
Qed.

(** A prefix [q] that starts inside [u] and reaches the character [c] behind
    it either ends inside [u] or has [c] beyond its first character. *)
Lemma startswith_straddle (q u : str) (c : char) (t : str) :
  u <> [] -> startswith (u ++ c :: t) q = true ->
  startswith u q = true \/ In c (tl q).
Proof.
  revert q; induction u as [|a u IH]; intros q Hu H; [contradiction|].
  destruct q as [|b q]; [now left|].
  cbn [app startswith] in H. apply andb_true_iff in H as [E H].
  destruct u as [|a' u].
  - destruct q as [|d q].
    + left. cbn [startswith]. now rewrite E.
    + right. cbn [app startswith] in H. apply andb_true_iff in H as [D _].
      apply N.eqb_eq in D. subst d. now left.
  - destruct (IH q ltac:(discriminate) H) as [F|F].
    + left. cbn [startswith] in *. now rewrite E, F.
    + right. destruct q; [contradiction|]. now right.
Qed.

Section Mark.
(** [c :: q'] is a mark in which [c] occurs once; [p2] is what a longer
    pattern has after the mark. *)
Variables (c : char) (q' p2 : str).
Hypothesis head_once : existsb (N.eqb c) q' = false.

Lemma no_match_in_front (a u b' : str) :
  isin (c :: q') (a ++ u) = false -> u <> [] ->
  startswith (u ++ c :: b') ((c :: q') ++ p2) = false.
Proof.
  intros Ha Hu. destruct (startswith _ _) eqn:E; [|reflexivity].
  apply startswith_prefix, startswith_straddle in E as [E|E]; [| |exact Hu].
  - rewrite (isin_app_r _ a _ (isin_startswith _ _ E)) in Ha. discriminate.
  - now apply existsb_In in head_once.
Qed.

Lemma isin_behind_front (a b' : str) :
  isin (c :: q') a = false ->
  isin ((c :: q') ++ p2) (a ++ c :: b') = isin ((c :: q') ++ p2) (c :: b').
Proof.
  induction a as [|a0 a IH]; intros Ha; [reflexivity|].
  pose proof (no_match_in_front [] (a0 :: a) b' Ha ltac:(discriminate)) as E.
  change ((a0 :: a) ++ c :: b') with (a0 :: (a ++ c :: b')) in *.
  rewrite isin_cons, E.
  rewrite isin_cons in Ha. apply orb_false_iff in Ha as [_ Ha].
  now apply IH.
Qed.
End Mark.

Lemma forallb_space_no (c : char) (w : str) :
  isspace c = false -> forallb isspace w = true -> existsb (N.eqb c) w = false.
Proof.
  intros Hc. induction w as [|a w IH]; [reflexivity|]. simpl.
  intros H. apply andb_true_iff in H as [Ha H]. rewrite (IH H), orb_false_r.
  destruct (N.eqb_spec c a) as [->|_]; [congruence|reflexivity].
Qed.

Lemma existsb_app (c : char) (a b : str) :
  existsb (N.eqb c) (a ++ b) = existsb (N.eqb c) a || existsb (N.eqb c) b.
Proof. induction a as [|x a IH]; simpl; [reflexivity|]. now rewrite IH, orb_assoc. Qed.

(** A run of whitespace in front of [});] is [n] spaces when the text starts
    with [n] spaces and [});]. *)
Lemma starts_with_spaces (n : nat) (w post : str) :
  forallb isspace w = true ->
  startswith (w ++ CLOSE ++ post) (repeat sp n ++ CLOSE) = true ->
  w = repeat sp n.
Proof.
  change CLOSE with [rbrace; 41%N; 59%N].
  revert w; induction n as [|n IH]; intros [|a w] Hw H; try reflexivity.
  - cbn [forallb] in Hw. apply andb_true_iff in Hw as [Ha _].
    cbn [repeat app startswith] in H. apply andb_true_iff in H as [E _].
    apply N.eqb_eq in E. subst a. discriminate.
  - cbn [repeat app startswith] in H. apply andb_true_iff in H as [E _].
    discriminate.
  - cbn [forallb] in Hw. apply andb_true_iff in Hw as [_ Hw].
    cbn [repeat app startswith] in H. apply andb_true_iff in H as [E H].
    apply N.eqb_eq in E. subst a. cbn [repeat]. f_equal. now apply IH.
Qed.

Lemma span_space_run (w r : str) :
  forallb isspace w = true -> startswith r CLOSE = true ->
  span_space (w ++ r) = (w, r).
Proof.
  intros Hw Hr. induction w as [|a w IH].
  - apply startswith_inv in Hr. rewrite Hr. reflexivity.
  - cbn [forallb] in Hw. apply andb_true_iff in Hw as [Ha Hw].
    cbn [app span_space]. now rewrite Ha, (IH Hw).
Qed.

Lemma scan_at_front {A : Type} (m : list A -> option (list A * nat))
    (front t out : list A) :
  front <> [] -> m (front ++ t) = Some (out, length front) ->
  scan m 0 (front ++ t) = out ++ scan m 0 t.
Proof.
  intros Hf H. rewrite scan_unfold. destruct front as [|c f]; [contradiction|].
  cbn [app] in *. rewrite H. cbn [length pred].
  now rewrite skipn_app, skipn_all, Nat.sub_diag.
Qed.

Lemma replace_at_front (old new t : str) :
  old <> [] -> replace old new (old ++ t) = new ++ replace old new t.
Proof.
  intros H. apply scan_at_front; [exact H|].
  unfold m_replace. now rewrite startswith_app.
Qed.

Lemma replace_app_copy (old new pre t : str) :
  (forall a u, pre = a ++ u -> u <> [] -> startswith (u ++ t) old = false) ->
  replace old new (pre ++ t) = pre ++ replace old new t.
Proof.
  intros H. apply scan_app_copy. intros a u E Hu. unfold m_replace.
  now rewrite (H a u E Hu).
Qed.

Lemma str_eqb_eq (s t : str) : str_eqb s t = true <-> s = t.
Proof.
  revert t; induction s as [|a s IH]; intros [|b t]; simpl; try easy.
  rewrite andb_true_iff, N.eqb_eq, IH. split.
  - now intros [-> ->].
  - intros E. now injection E.
Qed.

(** ** The doubled closing line *)

Section Doubled.
Variables (pre w post : str).
Hypothesis pre_clean : isin CLOSE_MARK pre = false.
Hypothesis post_clean : isin CLOSE_MARK (CLOSE ++ post) = false.
Hypothesis w_space : forallb isspace w = true.

Lemma dup_not_behind (n : nat) : isin (DUP n) (CLOSE ++ post) = false.
Proof.
  destruct (isin (DUP n) (CLOSE ++ post)) eqn:E; [|reflexivity].
  assert (M : isin CLOSE_MARK (DUP n) = true)
    by apply isin_startswith, startswith_app.
  now rewrite (isin_trans _ _ _ M E) in post_clean.
Qed.

Lemma isin_dup_doubled (n : nat) :
  isin (DUP n) (doubled pre w post)
  = startswith (w ++ CLOSE ++ post) (repeat sp n ++ CLOSE).
Proof.
  unfold doubled, DUP.
  change CLOSE_MARK with (rbrace :: MARK_TAIL).
  change ((rbrace :: MARK_TAIL) ++ nl :: w ++ CLOSE ++ post)
    with (rbrace :: (MARK_TAIL ++ nl :: w ++ CLOSE ++ post)).
  rewrite (isin_behind_front rbrace MARK_TAIL _ eq_refl pre _ pre_clean).
  rewrite isin_cons.
  change (rbrace :: MARK_TAIL ++ nl :: w ++ CLOSE ++ post)
    with ((rbrace :: MARK_TAIL ++ [nl]) ++ w ++ CLOSE ++ post).
  change ((rbrace :: MARK_TAIL) ++ nl :: repeat sp n ++ CLOSE)
    with ((rbrace :: MARK_TAIL ++ [nl]) ++ repeat sp n ++ CLOSE).
  rewrite startswith_same_front.
  change ((rbrace :: MARK_TAIL ++ [nl]) ++ repeat sp n ++ CLOSE)
    with (rbrace :: ((MARK_TAIL ++ [nl]) ++ repeat sp n ++ CLOSE)).
  replace (MARK_TAIL ++ nl :: w ++ CLOSE ++ post)
    with ((MARK_TAIL ++ nl :: w) ++ CLOSE ++ post)
    by (now rewrite <- app_assoc).
  rewrite isin_skip.
  - change (rbrace :: (MARK_TAIL ++ [nl]) ++ repeat sp n ++ CLOSE)
      with (DUP n).
    rewrite dup_not_behind. apply orb_false_r.
  - rewrite existsb_app. cbn [existsb].
    rewrite (forallb_space_no rbrace w eq_refl w_space). reflexivity.
Qed.

Lemma collapsed_clean (n : nat) : isin (DUP n) (collapsed pre post) = false.
Proof.
  unfold collapsed, DUP.
  change CLOSE_MARK with (rbrace :: MARK_TAIL).
  change (CLOSE ++ post) with (rbrace :: ([41%N; 59%N] ++ post)).
  rewrite (isin_behind_front rbrace MARK_TAIL _ eq_refl pre _ pre_clean).
  apply (dup_not_behind n).
Qed.

Lemma replace_dup_hit (n : nat) :
  w = repeat sp n ->
  replace (DUP n) CLOSE (doubled pre w post) = collapsed pre post.
Proof.
  intros ->. unfold doubled, collapsed.
  rewrite replace_app_copy.
  - f_equal.
    replace (CLOSE_MARK ++ nl :: repeat sp n ++ CLOSE ++ post)
      with (DUP n ++ post)
      by (unfold DUP; now rewrite <- app_assoc, <- app_comm_cons, <- app_assoc).
    rewrite (replace_at_front (DUP n) CLOSE post) by discriminate.
    f_equal. apply replace_id.
    destruct (isin (DUP n) post) eqn:E; [|reflexivity].
    pose proof (dup_not_behind n) as D.
    now rewrite (isin_app_r _ CLOSE _ E) in D.
  - intros a u -> Hu.
    apply (no_match_in_front rbrace MARK_TAIL _ eq_refl a u _ pre_clean Hu).
Qed.

Lemma replace_dup_miss (n : nat) :
  w <> repeat sp n ->
  replace (DUP n) CLOSE (doubled pre w post) = doubled pre w post.
Proof.
  intros Hw. apply replace_id. rewrite isin_dup_doubled.
  destruct (startswith _ _) eqn:E; [|reflexivity].
  now apply starts_with_spaces in E.
Qed.

(** What the repair pass makes of the doubled closing line. *)
Lemma repair_doubled :
  FixExtraBraces.transform (doubled pre w post)
  = if str_eqb w (repeat sp 4) || str_eqb w (repeat sp 2)
    then collapsed pre post else doubled pre w post.
Proof.
  unfold FixExtraBraces.transform.
  change FixExtraBraces.DUP4 with (DUP 4).
  change FixExtraBraces.DUP2 with (DUP 2).
  destruct (str_eqb w (repeat sp 4)) eqn:E4.
  - apply str_eqb_eq in E4. rewrite (replace_dup_hit 4 E4).
    apply replace_id, collapsed_clean.
  - assert (N4 : w <> repeat sp 4).
    { intros E. apply str_eqb_eq in E. congruence. }
    rewrite (replace_dup_miss 4 N4).
    destruct (str_eqb w (repeat sp 2)) eqn:E2; cbn [orb].
    + apply str_eqb_eq in E2. apply (replace_dup_hit 2 E2).
    + apply replace_dup_miss. intros E. apply str_eqb_eq in E. congruence.
Qed.

(** The second pass reverts it whatever the whitespace is. *)
Lemma revert_doubled :
  FixActivitiesV2.revert (doubled pre w post) = collapsed pre post.
Proof.
  unfold FixActivitiesV2.revert, doubled, collapsed.
  rewrite scan_app_copy.
  - f_equal.
    replace (CLOSE_MARK ++ nl :: w ++ CLOSE ++ post)
      with ((CLOSE_MARK ++ (nl :: w) ++ CLOSE) ++ post)
      by (now rewrite <- !app_assoc).
    rewrite (scan_at_front FixActivitiesV2.m_revert _ post CLOSE).
    + f_equal. apply scan_id. intros a u E.
      apply (v2_revert_none a). rewrite <- E.
      destruct (isin CLOSE_MARK post) eqn:F; [|reflexivity].
      now rewrite (isin_app_r _ CLOSE _ F) in post_clean.
    + discriminate.
    + unfold FixActivitiesV2.m_revert.
      rewrite <- !app_assoc, startswith_app.
      rewrite skipn_app, skipn_all, Nat.sub_diag. cbn [app skipn].
      change (nl :: w ++ CLOSE ++ post) with ((nl :: w) ++ CLOSE ++ post).
      rewrite span_space_run.
      * rewrite startswith_app. do 2 f_equal.
        rewrite length_app. cbn [length]. rewrite length_app. lia.
      * cbn [forallb]. now rewrite w_space.
      * apply startswith_app.
  - intros a u -> Hu. unfold FixActivitiesV2.m_revert.
    change (CLOSE_MARK ++ nl :: w ++ CLOSE ++ post)
      with (rbrace :: (MARK_TAIL ++ nl :: w ++ CLOSE ++ post)).
    pose proof (no_match_in_front rbrace MARK_TAIL [] eq_refl a u
                  (MARK_TAIL ++ nl :: w ++ CLOSE ++ post) pre_clean Hu) as E.
    rewrite app_nil_r in E. change (rbrace :: MARK_TAIL) with CLOSE_MARK in E.
    now rewrite E.
Qed.
End Doubled.

Lemma mark_not_in_collapsed (pre post : str) :
  isin CLOSE_MARK pre = false -> isin CLOSE_MARK (CLOSE ++ post) = false ->
  isin CLOSE_MARK (collapsed pre post) = false.
Proof.
  intros Hpre Hpost. unfold collapsed.
  change (CLOSE ++ post) with (rbrace :: ([41%N; 59%N] ++ post)) in *.
  pose proof (isin_behind_front rbrace MARK_TAIL [] eq_refl pre
                ([41%N; 59%N] ++ post)) as E.
  rewrite app_nil_r in E. change (rbrace :: MARK_TAIL) with CLOSE_MARK in E.
  now rewrite E.
Qed.

Lemma collapsed_shorter (pre w post : str) :
  collapsed pre post <> doubled pre w post.
Proof.
  intros E. apply (f_equal (@length char)) in E. unfold collapsed, doubled in E.
  rewrite !length_app in E. cbn [length] in E. rewrite !length_app in E.
  change (length CLOSE_MARK) with 15 in E. lia.
Qed.

(** ** The end of a method body *)

Lemma count_nonneg (c : char) (s : str) : (0 <= count c s)%Z.
Proof. induction s as [|a s IH]; simpl; [lia|]. destruct (a =? c)%N; lia. Qed.

Lemma count_pos_isin (c : char) (s : str) :
  (0 < count c s)%Z -> isin [c] s = true.
Proof.
  induction s as [|a s IH]; cbn [count]; [lia|]. intros H.
  rewrite isin_cons.
  destruct (N.eqb_spec a c) as [->|Hne].
  - cbn [startswith]. now rewrite N.eqb_refl, startswith_nil.
  - rewrite IH by lia. apply orb_true_r.
Qed.

Lemma skipn_past (A : Type) (body : list A) (closing : A) (rest : list A) :
  skipn (S (length body)) (body ++ closing :: rest) = rest.
Proof. induction body as [|l body IH]; [reflexivity|exact IH]. Qed.

Lemma v2_wrap_body_stop (ind : str) (d : Z) (lines : list str) :
  (d <= 0)%Z -> FixActivitiesV2.wrap_body ind d lines = ([], 0).
Proof.
  intros H. destruct lines as [|l ls]; [reflexivity|]. simpl.
  destruct (Z.gtb_spec d 0); [lia|reflexivity].
Qed.

Lemma closes_at_cons (d : Z) (l : str) (body : list str) (closing : str) :
  closes_at (l :: body) closing d ->
  (0 < d)%Z
  /\ (0 < d + (count lbrace l - count rbrace l))%Z
  /\ closes_at body closing (d + (count lbrace l - count rbrace l)).
Proof.
  intros [Hpos Hzero]. split; [|split; [|split]].
  - apply (Hpos 0). simpl. lia.
  - apply (Hpos 1). simpl. lia.
  - intros k Hk. apply (Hpos (S k)). simpl. lia.
  - exact Hzero.
Qed.

Lemma closes_at_nil (d : Z) (closing : str) :
  closes_at [] closing d ->
  (0 < d)%Z /\ (d + (count lbrace closing - count rbrace closing) = 0)%Z.
Proof.
  intros [Hpos Hzero]. split.
  - apply (Hpos 0). simpl. lia.
  - exact Hzero.
Qed.


Lemma v2_wrap_body_closes (ind : str) (d : Z) (body : list str) (closing : str)
    (rest : list str) :
  closes_at body closing d ->
  FixActivitiesV2.wrap_body ind d (body ++ closing :: rest)
  = (map indent_body body ++ [ind ++ CLOSE; closing], S (length body)).
Proof.
  revert d; induction body as [|l body IH]; intros d H.
  - apply closes_at_nil in H as [Hd Hz]. cbn [app FixActivitiesV2.wrap_body].
    destruct (Z.gtb_spec d 0); [|lia]. rewrite Hz.
    now rewrite v2_wrap_body_stop by lia.
  - apply closes_at_cons in H as (Hd & Hl & H).
    cbn [app FixActivitiesV2.wrap_body].
    destruct (Z.gtb_spec d 0); [|lia]. rewrite (IH _ H).
    destruct (Z.eqb_spec (d + (count lbrace l - count rbrace l)) 0); [lia|].
    unfold indent_body. cbn [map app length]. destruct (strip l); reflexivity.
Qed.

Lemma v1_wrap_loop_closes (ind : nat) (d : Z) (body : list str) (closing : str)
    (rest : list str) :
  (forall l, In l body -> isin NEW_NAME l = false) ->
  isin NEW_NAME closing = false ->
  closes_at body closing d ->
  FixActivities.wrap_loop true d ind (body ++ closing :: rest)
  = body ++ (repeat sp (ind + 2) ++ CLOSE_MARK) :: closing
         :: FixActivities.wrap_loop false 0 ind rest.
Proof.
  intros Hb Hc. revert d Hb; induction body as [|l body IH]; intros d Hb H.
  - apply closes_at_nil in H as [Hd Hz]. cbn [app FixActivities.wrap_loop].
    rewrite Hc, Hz. cbn [Z.eqb andb].
    rewrite (count_pos_isin rbrace closing); [reflexivity|].
    pose proof (count_nonneg lbrace closing). lia.
  - apply closes_at_cons in H as (Hd & Hl & H).
    cbn [app FixActivities.wrap_loop].
    rewrite (Hb l (or_introl eq_refl)).
    destruct (Z.eqb_spec (d + (count lbrace l - count rbrace l)) 0); [lia|].
    cbn [andb]. f_equal. apply IH; [|exact H].
    intros l' Hl'. apply Hb. now right.
Qed.

Lemma v1_step_signature (started : bool) (d : Z) (indent : nat) (sig : str)
    (lines : list str) :
  isin NEW_NAME sig = true ->
  FixActivities.wrap_loop started d indent (sig :: lines)
  = sig :: FixActivities.wrap_loop true d (indent_width sig) lines.
Proof. intros H. cbn [FixActivities.wrap_loop]. now rewrite H. Qed.

Lemma v1_step_inside (d : Z) (indent : nat) (l : str) (lines : list str) :
  isin NEW_NAME l = false ->
  (d + (count lbrace l - count rbrace l) <> 0)%Z ->
  FixActivities.wrap_loop true d indent (l :: lines)
  = l :: FixActivities.wrap_loop true (d + (count lbrace l - count rbrace l))
           indent lines.
Proof.
  intros H Hd. cbn [FixActivities.wrap_loop]. rewrite H.
  now destruct (Z.eqb_spec (d + (count lbrace l - count rbrace l)) 0).
Qed.

Lemma scenario_closes : closes_at scenario_body (lit "  }") 1.
Proof.
  split; [|reflexivity]. intros [|[|k]] Hk; reflexivity.
Qed.

(** ** A body that does not close *)

Lemma never_closes_cons (d : Z) (l : str) (body : list str) :
  never_closes (l :: body) d ->
  (0 < d)%Z
  /\ (0 < d + (count lbrace l - count rbrace l))%Z
  /\ never_closes body (d + (count lbrace l - count rbrace l)).
Proof.
  intros H. split; [|split].
  - apply (H 0). simpl. lia.
  - apply (H 1). simpl. lia.
  - intros k Hk. apply (H (S k)). simpl. lia.
Qed.

Lemma v2_wrap_body_open (ind : str) (d : Z) (body : list str) :
  never_closes body d ->
  FixActivitiesV2.wrap_body ind d body = (map indent_body body, length body).
Proof.
  revert d; induction body as [|l body IH]; intros d H; [reflexivity|].
  apply never_closes_cons in H as (Hd & Hl & H).
  cbn [FixActivitiesV2.wrap_body].
  destruct (Z.gtb_spec d 0); [|lia]. rewrite (IH _ H).
  destruct (Z.eqb_spec (d + (count lbrace l - count rbrace l)) 0); [lia|].
  unfold indent_body. cbn [map length]. destruct (strip l); reflexivity.
Qed.

Lemma v1_wrap_loop_open (indent : nat) (d : Z) (body : list str) :
  (forall l, In l body -> isin NEW_NAME l = false) ->
  never_closes body d ->
  FixActivities.wrap_loop true d indent body = body.
Proof.
  revert d; induction body as [|l body IH]; intros d Hb H; [reflexivity|].
  apply never_closes_cons in H as (Hd & Hl & H).
  rewrite v1_step_inside by (try lia; apply Hb; now left).
  f_equal. apply IH; [|exact H]. intros l' Hl'. apply Hb. now right.
Qed.



(** ** Counting braces *)

Lemma count_app (c : char) (a b : str) : (count c (a ++ b) = count c a + count c b)%Z.
Proof. induction a as [|x a IH]; simpl; [reflexivity|]. rewrite IH. lia. Qed.

Lemma count_space (c : char) (w : str) :
  isspace c = false -> forallb isspace w = true -> count c w = 0%Z.
Proof.
  intros Hc. induction w as [|a w IH]; [reflexivity|]. cbn [forallb count].
  intros H. apply andb_true_iff in H as [Ha H]. rewrite (IH H).
  destruct (N.eqb_spec a c) as [->|_]; [congruence|reflexivity].
Qed.

Lemma count_spaces (c : char) (n : nat) :
  isspace c = false -> count c (repeat sp n) = 0%Z.
Proof.
  intros Hc. apply count_space; [exact Hc|].
  induction n as [|n IH]; [reflexivity|exact IH].
Qed.

Section ScanCount.
Variables (c : char) (m : str -> option (str * nat)) (delta : Z).

(** Every match consumes at least one character and changes the number of
    [c] by [delta]. *)
Hypothesis m_sound :
  forall s out n, m s = Some (out, n) ->
    1 <= n /\ n <= length s
    /\ (count c out = count c (firstn n s) + delta)%Z.

Lemma count_scan_upto (k : nat) (s : str) :
  length s <= k ->
  (count c (scan m 0 s) = count c s + delta * Z.of_nat (hits m 0 s))%Z.
Proof.
  revert s; induction k as [|k IH]; intros [|a s] Hk;
    try (cbn [scan hits count]; lia); [simpl in Hk; lia|].
  rewrite scan_unfold, hits_unfold.
  destruct (m (a :: s)) as [[out n]|] eqn:E.
  - destruct (m_sound _ _ _ E) as (H1 & H2 & H3).
    destruct n as [|n]; [lia|]. cbn [pred].
    change (skipn n s) with (skipn (S n) (a :: s)).
    assert (Hs : (count c (a :: s)
                  = count c (firstn (S n) (a :: s))
                    + count c (skipn (S n) (a :: s)))%Z)
      by (now rewrite <- count_app, firstn_skipn).
    rewrite count_app, IH, H3, Nat2Z.inj_succ, Z.mul_succ_r.
    + lia.
    + rewrite length_skipn. simpl in *. lia.
  - cbn [count]. rewrite IH by (simpl in Hk; lia). lia.
Qed.

Lemma count_scan (s : str) :
  (count c (scan m 0 s) = count c s + delta * Z.of_nat (hits m 0 s))%Z.
Proof. now apply (count_scan_upto (length s)). Qed.
End ScanCount.

Lemma m_replace_sound (c : char) (old new : str) :
  old <> [] ->
  forall s out n, m_replace old new s = Some (out, n) ->
    1 <= n /\ n <= length s
    /\ (count c out = count c (firstn n s) + (count c new - count c old))%Z.
Proof.
  intros Hold s out n. unfold m_replace.
  destruct (startswith s old) eqn:E; [|discriminate].
  intros H. injection H as <- <-.
  apply startswith_inv in E. remember (skipn (length old) s) as t. subst s.
  rewrite firstn_app, firstn_all, Nat.sub_diag, length_app, app_nil_r.
  cbn [firstn]. destruct old; [contradiction|]. simpl. repeat split; lia.
Qed.

Lemma count_replace (c : char) (old new s : str) :
  old <> [] ->
  (count c (replace old new s)
   = count c s
     + (count c new - count c old) * Z.of_nat (hits (m_replace old new) 0 s))%Z.
Proof. intros H. apply count_scan. now apply m_replace_sound. Qed.


Lemma count_join (c : char) (ls : list str) :
  c <> nl -> count c (join ls) = count_lines c ls.
Proof.
  intros Hc. induction ls as [|l ls IH]; [reflexivity|].
  destruct ls as [|l' ls]; [simpl; lia|].
  change (join (l :: l' :: ls)) with (l ++ nl :: join (l' :: ls)).
  rewrite count_app. cbn [count count_lines] in *. rewrite IH.
  destruct (N.eqb_spec nl c) as [E|_]; [congruence|lia].
Qed.




(** ** Text that is wrapped already *)

Lemma copy_wrapped_copies (lines : list str) :
  fst (FixActivitiesV2.copy_wrapped lines)
  = firstn (snd (FixActivitiesV2.copy_wrapped lines)) lines.
Proof.
  induction lines as [|l lines IH]; [reflexivity|].
  cbn [FixActivitiesV2.copy_wrapped].
  destruct (str_eqb (strip l) [rbrace]); [reflexivity|].
  destruct (FixActivitiesV2.copy_wrapped lines) as [out n].
  cbn [fst snd firstn] in *. now rewrite IH.
Qed.

Lemma all_wrapped_skipn (n : nat) (lines : list str) :
  all_wrapped lines = true -> all_wrapped (skipn n lines) = true.
Proof.
  revert lines; induction n as [|n IH]; intros [|l lines] H; try assumption.
  cbn [skipn]. apply IH. cbn [all_wrapped] in H.
  now apply andb_true_iff in H as [_ H].
Qed.

(** Where every located method is wrapped the loop of the second pass
    inserts nothing: at a located method the check of the line behind the
    signature sends it to the branch that copies. *)
Lemma v2_wrap_loop_wrapped_upto (k : nat) (lines : list str) :
  length lines <= k -> all_wrapped lines = true ->
  FixActivitiesV2.wrap_loop lines = lines.
Proof.
  unfold FixActivitiesV2.wrap_loop.
  revert lines; induction k as [|k IH]; intros [|line rest] Hk H;
    try reflexivity; [simpl in Hk; lia|].
  rewrite scan_unfold. cbn [all_wrapped] in H.
  apply andb_true_iff in H as [Hhere Hrest].
  assert (Hcopy : line :: scan FixActivitiesV2.m_method 0 rest = line :: rest)
    by (f_equal; apply IH; [simpl in Hk; lia|exact Hrest]).
  unfold FixActivitiesV2.m_method.
  destruct rest as [|sig body]; [exact Hcopy|].
  destruct (isin OVERRIDE line && isin NEW_NAME sig); [|exact Hcopy].
  destruct body as [|first body]; [discriminate|]. rewrite Hhere.
  pose proof (copy_wrapped_copies (first :: body)) as C.
  destruct (FixActivitiesV2.copy_wrapped (first :: body)) as [out n].
  cbn [fst snd] in C. subst out.
  change (skipn (pred (2 + n)) (sig :: first :: body))
    with (skipn n (first :: body)).
  rewrite IH.
  - cbn [app]. do 2 f_equal. apply firstn_skipn.
  - rewrite length_skipn. cbn [length] in *. lia.
  - apply all_wrapped_skipn. cbn [all_wrapped] in Hrest.
    now apply andb_true_iff in Hrest as [_ Hrest].
Qed.

(** The second pass returns a text unchanged when it has neither the old
    name nor the marker line and every located method is wrapped. *)
Lemma v2_canonical_unchanged (x : str) :
  isin OLD_NAME x = false ->
  isin CLOSE_MARK x = false ->
  all_wrapped (split x) = true ->
  FixActivitiesV2.transform x = x.
Proof.
  intros Hold Hmark Hw. unfold FixActivitiesV2.transform.
  assert (E1 : FixActivitiesV2.revert x = x).
  { apply scan_id. intros a u ->. now apply (v2_revert_none a). }
  assert (E2 : FixActivitiesV2.sub_signature x = x).
  { apply scan_id. intros a u ->. now apply (v2_signature_none a). }
  rewrite E1, E2, (v2_wrap_loop_wrapped_upto (length (split x))), join_split;
    [|lia|exact Hw].
  apply replace_id.
  destruct (isin OLD_CALL x) eqn:C; [|reflexivity].
  now rewrite (isin_trans OLD_NAME OLD_CALL x eq_refl C) in Hold.
Qed.

(** * Further properties *)

(** ** Lines *)

Lemma split_app_nl (a b : str) : split (a ++ nl :: b) = split a ++ split b.
Proof.
  induction a as [|c a IH]; [reflexivity|].
  cbn [app split]. rewrite IH.
  destruct (c =? nl)%N; [reflexivity|].
  pose proof (split_not_nil a). destruct (split a); [contradiction|reflexivity].
Qed.

Lemma isin_nl_cons (c : char) (l : str) :
  isin [nl] (c :: l) = (c =? nl)%N || isin [nl] l.
Proof.
  rewrite isin_cons. cbn [startswith]. now rewrite startswith_nil, andb_true_r, N.eqb_sym.
Qed.

Lemma split_line (l : str) : isin [nl] l = false -> split l = [l].
Proof.
  induction l as [|c l IH]; [reflexivity|].
  rewrite isin_nl_cons. intros H. apply orb_false_iff in H as [Hc Hl].
  cbn [split]. now rewrite Hc, (IH Hl).
Qed.

Lemma split_join (ls : list str) :
  ls <> [] -> existsb (isin [nl]) ls = false -> split (join ls) = ls.
Proof.
  induction ls as [|l ls IH]; [easy|]. intros _ H.
  cbn [existsb] in H. apply orb_false_iff in H as [Hl H].
  destruct ls as [|l' ls]; [now apply split_line|].
  change (join (l :: l' :: ls)) with (l ++ nl :: join (l' :: ls)).
  rewrite split_app_nl, (split_line l Hl), IH; [reflexivity|discriminate|exact H].
Qed.

Lemma length_split (s : str) :
  Z.of_nat (length (split s)) = (count nl s + 1)%Z.
Proof.
  induction s as [|c s IH]; [reflexivity|]. cbn [split count].
  pose proof (split_not_nil s).
  destruct (c =? nl)%N.
  - cbn [length]. lia.
  - destruct (split s); [contradiction|]. cbn [length] in *. lia.
Qed.

(** X1.  Cutting the buffer into lines and joining the lines again is
    lossless in both directions: [content.split('\n')] joined with ['\n'] is
    [content], its lines are one more than the line breaks of [content], and
    a non-empty list of lines, none of which holds a line break, is what
    splitting its join gives back. *)
Theorem lines_round_trip (content : str) (new_lines : list str) :
  new_lines <> [] ->
  existsb (isin [nl]) new_lines = false ->
  join (split content) = content
  /\ Z.of_nat (length (split content)) = (count nl content + 1)%Z
  /\ split (join new_lines) = new_lines.
Proof.
  intros Hne Hnl. split; [apply join_split|split].
  - apply length_split.
  - now apply split_join.
Qed.

Lemma lines_round_trip_witness :
  join (split scenario_in) = scenario_in
  /\ Z.of_nat (length (split scenario_in)) = (count nl scenario_in + 1)%Z
  /\ split (join [lit "  }"; []; lit "}"]) = [lit "  }"; []; lit "}"].
Proof.
  apply (lines_round_trip scenario_in [lit "  }"; []; lit "}"]).
  - discriminate.
  - reflexivity.
Defined.

(** ** The directory and the console after a run *)

Section RunFrame.
Variable verbose : bool.
Variable transform : str -> str.

Lemma files_print (w : world) (msg : message) : files (print w msg) = files w.
Proof. reflexivity. Qed.

Lemma console_print (w : world) (msg : message) :
  console (print w msg) = console w ++ [msg].
Proof. reflexivity. Qed.

Lemma process_file_files (w : world) (f g : string) :
  files (process_file verbose transform w f) g
  = if String.eqb g f then option_map transform (files w g) else files w g.
Proof.
  unfold process_file.
  destruct (String.eqb_spec g f) as [->|Hne].
  - destruct (files w f) eqn:E.
    + destruct verbose; cbn [files print write_file];
        now rewrite String.eqb_refl.
    + destruct verbose; cbn [files print]; now rewrite E.
  - destruct (files w f) eqn:E.
    + destruct verbose; cbn [files print write_file];
        destruct (String.eqb_spec g f); congruence.
    + destruct verbose; reflexivity.
Qed.

Lemma fold_process_files (l : list string) :
  distinct l = true ->
  forall (w : world) (g : string),
    files (fold_left (process_file verbose transform) l w) g
    = if existsb (String.eqb g) l then option_map transform (files w g)
      else files w g.
Proof.
  induction l as [|f l IH]; intros D w g; [reflexivity|].
  cbn [distinct] in D. apply andb_true_iff in D as [Df D].
  apply negb_true_iff in Df.
  cbn [fold_left existsb]. rewrite (IH D), process_file_files.
  destruct (String.eqb_spec g f) as [->|Hne]; [|reflexivity].
  now rewrite Df.
Qed.

Lemma process_file_report (w : world) (f : string) :
  console (process_file verbose transform w f)
  = console w ++ report verbose w f.
Proof.
  unfold process_file, report, exists_in.
  destruct (files w f); destruct verbose; cbn [console print write_file];
    rewrite <- ?app_assoc, ?app_nil_r; reflexivity.
Qed.

Lemma report_process (w : world) (f g : string) :
  report verbose (process_file verbose transform w f) g = report verbose w g.
Proof. unfold report. now rewrite process_file_exists. Qed.

Lemma fold_process_console (l : list string) (w : world) :
  console (fold_left (process_file verbose transform) l w)
  = console w ++ flat_map (report verbose w) l.
Proof.
  revert w; induction l as [|f l IH]; intros w; cbn [fold_left flat_map].
  - now rewrite app_nil_r.
  - rewrite IH, process_file_report, <- app_assoc. do 2 f_equal.
    apply flat_map_ext. intros g. apply report_process.
Qed.

End RunFrame.

Section RaisingFrame.
Variable verbose : bool.
Variable transform : str -> str.
Variable garbled : string -> bool.

Lemma raises_process (w : world) (f g : string) :
  raises garbled (process_file verbose transform w f) g = raises garbled w g.
Proof. unfold raises. now rewrite process_file_exists. Qed.

Lemma first_raising_process (w : world) (f : string) (l : list string) :
  first_raising garbled (process_file verbose transform w f) l
  = first_raising garbled w l.
Proof.
  induction l as [|g l IH]; [reflexivity|].
  cbn [first_raising]. now rewrite raises_process, IH.
Qed.

Lemma reached_process (w : world) (f : string) (l : list string) :
  reached garbled (process_file verbose transform w f) l
  = reached garbled w l.
Proof.
  induction l as [|g l IH]; [reflexivity|].
  cbn [reached]. now rewrite raises_process, IH.
Qed.

Lemma attempt_raises (w : world) (f : string) :
  attempt verbose transform garbled w f
  = if raises garbled w f
    then Raised (if verbose then print w (Processing f) else w)
    else Completed (process_file verbose transform w f).
Proof.
  unfold attempt, raises, exists_in.
  destruct (files w f); [reflexivity|]. cbn [negb andb].
  now destruct (garbled f).
Qed.

Lemma attempts_reached (l : list string) (w : world) :
  attempts verbose transform garbled l w
  = match first_raising garbled w l with
    | None => Completed (fold_left (process_file verbose transform) l w)
    | Some f =>
        let w' := fold_left (process_file verbose transform)
                    (reached garbled w l) w in
        Raised (if verbose then print w' (Processing f) else w')
    end.
Proof.
  revert w; induction l as [|f l IH]; intros w; [reflexivity|].
  cbn [attempts first_raising reached]. rewrite attempt_raises.
  destruct (raises garbled w f); [reflexivity|].
  rewrite IH, first_raising_process, reached_process. reflexivity.
Qed.

Lemma reached_all (l : list string) (w : world) :
  first_raising garbled w l = None -> reached garbled w l = l.
Proof.
  induction l as [|f l IH]; [reflexivity|]. cbn [first_raising reached].
  destruct (raises garbled w f); [discriminate|]. intros H. now rewrite IH.
Qed.

Lemma reached_in (l : list string) (w : world) (g : string) :
  existsb (String.eqb g) (reached garbled w l) = true ->
  existsb (String.eqb g) l = true.
Proof.
  induction l as [|f l IH]; [easy|]. cbn [reached existsb].
  destruct (raises garbled w f); [discriminate|]. cbn [existsb].
  destruct (String.eqb g f); [reflexivity|]. exact IH.
Qed.

Lemma reached_distinct (l : list string) (w : world) :
  distinct l = true -> distinct (reached garbled w l) = true.
Proof.
  induction l as [|f l IH]; [reflexivity|]. cbn [distinct reached].
  intros H. apply andb_true_iff in H as [Hf H].
  destruct (raises garbled w f); [reflexivity|]. cbn [distinct].
  rewrite (IH H), andb_true_r.
  destruct (existsb (String.eqb f) (reached garbled w l)) eqn:E; [|reflexivity].
  apply reached_in in E. now rewrite E in Hf.
Qed.

Lemma state_run_raising (w : world) :
  files (state (run_raising verbose transform garbled w))
  = files (fold_left (process_file verbose transform)
             (reached garbled w activity_files) w)
  /\ console (state (run_raising verbose transform garbled w))
     = console (fold_left (process_file verbose transform)
                  (reached garbled w activity_files) w)
       ++ last_words verbose (first_raising garbled w activity_files).
Proof.
  unfold run_raising. rewrite attempts_reached.
  destruct (first_raising garbled w activity_files) eqn:E.
  - cbn [state last_words]. destruct verbose.
    + split; reflexivity.
    + split; [reflexivity|]. now rewrite app_nil_r.
  - rewrite (reached_all _ _ E). cbn [state last_words].
    now rewrite files_print, console_print.
Qed.

End RaisingFrame.

(** X2.  After a run of any of the three scripts, whether it ended or was
    ended by a file it could not read, the directory holds under every name
    of the list that the loop reached the transform of the text it held
    before, applied once; the files behind the one that could not be read
    and the files whose names are not in the list are left as they were, and
    no file is created or removed.  A run that meets no such file is the run
    of the loop over the whole list. *)
Theorem run_files (verbose : bool) (transform : str -> str)
    (garbled : string -> bool) (w : world) (g : string) :
  files (state (run_raising verbose transform garbled w)) g
  = (if existsb (String.eqb g) (reached garbled w activity_files)
     then option_map transform (files w g) else files w g)
  /\ exists_in (state (run_raising verbose transform garbled w)) g
     = exists_in w g
  /\ match first_raising garbled w activity_files with
     | None => run_raising verbose transform garbled w
               = Completed (run verbose transform w)
     | Some f => exists w', run_raising verbose transform garbled w = Raised w'
     end.
Proof.
  assert (E : files (state (run_raising verbose transform garbled w)) g
              = if existsb (String.eqb g) (reached garbled w activity_files)
                then option_map transform (files w g) else files w g).
  { rewrite (proj1 (state_run_raising verbose transform garbled w)).
    apply fold_process_files. apply reached_distinct.
    vm_compute. reflexivity. }
  split; [exact E|split].
  - unfold exists_in. rewrite E.
    destruct (existsb (String.eqb g) _); [|reflexivity].
    now destruct (files w g).
  - unfold run_raising. rewrite attempts_reached.
    destruct (first_raising garbled w activity_files); [|reflexivity].
    eexists. reflexivity.
Qed.

(** X3.  What a run prints is fixed by which files of the list exist and
    which of them cannot be read.  For the names the loop reaches, in the
    order of the list, [fix_activities.py] and [fix_activities_v2.py] print
    the processing line and the fixed line for a file that exists and the
    skipping line for a file that does not, and [fix_extra_braces.py] prints
    the fixed line for a file that exists and nothing for a file that does
    not.  The closing line is printed last when no file of the list raises;
    when one does, the first two scripts have printed its processing line,
    and nothing is printed after it. *)
Theorem run_console (verbose : bool) (transform : str -> str)
    (garbled : string -> bool) (w : world) :
  console (state (run_raising verbose transform garbled w))
  = console w
      ++ flat_map (report verbose w) (reached garbled w activity_files)
      ++ last_words verbose (first_raising garbled w activity_files).
Proof.
  rewrite (proj2 (state_run_raising verbose transform garbled w)).
  now rewrite fold_process_console, <- app_assoc.
Qed.

(** ** Text in the form the second pass produces *)

(** X4.  The second pass leaves a buffer as it is when the old name and the
    closing marker of the first pass do not occur in it and every line with
    [@override] that is followed by the renamed signature has the opening
    line of the wrapper right behind the signature. *)
Theorem second_pass_keeps_wrapped (x : str) :
  isin OLD_NAME x = false ->
  isin CLOSE_MARK x = false ->
  all_wrapped (split x) = true ->
  FixActivitiesV2.transform x = x.
Proof. apply v2_canonical_unchanged. Qed.

Lemma second_pass_keeps_wrapped_witness :
  FixActivitiesV2.transform scenario_out = scenario_out.
Proof.
  apply (second_pass_keeps_wrapped scenario_out); vm_compute; reflexivity.
Defined.

(** ** The revert step of the second pass *)

Lemma revert_any_space (pre w post : str) :
  isin CLOSE_MARK pre = false ->
  isin CLOSE_MARK (CLOSE ++ post) = false ->
  forallb isspace w = true ->
  FixActivitiesV2.revert (pre ++ CLOSE_MARK ++ w ++ CLOSE ++ post)
  = pre ++ CLOSE ++ post.
Proof.
  intros pre_clean post_clean w_space.
  unfold FixActivitiesV2.revert.
  rewrite scan_app_copy.
  - f_equal.
    replace (CLOSE_MARK ++ w ++ CLOSE ++ post)
      with ((CLOSE_MARK ++ w ++ CLOSE) ++ post)
      by (now rewrite <- !app_assoc).
    rewrite (scan_at_front FixActivitiesV2.m_revert _ post CLOSE).
    + f_equal. apply scan_id. intros a u E.
      apply (v2_revert_none a). rewrite <- E.
      destruct (isin CLOSE_MARK post) eqn:F; [|reflexivity].
      now rewrite (isin_app_r _ CLOSE _ F) in post_clean.
    + discriminate.
    + unfold FixActivitiesV2.m_revert.
      rewrite <- !app_assoc, startswith_app.
      rewrite skipn_app, skipn_all, Nat.sub_diag. cbn [app skipn].
      rewrite span_space_run.
      * rewrite startswith_app. do 2 f_equal.
        rewrite !length_app. lia.
      * exact w_space.
      * apply startswith_app.
  - intros a u -> Hu. unfold FixActivitiesV2.m_revert.
    change (CLOSE_MARK ++ w ++ CLOSE ++ post)
      with (rbrace :: (MARK_TAIL ++ w ++ CLOSE ++ post)).
    pose proof (no_match_in_front rbrace MARK_TAIL [] eq_refl a u
                  (MARK_TAIL ++ w ++ CLOSE ++ post) pre_clean Hu) as E.
    rewrite app_nil_r in E. change (rbrace :: MARK_TAIL) with CLOSE_MARK in E.
    now rewrite E.
Qed.

(** X5.  The revert step of the second pass collapses the marker line
    [}); // setState] and the [});] behind it into one [});] whatever
    whitespace stands between the two, line breaks, tabs, any number of
    spaces or nothing at all; the rest of the buffer is kept. *)
Theorem revert_collapses_any_whitespace (pre w post : str) :
  isin CLOSE_MARK pre = false ->
  isin CLOSE_MARK (CLOSE ++ post) = false ->
  forallb isspace w = true ->
  FixActivitiesV2.revert (pre ++ CLOSE_MARK ++ w ++ CLOSE ++ post)
  = pre ++ CLOSE ++ post.
Proof. apply revert_any_space. Qed.

Lemma revert_collapses_any_whitespace_witness :
  FixActivitiesV2.revert
    (lit "    " ++ CLOSE_MARK ++ [13%N; nl; 9%N] ++ CLOSE ++ nl :: lit "  }")
  = lit "    " ++ CLOSE ++ nl :: lit "  }".
Proof.
  apply (revert_collapses_any_whitespace (lit "    ") [13%N; nl; 9%N]
           (nl :: lit "  }"));
    vm_compute; reflexivity.
Defined.

(** ** The signature patterns *)

Lemma span_space_stop (w r : str) :
  forallb isspace w = true -> isspace (hd 0%N r) = false ->
  span_space (w ++ r) = (w, r).
Proof.
  intros Hw Hr. induction w as [|a w IH].
  - destruct r as [|c r]; [reflexivity|].
    cbn [app span_space]. cbn [hd] in Hr. now rewrite Hr.
  - cbn [forallb] in Hw. apply andb_true_iff in Hw as [Ha Hw].
    cbn [app span_space]. now rewrite Ha, (IH Hw).
Qed.

Lemma span_space_front (u t : str) :
  snd (span_space u) <> [] ->
  span_space (u ++ t) = (fst (span_space u), snd (span_space u) ++ t).
Proof.
  induction u as [|c u IH]; [easy|]. cbn [app span_space].
  destruct (isspace c); [|intros _; reflexivity].
  destruct (span_space u) as [w0 r0]. cbn [fst snd] in *. intros H.
  now rewrite (IH H).
Qed.

Lemma last_nonspace_rest (u : str) :
  u <> [] -> isspace (last u 0%N) = false -> snd (span_space u) <> [].
Proof.
  induction u as [|c u IH]; [easy|]. intros _ H. cbn [span_space].
  destruct (isspace c) eqn:E; [|discriminate].
  destruct u as [|c' u].
  - cbn [last] in H. congruence.
  - specialize (IH ltac:(discriminate) H).
    destruct (span_space (c' :: u)). exact IH.
Qed.

Lemma last_suffix (a u : str) : u <> [] -> last (a ++ u) 0%N = last u 0%N.
Proof.
  intros H. induction a as [|c a IH]; [reflexivity|].
  cbn [app]. rewrite <- IH.
  destruct (a ++ u) eqn:E; [|reflexivity].
  apply app_eq_nil in E as [_ E]. contradiction.
Qed.

Lemma v1_signature_clean (a u : str) :
  isin OLD_DECL (a ++ u) = false -> FixActivities.m_signature u = None.
Proof.
  intros H. unfold FixActivities.m_signature.
  pose proof (span_space_app u) as E.
  destruct (span_space u) as [w r]. simpl in E. destruct w as [|c w]; [reflexivity|].
  rewrite E, app_assoc in H.
  now rewrite (isin_false_startswith OLD_DECL (OLD_SIG ++ [nl]) _ r eq_refl H).
Qed.

Lemma v2_signature_clean (a u : str) :
  isin OLD_DECL (a ++ u) = false -> FixActivitiesV2.m_signature u = None.
Proof.
  intros H. unfold FixActivitiesV2.m_signature.
  pose proof (span_space_app u) as E.
  destruct (span_space u) as [w r]. simpl in E. destruct w as [|c w]; [reflexivity|].
  rewrite E, app_assoc in H.
  now rewrite (isin_false_startswith OLD_DECL OLD_SIG _ r eq_refl H).
Qed.

Lemma v1_sub_signature_clean (x : str) :
  isin OLD_DECL x = false -> FixActivities.sub_signature x = x.
Proof. intros H. apply scan_id. intros a u ->. now apply (v1_signature_clean a). Qed.

Lemma v2_sub_signature_clean (x : str) :
  isin OLD_DECL x = false -> FixActivitiesV2.sub_signature x = x.
Proof. intros H. apply scan_id. intros a u ->. now apply (v2_signature_clean a). Qed.

Section SignatureFront.
(** The text [pre] in front of the whitespace [w] in front of a signature. *)
Variables (pre w : str).
Hypothesis pre_end : isspace (last pre 0%N) = false.
Hypothesis w_space : forallb isspace w = true.
Hypothesis w_some : w <> [].
Hypothesis no_decl : isin OLD_DECL (pre ++ w) = false.

Lemma front_some (t : str) : w ++ t <> [].
Proof. intros E. apply app_eq_nil in E as [E _]. contradiction. Qed.

Lemma no_decl_in_front (a r tail p2 : str) :
  pre = a ++ r -> r <> [] ->
  startswith (r ++ w ++ OLD_SIG ++ tail) (OLD_DECL ++ p2) = false.
Proof.
  intros E Hr. destruct (startswith _ _) eqn:S; [|reflexivity].
  apply startswith_prefix in S.
  change (OLD_SIG ++ tail) with (118%N :: (tl OLD_SIG ++ tail)) in S.
  rewrite (app_assoc r w) in S.
  apply startswith_straddle in S as [S|S].
  - rewrite E, <- app_assoc in no_decl.
    rewrite (isin_app_r _ a _ (isin_startswith _ _ S)) in no_decl.
    discriminate.
  - now apply (existsb_In 118%N (tl OLD_DECL)) in S.
  - destruct r; [contradiction|discriminate].
Qed.

Lemma front_rest (a u : str) :
  pre = a ++ u -> u <> [] ->
  snd (span_space u) <> []
  /\ pre = (a ++ fst (span_space u)) ++ snd (span_space u).
Proof.
  intros E Hu. split.
  - apply (last_nonspace_rest u Hu).
    rewrite <- (last_suffix a u Hu), <- E. exact pre_end.
  - rewrite <- app_assoc, <- span_space_app. exact E.
Qed.

Lemma v1_signature_front (a u tail : str) :
  pre = a ++ u -> u <> [] ->
  FixActivities.m_signature (u ++ w ++ OLD_SIG ++ tail) = None.
Proof.
  intros E Hu. unfold FixActivities.m_signature.
  destruct (front_rest a u E Hu) as [Hr Ep].
  rewrite (span_space_front u _ Hr).
  destruct (fst (span_space u)) as [|c w0]; [reflexivity|].
  pose proof (no_decl_in_front _ _ tail (lit " {" ++ [nl]) Ep Hr) as N.
  change (OLD_DECL ++ lit " {" ++ [nl]) with (OLD_SIG ++ [nl]) in N.
  now rewrite N.
Qed.

Lemma v2_signature_front (a u tail : str) :
  pre = a ++ u -> u <> [] ->
  FixActivitiesV2.m_signature (u ++ w ++ OLD_SIG ++ tail) = None.
Proof.
  intros E Hu. unfold FixActivitiesV2.m_signature.
  destruct (front_rest a u E Hu) as [Hr Ep].
  rewrite (span_space_front u _ Hr).
  destruct (fst (span_space u)) as [|c w0]; [reflexivity|].
  pose proof (no_decl_in_front _ _ tail (lit " {") Ep Hr) as N.
  change (OLD_DECL ++ lit " {") with OLD_SIG in N.
  now rewrite N.
Qed.

Lemma v1_signature_at (tail : str) :
  FixActivities.m_signature ((w ++ OLD_SIG ++ [nl]) ++ tail)
  = Some (w ++ OVERRIDE ++ [nl] ++ w ++ NEW_SIG ++ [nl]
            ++ w ++ lit "  " ++ SET_STATE ++ [nl],
          length (w ++ OLD_SIG ++ [nl])).
Proof.
  unfold FixActivities.m_signature.
  replace ((w ++ OLD_SIG ++ [nl]) ++ tail)
    with (w ++ (OLD_SIG ++ [nl]) ++ tail) by (now rewrite <- !app_assoc).
  rewrite (span_space_stop w ((OLD_SIG ++ [nl]) ++ tail) w_space eq_refl).
  destruct w as [|c w']; [contradiction|].
  rewrite startswith_app. do 2 f_equal.
  rewrite !length_app. cbn [length]. lia.
Qed.

Lemma v2_signature_at (tail : str) :
  FixActivitiesV2.m_signature ((w ++ OLD_SIG) ++ tail)
  = Some (w ++ OVERRIDE ++ [nl] ++ w ++ NEW_SIG, length (w ++ OLD_SIG)).
Proof.
  unfold FixActivitiesV2.m_signature. rewrite <- app_assoc.
  rewrite (span_space_stop w (OLD_SIG ++ tail) w_space eq_refl).
  destruct w as [|c w']; [contradiction|].
  rewrite startswith_app. do 2 f_equal. now rewrite !length_app.
Qed.

Lemma v1_sub_signature_at (tail : str) :
  FixActivities.sub_signature (pre ++ w ++ OLD_SIG ++ nl :: tail)
  = pre ++ w ++ OVERRIDE ++ nl :: w ++ NEW_SIG ++ nl
      :: w ++ lit "  " ++ SET_STATE ++ nl :: FixActivities.sub_signature tail.
Proof.
  unfold FixActivities.sub_signature. rewrite scan_app_copy.
  - f_equal.
    replace (w ++ OLD_SIG ++ nl :: tail)
      with ((w ++ OLD_SIG ++ [nl]) ++ tail) by (now rewrite <- !app_assoc).
    rewrite (scan_at_front _ _ tail _ (front_some _) (v1_signature_at tail)).
    now rewrite <- !app_assoc.
  - intros a u E Hu. now apply (v1_signature_front a).
Qed.

Lemma v2_sub_signature_at (tail : str) :
  FixActivitiesV2.sub_signature (pre ++ w ++ OLD_SIG ++ tail)
  = pre ++ w ++ OVERRIDE ++ nl :: w ++ NEW_SIG
      ++ FixActivitiesV2.sub_signature tail.
Proof.
  unfold FixActivitiesV2.sub_signature. rewrite scan_app_copy.
  - f_equal. rewrite (app_assoc w OLD_SIG tail).
    rewrite (scan_at_front _ _ tail _ (front_some _) (v2_signature_at tail)).
    now rewrite <- !app_assoc.
  - intros a u E Hu. now apply (v2_signature_front a).
Qed.

(** The first pass asks for the line break behind the brace. *)
Lemma v1_sub_signature_no_break (tail : str) :
  startswith tail [nl] = false ->
  FixActivities.sub_signature (pre ++ w ++ OLD_SIG ++ tail)
  = pre ++ w ++ OLD_SIG ++ FixActivities.sub_signature tail.
Proof.
  intros Ht. unfold FixActivities.sub_signature.
  rewrite scan_app_copy.
  - f_equal. rewrite scan_app_copy.
    + apply (f_equal (app w)). reflexivity.
    + intros a u E Hu. unfold FixActivities.m_signature.
      assert (Wu : forallb isspace u = true).
      { pose proof w_space as W. rewrite E, forallb_app in W.
        now apply andb_true_iff in W as [_ Wu]. }
      rewrite (span_space_stop u (OLD_SIG ++ tail) Wu eq_refl).
      destruct u as [|c u']; [contradiction|].
      rewrite startswith_same_front, Ht. reflexivity.
  - intros a u E Hu. now apply (v1_signature_front a).
Qed.

End SignatureFront.

(** X6.  The group [(\s+)] of the signature patterns takes the whole run of
    whitespace in front of [void], line breaks included, and the replacement
    repeats that run: in front of [@override] and of the renamed signature,
    and, in the first pass, in front of the opening line [setState(() {]
    indented by two more spaces.  The text in front of the run is kept and
    the rewriting goes on behind the signature. *)
Theorem signature_rewritten (pre w post : str) :
  isspace (last pre 0%N) = false ->
  forallb isspace w = true ->
  w <> [] ->
  isin OLD_DECL (pre ++ w) = false ->
  FixActivities.sub_signature (pre ++ w ++ OLD_SIG ++ nl :: post)
  = pre ++ w ++ OVERRIDE ++ nl :: w ++ NEW_SIG ++ nl
      :: w ++ lit "  " ++ SET_STATE ++ nl :: FixActivities.sub_signature post
  /\ FixActivitiesV2.sub_signature (pre ++ w ++ OLD_SIG ++ post)
     = pre ++ w ++ OVERRIDE ++ nl :: w ++ NEW_SIG
         ++ FixActivitiesV2.sub_signature post.
Proof.
  intros H1 H2 H3 H4. split.
  - now apply v1_sub_signature_at.
  - now apply v2_sub_signature_at.
Qed.

Lemma signature_rewritten_witness :
  FixActivities.sub_signature
    (lit "class A {" ++ (nl :: lit "  ") ++ OLD_SIG ++ nl :: lit "  }")
  = lit "class A {" ++ (nl :: lit "  ") ++ OVERRIDE ++ nl
      :: (nl :: lit "  ") ++ NEW_SIG ++ nl
      :: (nl :: lit "  ") ++ lit "  " ++ SET_STATE ++ nl
      :: FixActivities.sub_signature (lit "  }").
Proof.
  refine (proj1 (signature_rewritten (lit "class A {") (nl :: lit "  ")
                   (lit "  }") _ _ _ _)).
  - reflexivity.
  - reflexivity.
  - discriminate.
  - vm_compute. reflexivity.
Defined.

(** X7.  Both signature patterns ask for at least one character of whitespace
    in front of [void]: a declaration that starts the buffer is not renamed
    and its body is not wrapped, by either pass. *)
Theorem declaration_at_start_kept (post : str) :
  isin OLD_NAME post = false ->
  isin NEW_NAME post = false ->
  isin CLOSE_MARK post = false ->
  FixActivities.transform (OLD_SIG ++ post) = OLD_SIG ++ post
  /\ FixActivitiesV2.transform (OLD_SIG ++ post) = OLD_SIG ++ post.
Proof.
  intros Hold Hnew Hmark.
  assert (Hdecl : isin OLD_DECL post = false).
  { destruct (isin OLD_DECL post) eqn:D; [|reflexivity].
    now rewrite (isin_trans OLD_NAME OLD_DECL post eq_refl D) in Hold. }
  assert (Hcall : isin OLD_CALL (OLD_SIG ++ post) = false).
  { change (isin OLD_CALL (OLD_SIG ++ post)) with (isin OLD_CALL post).
    destruct (isin OLD_CALL post) eqn:C; [|reflexivity].
    now rewrite (isin_trans OLD_NAME OLD_CALL post eq_refl C) in Hold. }
  assert (Hlines : forall l, In l (split (OLD_SIG ++ post)) ->
                             isin NEW_NAME l = false).
  { intros l Hl. now apply (isin_false_line _ (OLD_SIG ++ post)). }
  split.
  - unfold FixActivities.transform.
    assert (E : FixActivities.sub_signature (OLD_SIG ++ post) = OLD_SIG ++ post).
    { change (FixActivities.sub_signature (OLD_SIG ++ post))
        with (OLD_SIG ++ FixActivities.sub_signature post).
      now rewrite v1_sub_signature_clean. }
    rewrite E, (v1_wrap_loop_id _ _ _ Hlines), join_split.
    now apply replace_id.
  - unfold FixActivitiesV2.transform.
    assert (E1 : FixActivitiesV2.revert (OLD_SIG ++ post) = OLD_SIG ++ post).
    { apply scan_id. intros a u E. apply (v2_revert_none a). now rewrite <- E. }
    assert (E2 : FixActivitiesV2.sub_signature (OLD_SIG ++ post)
                 = OLD_SIG ++ post).
    { change (FixActivitiesV2.sub_signature (OLD_SIG ++ post))
        with (OLD_SIG ++ FixActivitiesV2.sub_signature post).
      now rewrite v2_sub_signature_clean. }
    rewrite E1, E2, (v2_wrap_loop_id _ Hlines), join_split.
    now apply replace_id.
Qed.

Lemma declaration_at_start_kept_witness :
  FixActivities.transform
    (OLD_SIG ++ nl :: lit "  score = score + 1;" ++ nl :: lit "}")
  = OLD_SIG ++ nl :: lit "  score = score + 1;" ++ nl :: lit "}"
  /\ FixActivitiesV2.transform
       (OLD_SIG ++ nl :: lit "  score = score + 1;" ++ nl :: lit "}")
     = OLD_SIG ++ nl :: lit "  score = score + 1;" ++ nl :: lit "}".
Proof.
  refine (declaration_at_start_kept
            (nl :: lit "  score = score + 1;" ++ nl :: lit "}") _ _ _);
    vm_compute; reflexivity.
Defined.

(** X8.  The pattern of the first pass ends with the line break behind the
    brace: where anything else follows the brace of the signature, or the
    buffer ends there, the first pass does not rewrite the signature (the
    second pass, whose pattern ends with the brace, does). *)
Theorem first_pass_needs_line_break (pre w post : str) :
  isspace (last pre 0%N) = false ->
  forallb isspace w = true ->
  w <> [] ->
  isin OLD_DECL (pre ++ w) = false ->
  startswith post [nl] = false ->
  FixActivities.sub_signature (pre ++ w ++ OLD_SIG ++ post)
  = pre ++ w ++ OLD_SIG ++ FixActivities.sub_signature post.
Proof. intros H1 H2 H3 H4 H5. now apply v1_sub_signature_no_break. Qed.

Lemma first_pass_needs_line_break_witness :
  FixActivities.sub_signature
    (lit "class A {" ++ (nl :: lit "  ") ++ OLD_SIG ++ lit " // next")
  = lit "class A {" ++ (nl :: lit "  ") ++ OLD_SIG
      ++ FixActivities.sub_signature (lit " // next").
Proof.
  refine (first_pass_needs_line_break (lit "class A {") (nl :: lit "  ")
            (lit " // next") _ _ _ _ _).
  - reflexivity.
  - reflexivity.
  - discriminate.
  - vm_compute. reflexivity.
  - reflexivity.
Defined.

(** ** The lines the loops keep *)

Section ScanKeeps.
Context {A B : Type}.
Variable m : list A -> option (list A * nat).
Variable mu : list A -> list B.

(** [mu] is read off piece by piece, and every match gives out what [mu]
    reads off the elements it consumes. *)
Hypothesis mu_app : forall a b, mu (a ++ b) = mu a ++ mu b.
Hypothesis m_keeps :
  forall s out n, m s = Some (out, n) ->
    1 <= n /\ mu out = mu (firstn n s).

Lemma scan_keeps_upto (k : nat) (s : list A) :
  length s <= k -> mu (scan m 0 s) = mu s.
Proof.
  revert s; induction k as [|k IH]; intros [|c s] Hk; try reflexivity.
  - simpl in Hk. lia.
  - rewrite scan_unfold. destruct (m (c :: s)) as [[out n]|] eqn:E.
    + destruct (m_keeps _ _ _ E) as [Hn Ho].
      rewrite mu_app, Ho, IH.
      * destruct n as [|n]; [lia|]. cbn [pred].
        change (skipn n s) with (skipn (S n) (c :: s)).
        now rewrite <- mu_app, firstn_skipn.
      * rewrite length_skipn. simpl in Hk. lia.
    + change (c :: scan m 0 s) with ([c] ++ scan m 0 s).
      rewrite mu_app, IH by (simpl in Hk; lia).
      now rewrite <- mu_app.
Qed.

Lemma scan_keeps (s : list A) : mu (scan m 0 s) = mu s.
Proof. now apply (scan_keeps_upto (length s)). Qed.
End ScanKeeps.

Lemma lstrip_space (c : char) (l : str) :
  isspace c = true -> lstrip (c :: l) = lstrip l.
Proof.
  intros H. unfold lstrip. cbn [span_space]. rewrite H.
  now destruct (span_space l).
Qed.

Lemma lstrip_spaces (n : nat) (l : str) : lstrip (repeat sp n ++ l) = lstrip l.
Proof.
  induction n as [|n IH]; [reflexivity|]. cbn [repeat app].
  now rewrite lstrip_space.
Qed.

Section LineMeasure.
(** What [mu] reads off a list of lines is read off line by line. *)
Context {B : Type}.
Variable mu : list str -> list B.
Hypothesis mu_app : forall a b, mu (a ++ b) = mu a ++ mu b.

Lemma mu_cons (l : str) (ls : list str) : mu (l :: ls) = mu [l] ++ mu ls.
Proof. apply (mu_app [l]). Qed.

Section FirstPass.
Hypothesis mu_mark : forall n, mu [repeat sp n ++ CLOSE_MARK] = [].

Lemma v1_wrap_loop_keeps (started : bool) (d : Z) (indent : nat)
    (lines : list str) :
  mu (FixActivities.wrap_loop started d indent lines) = mu lines.
Proof.
  revert started d indent; induction lines as [|l lines IH]; intros;
    [reflexivity|].
  cbn [FixActivities.wrap_loop]. rewrite (mu_cons l lines).
  destruct (isin NEW_NAME l); [now rewrite mu_cons, IH|].
  destruct started; [|now rewrite mu_cons, IH].
  destruct (_ && _); [|now rewrite mu_cons, IH].
  now rewrite mu_cons, mu_mark, mu_cons, IH.
Qed.
End FirstPass.

Section SecondPass.
Hypothesis mu_indent : forall l, mu [lit "  " ++ l] = mu [l].
Hypothesis mu_open : forall n, mu [repeat sp n ++ SET_STATE] = [].
Hypothesis mu_close : forall n, mu [repeat sp n ++ CLOSE] = [].

Lemma v2_wrap_body_keeps (n : nat) (d : Z) (lines : list str) :
  mu (fst (FixActivitiesV2.wrap_body (repeat sp n) d lines))
  = mu (firstn (snd (FixActivitiesV2.wrap_body (repeat sp n) d lines)) lines).
Proof.
  revert d; induction lines as [|l lines IH]; intros d; [reflexivity|].
  cbn [FixActivitiesV2.wrap_body]. destruct (d >? 0)%Z; [|reflexivity].
  specialize (IH (d + (count lbrace l - count rbrace l))%Z).
  destruct (FixActivitiesV2.wrap_body (repeat sp n) _ lines) as [out k].
  cbn [fst snd] in IH.
  destruct (_ =? 0)%Z.
  - cbn [fst snd firstn].
    rewrite (mu_cons (repeat sp n ++ CLOSE)), mu_close.
    rewrite (mu_cons l out), (mu_cons l (firstn k lines)).
    now rewrite IH.
  - destruct (strip l); cbn [fst snd firstn].
    + rewrite (mu_cons l out), (mu_cons l (firstn k lines)).
      now rewrite IH.
    + rewrite (mu_cons (lit "  " ++ l)), mu_indent.
      rewrite (mu_cons l (firstn k lines)). now rewrite IH.
Qed.

Lemma v2_method_keeps (s out : list str) (n : nat) :
  FixActivitiesV2.m_method s = Some (out, n) ->
  1 <= n /\ mu out = mu (firstn n s).
Proof.
  destruct s as [|line [|sig body]]; try discriminate.
  cbn [FixActivitiesV2.m_method].
  destruct (isin OVERRIDE line && isin NEW_NAME sig); [|discriminate].
  destruct body as [|first body].
  - intros E. injection E as <- <-. split; [lia|]. cbn [firstn].
    change [line; sig; repeat sp (indent_width sig + 2) ++ SET_STATE]
      with ([line; sig] ++ [repeat sp (indent_width sig + 2) ++ SET_STATE]).
    now rewrite mu_app, mu_open, app_nil_r.
  - destruct (isin SET_STATE first).
    + pose proof (copy_wrapped_copies (first :: body)) as C.
      destruct (FixActivitiesV2.copy_wrapped (first :: body)) as [o k].
      cbn [fst snd] in C. intros E. injection E as <- <-.
      split; [lia|]. now rewrite C.
    + pose proof (v2_wrap_body_keeps (indent_width sig + 2) 1
                    (first :: body)) as W.
      destruct (FixActivitiesV2.wrap_body _ 1 (first :: body)) as [o k].
      cbn [fst snd] in W. intros E. injection E as <- <-.
      split; [lia|].
      change (2 + k) with (S (S k)). cbn [firstn].
      change (line :: sig :: (repeat sp (indent_width sig + 2) ++ SET_STATE) :: o)
        with ([line; sig]
                ++ [repeat sp (indent_width sig + 2) ++ SET_STATE] ++ o).
      change (line :: sig :: firstn k (first :: body))
        with ([line; sig] ++ firstn k (first :: body)).
      now rewrite !mu_app, mu_open, W.
Qed.

Lemma v2_wrap_loop_keeps (lines : list str) :
  mu (FixActivitiesV2.wrap_loop lines) = mu lines.
Proof. apply scan_keeps; [exact mu_app|exact v2_method_keeps]. Qed.
End SecondPass.
End LineMeasure.

Lemma unmarked_app (a b : list str) :
  unmarked (a ++ b) = unmarked a ++ unmarked b.
Proof. apply filter_app. Qed.

Lemma unmarked_mark (n : nat) : unmarked [repeat sp n ++ CLOSE_MARK] = [].
Proof. unfold unmarked. cbn [filter]. now rewrite lstrip_spaces. Qed.

Lemma unwrapped_app (a b : list str) :
  unwrapped (a ++ b) = unwrapped a ++ unwrapped b.
Proof. unfold unwrapped. now rewrite map_app, filter_app. Qed.

Lemma unwrapped_indent (l : str) : unwrapped [lit "  " ++ l] = unwrapped [l].
Proof.
  unfold unwrapped. cbn [map]. change (lit "  " ++ l) with (repeat sp 2 ++ l).
  now rewrite lstrip_spaces.
Qed.

Lemma unwrapped_open (n : nat) : unwrapped [repeat sp n ++ SET_STATE] = [].
Proof. unfold unwrapped. cbn [map]. now rewrite lstrip_spaces. Qed.

Lemma unwrapped_close (n : nat) : unwrapped [repeat sp n ++ CLOSE] = [].
Proof. unfold unwrapped. cbn [map]. now rewrite lstrip_spaces. Qed.

(** X9.  The loops keep every line of the buffer, in its place.  What the
    loop of the first pass returns is the buffer with marker lines
    [}); // setState] put in: without the marker lines it is the buffer
    without its marker lines.  The loop of the second pass puts in opening
    and closing lines of the wrapper and spaces in front of lines: without
    leading whitespace and without those two kinds of line, what it returns
    is the buffer. *)
Theorem loops_keep_lines (started : bool) (brace_count : Z) (indent : nat)
    (lines : list str) :
  unmarked (FixActivities.wrap_loop started brace_count indent lines)
  = unmarked lines
  /\ unwrapped (FixActivitiesV2.wrap_loop lines) = unwrapped lines.
Proof.
  split.
  - apply (v1_wrap_loop_keeps unmarked unmarked_app unmarked_mark).
  - apply (v2_wrap_loop_keeps unwrapped unwrapped_app unwrapped_indent
             unwrapped_open unwrapped_close).
Qed.

(** ** Patterns and lines *)

Lemma isin_nl_app (a b : str) : isin [nl] (a ++ b) = isin [nl] a || isin [nl] b.
Proof.
  induction a as [|c a IH]; [reflexivity|].
  change ((c :: a) ++ b) with (c :: (a ++ b)).
  now rewrite !isin_nl_cons, IH, orb_assoc.
Qed.

Lemma split_lines_clean (s : str) : existsb (isin [nl]) (split s) = false.
Proof.
  induction s as [|c s IH]; [reflexivity|]. cbn [split].
  destruct (c =? nl)%N eqn:E; [exact IH|].
  pose proof (split_not_nil s). destruct (split s) as [|l ls]; [contradiction|].
  cbn [existsb] in *. now rewrite isin_nl_cons, E.
Qed.

Lemma existsb_false_in {A : Type} (f : A -> bool) (l : list A) :
  existsb f l = false -> forall x, In x l -> f x = false.
Proof.
  intros H x Hx. destruct (f x) eqn:E; [|reflexivity].
  assert (T : existsb f l = true) by (apply existsb_exists; now exists x).
  congruence.
Qed.

Lemma app_cons_some {A : Type} (l : list A) (x : A) (t : list A) :
  l ++ x :: t <> [].
Proof. intros E. apply app_eq_nil in E as [_ E]. discriminate. Qed.

Lemma join_app (a b : list str) :
  a <> [] -> b <> [] -> join (a ++ b) = join a ++ nl :: join b.
Proof.
  induction a as [|l a IH]; [easy|]. intros _ Hb. destruct a as [|l' a].
  - destruct b; [contradiction|reflexivity].
  - change (join ((l :: l' :: a) ++ b)) with (l ++ nl :: join ((l' :: a) ++ b)).
    rewrite IH by (discriminate || exact Hb).
    change (join (l :: l' :: a)) with (l ++ nl :: join (l' :: a)).
    now rewrite <- app_assoc.
Qed.

Lemma join_snoc_app (a : list str) (x y : str) :
  join (a ++ [x]) ++ y = join (a ++ [x ++ y]).
Proof.
  destruct a as [|l a]; [reflexivity|].
  rewrite !join_app by discriminate. cbn [join].
  now rewrite <- app_assoc.
Qed.

(** The lines of [a ++ b]: the last line of [a] and the first line of [b]
    are one line. *)
Lemma split_app (a b : str) (ws : list str) (ind b0 : str) (bs : list str) :
  split a = ws ++ [ind] -> split b = b0 :: bs ->
  split (a ++ b) = ws ++ (ind ++ b0) :: bs.
Proof.
  intros Ea Eb.
  pose proof (split_lines_clean a) as Ca. rewrite Ea, List.existsb_app in Ca.
  apply orb_false_iff in Ca as [Cws Cind]. cbn [existsb] in Cind.
  rewrite orb_false_r in Cind.
  pose proof (split_lines_clean b) as Cb. rewrite Eb in Cb. cbn [existsb] in Cb.
  apply orb_false_iff in Cb as [Cb0 Cbs].
  assert (E : a ++ b = join (ws ++ (ind ++ b0) :: bs)).
  { rewrite <- (join_split a), <- (join_split b), Ea, Eb.
    destruct bs as [|b1 bs].
    - cbn [join]. apply join_snoc_app.
    - change (join (b0 :: b1 :: bs)) with (b0 ++ nl :: join (b1 :: bs)).
      rewrite app_assoc, join_snoc_app.
      change (ws ++ (ind ++ b0) :: b1 :: bs)
        with (ws ++ [ind ++ b0] ++ b1 :: bs).
      rewrite (app_assoc ws).
      now rewrite (join_app (ws ++ [ind ++ b0]) (b1 :: bs))
        by (apply app_cons_some || discriminate). }
  rewrite E. apply split_join.
  - apply app_cons_some.
  - rewrite List.existsb_app. cbn [existsb].
    now rewrite Cws, isin_nl_app, Cind, Cb0, Cbs.
Qed.

Lemma split_space (s : str) :
  forallb isspace s = true -> forallb (forallb isspace) (split s) = true.
Proof.
  induction s as [|c s IH]; [reflexivity|]. cbn [forallb split].
  intros H. apply andb_true_iff in H as [Hc H]. specialize (IH H).
  destruct (c =? nl)%N; [exact IH|].
  pose proof (split_not_nil s). destruct (split s) as [|l ls]; [contradiction|].
  cbn [forallb] in *. now rewrite Hc.
Qed.

(** A character that does not occur in [p] cuts the occurrences of [p]. *)
Lemma startswith_cut (c : char) (p u t : str) :
  existsb (N.eqb c) p = false ->
  startswith (u ++ c :: t) p = startswith u p.
Proof.
  revert u; induction p as [|o p IH]; intros u H.
  - now rewrite !startswith_nil.
  - cbn [existsb] in H. apply orb_false_iff in H as [Ho H].
    destruct u as [|x u]; cbn [app startswith].
    + now rewrite N.eqb_sym, Ho.
    + now rewrite (IH u H).
Qed.

Lemma isin_sep (c o : char) (p a b : str) :
  existsb (N.eqb c) (o :: p) = false ->
  isin (o :: p) (a ++ c :: b) = isin (o :: p) a || isin (o :: p) b.
Proof.
  intros H. induction a as [|x a IH].
  - cbn [app]. rewrite isin_cons.
    change (c :: b) with ([] ++ c :: b). now rewrite (startswith_cut c _ [] b H).
  - change ((x :: a) ++ c :: b) with (x :: (a ++ c :: b)).
    rewrite !isin_cons, IH.
    change (x :: a ++ c :: b) with ((x :: a) ++ c :: b).
    now rewrite (startswith_cut c _ _ b H), orb_assoc.
Qed.

Lemma isin_join_lines (o : char) (p : str) (ls : list str) :
  existsb (N.eqb nl) (o :: p) = false ->
  isin (o :: p) (join ls) = existsb (isin (o :: p)) ls.
Proof.
  intros H. induction ls as [|l ls IH]; [reflexivity|].
  destruct ls as [|l' ls].
  - cbn [join existsb]. now rewrite orb_false_r.
  - change (join (l :: l' :: ls)) with (l ++ nl :: join (l' :: ls)).
    rewrite (isin_sep nl o p _ _ H), IH. reflexivity.
Qed.

Lemma isin_space (o : char) (p l : str) :
  isspace o = false -> forallb isspace l = true -> isin (o :: p) l = false.
Proof.
  intros Ho Hl. rewrite <- (app_nil_r l).
  now rewrite (isin_skip o p l [] (forallb_space_no o l Ho Hl)).
Qed.

(** The lines of the text in front of a rewritten signature, [@override]
    included, do not hold the renamed signature. *)
Lemma front_lines_clean (front : str) (l : str) :
  isin NEW_NAME front = false ->
  In l (split (front ++ OVERRIDE)) -> isin NEW_NAME l = false.
Proof.
  intros H. apply isin_false_line.
  pose proof (isin_sep 64%N 118%N (tl NEW_NAME) front (lit "override") eq_refl)
    as E.
  change (118%N :: tl NEW_NAME) with NEW_NAME in E. rewrite H in E. exact E.
Qed.

(** ** The first pass on a method *)

Lemma v1_wrap_loop_front (P X : list str) (d : Z) (i : nat) :
  (forall l, In l P -> isin NEW_NAME l = false) ->
  FixActivities.wrap_loop false d i (P ++ X)
  = P ++ FixActivities.wrap_loop false d i X.
Proof.
  induction P as [|l P IH]; intros H; [reflexivity|].
  cbn [app FixActivities.wrap_loop]. rewrite (H l (or_introl eq_refl)).
  f_equal. apply IH. intros l' Hl'. apply H. now right.
Qed.

Lemma v1_wrap_loop_blank (ws X : list str) (i : nat) :
  forallb (forallb isspace) ws = true ->
  FixActivities.wrap_loop true 0 i (ws ++ X)
  = ws ++ FixActivities.wrap_loop true 0 i X.
Proof.
  induction ws as [|l ws IH]; intros H; [reflexivity|].
  cbn [forallb] in H. apply andb_true_iff in H as [Hl H].
  cbn [app FixActivities.wrap_loop].
  change NEW_NAME with (118%N :: tl NEW_NAME).
  rewrite (isin_space 118%N _ l eq_refl Hl).
  rewrite (count_space lbrace l eq_refl Hl), (count_space rbrace l eq_refl Hl).
  rewrite (isin_space rbrace [] l eq_refl Hl).
  cbn [Z.add Z.sub Z.opp Z.eqb andb]. f_equal. now apply IH.
Qed.

Lemma indent_width_front (ind s : str) :
  forallb isspace ind = true -> isspace (hd 0%N s) = false ->
  indent_width (ind ++ s) = length ind.
Proof.
  intros Hi Hs. unfold indent_width, lstrip.
  rewrite (span_space_stop ind s Hi Hs). cbn [snd].
  rewrite length_app. lia.
Qed.

Lemma v1_wrap_loop_method (P ws : list str) (ind : str) (body : list str)
    (closing : str) (rest : list str) :
  (forall l, In l P -> isin NEW_NAME l = false) ->
  forallb (forallb isspace) ws = true ->
  forallb isspace ind = true ->
  (forall l, In l (body ++ closing :: rest) -> isin NEW_NAME l = false) ->
  closes_at body closing 1 ->
  FixActivities.wrap_loop false 0 0
    (P ++ (ws ++ [ind ++ NEW_SIG])
       ++ (ws ++ [ind ++ lit "  " ++ SET_STATE]) ++ body ++ closing :: rest)
  = P ++ (ws ++ [ind ++ NEW_SIG])
      ++ (ws ++ [ind ++ lit "  " ++ SET_STATE])
      ++ body ++ (repeat sp (length ind + 2) ++ CLOSE_MARK) :: closing :: rest.
Proof.
  intros HP Hws Hind HL Hclose.
  assert (Hsig : isin NEW_NAME (ind ++ NEW_SIG) = true).
  { apply isin_app_r. reflexivity. }
  assert (Hopen : isin NEW_NAME (ind ++ lit "  " ++ SET_STATE) = false).
  { change NEW_NAME with (118%N :: tl NEW_NAME).
    rewrite (isin_skip 118%N _ ind _ (forallb_space_no 118%N ind eq_refl Hind)).
    reflexivity. }
  assert (Hdepth : (0 + (count lbrace (ind ++ lit "  " ++ SET_STATE)
                         - count rbrace (ind ++ lit "  " ++ SET_STATE)) = 1)%Z).
  { rewrite !count_app.
    rewrite (count_space lbrace ind eq_refl Hind),
      (count_space rbrace ind eq_refl Hind). reflexivity. }
  rewrite v1_wrap_loop_front by exact HP. f_equal.
  rewrite <- !app_assoc.
  rewrite v1_wrap_loop_front
    by (intros l Hl; change NEW_NAME with (118%N :: tl NEW_NAME);
        apply isin_space; [reflexivity|];
        rewrite forallb_forall in Hws; now apply Hws).
  f_equal. cbn [app]. rewrite (v1_step_signature _ _ _ _ _ Hsig). f_equal.
  rewrite (indent_width_front ind NEW_SIG Hind eq_refl).
  rewrite (v1_wrap_loop_blank ws _ _ Hws). f_equal.
  rewrite v1_step_inside; [|exact Hopen|rewrite Hdepth; lia].
  rewrite Hdepth. f_equal.
  rewrite v1_wrap_loop_closes.
  - do 3 f_equal. apply v1_wrap_loop_id. intros l Hl. apply HL.
    apply in_or_app. right. now right.
  - intros l Hl. apply HL. apply in_or_app. now left.
  - apply HL. apply in_or_app. right. now left.
  - exact Hclose.
Qed.

Lemma cons_some {A : Type} (x : A) (t : list A) : x :: t <> [].
Proof. discriminate. Qed.

Lemma app_some_l {A : Type} (a b : list A) : a <> [] -> a ++ b <> [].
Proof. intros H E. apply app_eq_nil in E as [E _]. contradiction. Qed.

Lemma last_line (w : str) :
  exists ws ind, split w = ws ++ [ind] /\ last (split w) [] = ind.
Proof.
  destruct (exists_last (split_not_nil w)) as (ws & ind & E).
  exists ws, ind. split; [exact E|]. rewrite E. apply last_last.
Qed.

Lemma v1_method_text (pre w : str) (body : list str)
    (closing : str) (rest : list str) :
  isspace (last pre 0%N) = false ->
  forallb isspace w = true ->
  w <> [] ->
  isin OLD_DECL (pre ++ w) = false ->
  isin NEW_NAME (pre ++ w) = false ->
  existsb (isin [nl]) (body ++ closing :: rest) = false ->
  existsb (isin OLD_DECL) (body ++ closing :: rest) = false ->
  existsb (isin NEW_NAME) (body ++ closing :: rest) = false ->
  closes_at body closing 1 ->
  FixActivities.transform
    (pre ++ w ++ OLD_SIG ++ nl :: join (body ++ closing :: rest))
  = replace OLD_CALL NEW_CALL
      (pre ++ w ++ OVERRIDE ++ nl :: w ++ NEW_SIG ++ nl
         :: w ++ lit "  " ++ SET_STATE ++ nl
         :: join (body
                    ++ (repeat sp (length (last (split w) []) + 2)
                          ++ CLOSE_MARK)
                    :: closing :: rest)).
Proof.
  intros Hend Hw Hne Hdecl Hnew Lnl Ldecl Lnew Hclose.
  unfold FixActivities.transform.
  rewrite (v1_sub_signature_at pre w Hend Hw Hne Hdecl).
  rewrite (v1_sub_signature_clean (join (body ++ closing :: rest))).
  2:{ pose proof (isin_join_lines 118%N (tl OLD_DECL)
                    (body ++ closing :: rest) eq_refl) as E.
      change (118%N :: tl OLD_DECL) with OLD_DECL in E. now rewrite E. }
  f_equal.
  destruct (last_line w) as (ws & ind & Ew & ->).
  assert (Hsp : forallb (forallb isspace) (ws ++ [ind]) = true)
    by (rewrite <- Ew; now apply split_space).
  rewrite forallb_app in Hsp. apply andb_true_iff in Hsp as [Hws Hind].
  cbn [forallb] in Hind. rewrite andb_true_r in Hind.
  assert (Esig : split (w ++ NEW_SIG) = ws ++ [ind ++ NEW_SIG])
    by (apply (split_app w NEW_SIG ws ind NEW_SIG []); [exact Ew|reflexivity]).
  assert (Eopen : split (w ++ lit "  " ++ SET_STATE)
                  = ws ++ [ind ++ lit "  " ++ SET_STATE])
    by (apply (split_app w _ ws ind (lit "  " ++ SET_STATE) []);
        [exact Ew|reflexivity]).
  replace (pre ++ w ++ OVERRIDE ++ nl :: w ++ NEW_SIG ++ nl
             :: w ++ lit "  " ++ SET_STATE ++ nl
             :: join (body ++ closing :: rest))
    with (((pre ++ w) ++ OVERRIDE) ++ nl :: (w ++ NEW_SIG) ++ nl
            :: (w ++ lit "  " ++ SET_STATE) ++ nl
            :: join (body ++ closing :: rest))
    by (now rewrite <- !app_assoc).
  rewrite !split_app_nl, Esig, Eopen.
  rewrite (split_join _ (app_cons_some body closing rest) Lnl).
  rewrite (v1_wrap_loop_method _ ws ind body closing rest
             (fun l => front_lines_clean (pre ++ w) l Hnew) Hws Hind
             (existsb_false_in _ _ Lnew) Hclose).
  rewrite <- Esig, <- Eopen.
  rewrite (join_app (split ((pre ++ w) ++ OVERRIDE)) _ (split_not_nil _)
             (app_some_l _ _ (split_not_nil _))).
  rewrite (join_app (split (w ++ NEW_SIG)) _ (split_not_nil _)
             (app_some_l _ _ (split_not_nil _))).
  rewrite (join_app (split (w ++ lit "  " ++ SET_STATE)) _ (split_not_nil _)
             (app_cons_some _ _ _)).
  rewrite !join_split. now rewrite <- !app_assoc.
Qed.

(** X10.  What the first pass makes of a method in a buffer.  The method's
    signature stands behind the whitespace [w], which follows text that
    does not end in whitespace; the line ends behind the brace; the lines
    [body] keep the depth, counted from the brace of the signature, above
    zero and the line [closing] brings it to zero; the old declaration and
    the renamed signature occur nowhere else.  Then the signature is
    renamed under [@override], the opening line of the wrapper is put
    behind it, each of the three with the whitespace [w] in front, the
    marker line is put in front of [closing], indented by two spaces more
    than the signature's own line, and the lines of the body are kept as
    they are; the call sites are replaced in the result. *)
Theorem first_pass_wraps_method (pre w : str) (body : list str)
    (closing : str) (rest : list str) :
  isspace (last pre 0%N) = false ->
  forallb isspace w = true ->
  w <> [] ->
  isin OLD_DECL (pre ++ w) = false ->
  isin NEW_NAME (pre ++ w) = false ->
  existsb (isin [nl]) (body ++ closing :: rest) = false ->
  existsb (isin OLD_DECL) (body ++ closing :: rest) = false ->
  existsb (isin NEW_NAME) (body ++ closing :: rest) = false ->
  closes_at body closing 1 ->
  FixActivities.transform
    (pre ++ w ++ OLD_SIG ++ nl :: join (body ++ closing :: rest))
  = replace OLD_CALL NEW_CALL
      (pre ++ w ++ OVERRIDE ++ nl :: w ++ NEW_SIG ++ nl
         :: w ++ lit "  " ++ SET_STATE ++ nl
         :: join (body
                    ++ (repeat sp (length (last (split w) []) + 2)
                          ++ CLOSE_MARK)
                    :: closing :: rest)).
Proof. exact (v1_method_text pre w body closing rest). Qed.

Lemma first_pass_wraps_method_witness :
  FixActivities.transform
    (lit "class A {" ++ (nl :: nl :: lit "  ") ++ OLD_SIG ++ nl
       :: join (scenario_body ++ lit "  }" :: [lit "}"]))
  = replace OLD_CALL NEW_CALL
      (lit "class A {" ++ (nl :: nl :: lit "  ") ++ OVERRIDE ++ nl
         :: (nl :: nl :: lit "  ") ++ NEW_SIG ++ nl
         :: (nl :: nl :: lit "  ") ++ lit "  " ++ SET_STATE ++ nl
         :: join (scenario_body
                    ++ (repeat sp
                          (length (last (split (nl :: nl :: lit "  ")) []) + 2)
                          ++ CLOSE_MARK)
                    :: lit "  }" :: [lit "}"])).
Proof.
  refine (first_pass_wraps_method (lit "class A {") (nl :: nl :: lit "  ")
            scenario_body (lit "  }") [lit "}"] _ _ _ _ _ _ _ _
            scenario_closes).
  - reflexivity.
  - reflexivity.
  - discriminate.
  - vm_compute. reflexivity.
  - vm_compute. reflexivity.
  - vm_compute. reflexivity.
  - vm_compute. reflexivity.
  - vm_compute. reflexivity.
Defined.

(** ** The second pass on a method behind a line break *)

Lemma located_pair_suffix (a u : list str) :
  located_pair (a ++ u) = false -> located_pair u = false.
Proof.
  induction a as [|x a IH]; [easy|]. cbn [app located_pair].
  intros H. apply orb_false_iff in H as [_ H]. now apply IH.
Qed.

Lemma v2_wrap_loop_no_pair (lines : list str) :
  located_pair lines = false -> FixActivitiesV2.wrap_loop lines = lines.
Proof.
  intros H. apply scan_id. intros a u E. rewrite E in H.
  apply located_pair_suffix in H.
  destruct u as [|line [|sig body]]; try reflexivity.
  cbn [located_pair] in H. apply orb_false_iff in H as [H _].
  cbn [FixActivitiesV2.m_method]. now rewrite H.
Qed.

Lemma located_pair_tail (X : list str) :
  (forall l, In l (tl X) -> isin NEW_NAME l = false) ->
  located_pair X = false.
Proof.
  induction X as [|x X IH]; [reflexivity|]. intros H.
  cbn [located_pair]. destruct X as [|y X]; [reflexivity|].
  rewrite (H y (or_introl eq_refl)), andb_false_r. cbn [orb].
  apply IH. intros l Hl. apply H. now right.
Qed.

Lemma located_pair_app (X : list str) (y : str) (Y : list str) :
  located_pair (X ++ y :: Y)
  = located_pair (X ++ [y]) || located_pair (y :: Y).
Proof.
  induction X as [|x X IH]; [reflexivity|].
  cbn [app located_pair]. rewrite IH.
  destruct X; cbn [app]; now rewrite orb_assoc.
Qed.

Lemma located_pair_behind_blank (P ws : list str) (sig : str)
    (ps : list str) :
  ws <> [] ->
  (forall l, In l P -> isin NEW_NAME l = false) ->
  forallb (forallb isspace) ws = true ->
  (forall l, In l ps -> isin NEW_NAME l = false) ->
  located_pair (P ++ ws ++ sig :: ps) = false.
Proof.
  intros Hne HP Hws Hps.
  destruct (exists_last Hne) as (ws0 & lw & ->).
  rewrite forallb_app in Hws. apply andb_true_iff in Hws as [Hws0 Hlw].
  cbn [forallb] in Hlw. rewrite andb_true_r in Hlw.
  replace (P ++ (ws0 ++ [lw]) ++ sig :: ps)
    with (((P ++ ws0) ++ [lw]) ++ sig :: ps) by (now rewrite <- !app_assoc).
  rewrite located_pair_app, (located_pair_tail (sig :: ps) Hps), orb_false_r.
  replace (((P ++ ws0) ++ [lw]) ++ [sig]) with ((P ++ ws0) ++ lw :: [sig])
    by (now rewrite <- !app_assoc).
  rewrite located_pair_app, located_pair_tail.
  - cbn [located_pair]. change OVERRIDE with (64%N :: tl OVERRIDE).
    now rewrite (isin_space 64%N _ lw eq_refl Hlw).
  - intros l Hl.
    assert (Hin : In l ((P ++ ws0) ++ [lw])).
    { destruct ((P ++ ws0) ++ [lw]); [contradiction|now right]. }
    apply in_app_or in Hin as [Hin|[<-|[]]].
    + apply in_app_or in Hin as [Hin|Hin]; [now apply HP|].
      change NEW_NAME with (118%N :: tl NEW_NAME).
      apply isin_space; [reflexivity|].
      rewrite forallb_forall in Hws0. now apply Hws0.
    + change NEW_NAME with (118%N :: tl NEW_NAME). now apply isin_space.
Qed.

Lemma v2_renamed_text (pre w post : str) :
  isspace (last pre 0%N) = false ->
  forallb isspace w = true ->
  isin [nl] w = true ->
  isin OLD_DECL (pre ++ w) = false ->
  isin NEW_NAME (pre ++ w) = false ->
  isin OLD_DECL post = false ->
  isin NEW_NAME post = false ->
  isin CLOSE_MARK (pre ++ w ++ OLD_SIG ++ post) = false ->
  FixActivitiesV2.transform (pre ++ w ++ OLD_SIG ++ post)
  = replace OLD_CALL NEW_CALL
      (pre ++ w ++ OVERRIDE ++ nl :: w ++ NEW_SIG ++ post).
Proof.
  intros Hend Hw Hnl Hdecl Hnew Pdecl Pnew Hmark.
  assert (Hne : w <> []) by (intros ->; discriminate).
  unfold FixActivitiesV2.transform.
  assert (E1 : FixActivitiesV2.revert (pre ++ w ++ OLD_SIG ++ post)
               = pre ++ w ++ OLD_SIG ++ post).
  { apply scan_id. intros a u E. apply (v2_revert_none a). now rewrite <- E. }
  rewrite E1, (v2_sub_signature_at pre w Hend Hw Hne Hdecl),
    (v2_sub_signature_clean post Pdecl).
  f_equal.
  destruct (last_line w) as (ws & ind & Ew & _).
  assert (Hws_ne : ws <> []).
  { intros ->. cbn [app] in Ew.
    pose proof (split_lines_clean w) as C. rewrite Ew in C.
    cbn [existsb] in C. rewrite orb_false_r in C.
    pose proof (join_split w) as J. rewrite Ew in J. cbn [join] in J.
    rewrite J in C. congruence. }
  assert (Hsp : forallb (forallb isspace) (ws ++ [ind]) = true)
    by (rewrite <- Ew; now apply split_space).
  rewrite forallb_app in Hsp. apply andb_true_iff in Hsp as [Hws _].
  destruct (split post) as [|p0 ps] eqn:Ep; [now apply split_not_nil in Ep|].
  assert (Esig : split (w ++ NEW_SIG ++ post)
                 = ws ++ (ind ++ NEW_SIG ++ p0) :: ps).
  { apply (split_app w (NEW_SIG ++ post) ws ind (NEW_SIG ++ p0) ps Ew).
    apply (split_app NEW_SIG post [] NEW_SIG p0 ps); [reflexivity|exact Ep]. }
  replace (pre ++ w ++ OVERRIDE ++ nl :: w ++ NEW_SIG ++ post)
    with (((pre ++ w) ++ OVERRIDE) ++ nl :: w ++ NEW_SIG ++ post)
    by (now rewrite <- !app_assoc).
  rewrite split_app_nl, Esig.
  rewrite v2_wrap_loop_no_pair.
  - rewrite <- Esig.
    rewrite (join_app _ _ (split_not_nil _) (split_not_nil _)).
    now rewrite !join_split.
  - apply located_pair_behind_blank.
    + exact Hws_ne.
    + intros l. now apply front_lines_clean.
    + exact Hws.
    + intros l Hl. apply (isin_false_line _ post); [exact Pnew|].
      rewrite Ep. now right.
Qed.

(** X11.  Where the whitespace in front of the signature holds a line break,
    as it does for a method that does not stand on the first line of the
    buffer, the second pass renames the method and does not wrap its body.
    The replacement repeats the whitespace, so that a line of whitespace
    comes to stand between [@override] and the renamed signature, and the
    loop looks for the signature on the line right behind [@override]: it
    copies every line.  What is returned is the buffer with the rewritten
    signature, in which the call sites are replaced; no [setState(() {] is
    put in. *)
Theorem second_pass_skips_wrapping (pre w post : str) :
  isspace (last pre 0%N) = false ->
  forallb isspace w = true ->
  isin [nl] w = true ->
  isin OLD_DECL (pre ++ w) = false ->
  isin NEW_NAME (pre ++ w) = false ->
  isin OLD_DECL post = false ->
  isin NEW_NAME post = false ->
  isin CLOSE_MARK (pre ++ w ++ OLD_SIG ++ post) = false ->
  FixActivitiesV2.transform (pre ++ w ++ OLD_SIG ++ post)
  = replace OLD_CALL NEW_CALL
      (pre ++ w ++ OVERRIDE ++ nl :: w ++ NEW_SIG ++ post).
Proof. exact (v2_renamed_text pre w post). Qed.

Lemma second_pass_skips_wrapping_witness :
  FixActivitiesV2.transform
    (lit "class A {" ++ (nl :: lit "  ") ++ OLD_SIG
       ++ nl :: lit "    score = score + 1;" ++ nl :: lit "  }" ++ nl :: lit "}")
  = replace OLD_CALL NEW_CALL
      (lit "class A {" ++ (nl :: lit "  ") ++ OVERRIDE ++ nl
         :: (nl :: lit "  ") ++ NEW_SIG
         ++ nl :: lit "    score = score + 1;" ++ nl :: lit "  }"
         ++ nl :: lit "}").
Proof.
  refine (second_pass_skips_wrapping (lit "class A {") (nl :: lit "  ")
            (nl :: lit "    score = score + 1;" ++ nl :: lit "  }"
               ++ nl :: lit "}") _ _ _ _ _ _ _ _);
    vm_compute; reflexivity.
Defined.

(** ** The second pass on a method on the line of its whitespace *)

Lemma v2_step_method (line sig : str) (body : list str) (closing : str)
    (rest : list str) :
  isin OVERRIDE line = true ->
  isin NEW_NAME sig = true ->
  isin SET_STATE (hd closing body) = false ->
  closes_at body closing 1 ->
  FixActivitiesV2.wrap_loop (line :: sig :: body ++ closing :: rest)
  = line :: sig :: (repeat sp (indent_width sig + 2) ++ SET_STATE)
      :: map indent_body body
      ++ (repeat sp (indent_width sig + 2) ++ CLOSE) :: closing
      :: FixActivitiesV2.wrap_loop rest.
Proof.
  intros Hov Hsig Hfirst Hclose.
  unfold FixActivitiesV2.wrap_loop. rewrite scan_unfold.
  assert (E : FixActivitiesV2.m_method (line :: sig :: body ++ closing :: rest)
              = Some (line :: sig
                        :: (repeat sp (indent_width sig + 2) ++ SET_STATE)
                        :: map indent_body body
                        ++ [repeat sp (indent_width sig + 2) ++ CLOSE; closing],
                      2 + S (length body))).
  { unfold FixActivitiesV2.m_method. rewrite Hov, Hsig. cbn [andb].
    pose proof (v2_wrap_body_closes (repeat sp (indent_width sig + 2)) 1
                  body closing rest Hclose) as W.
    destruct body as [|first body']; cbn [app hd] in *;
      rewrite Hfirst, W; reflexivity. }
  rewrite E.
  change (skipn (pred (2 + S (length body))) (sig :: body ++ closing :: rest))
    with (skipn (S (length body)) (body ++ closing :: rest)).
  rewrite skipn_past.
  cbn [app]. do 3 f_equal. now rewrite <- app_assoc.
Qed.

Lemma v2_method_text (pre w : str) (body : list str)
    (closing : str) (rest : list str) :
  isspace (last pre 0%N) = false ->
  forallb isspace w = true ->
  w <> [] ->
  isin [nl] w = false ->
  isin OLD_DECL (pre ++ w) = false ->
  isin NEW_NAME (pre ++ w) = false ->
  existsb (isin [nl]) (body ++ closing :: rest) = false ->
  existsb (isin OLD_DECL) (body ++ closing :: rest) = false ->
  existsb (isin NEW_NAME) rest = false ->
  isin SET_STATE (hd closing body) = false ->
  closes_at body closing 1 ->
  isin CLOSE_MARK
    (pre ++ w ++ OLD_SIG ++ nl :: join (body ++ closing :: rest)) = false ->
  FixActivitiesV2.transform
    (pre ++ w ++ OLD_SIG ++ nl :: join (body ++ closing :: rest))
  = replace OLD_CALL NEW_CALL
      (pre ++ w ++ OVERRIDE ++ nl :: w ++ NEW_SIG ++ nl
         :: join ((repeat sp (length w + 2) ++ SET_STATE)
                    :: map indent_body body
                    ++ (repeat sp (length w + 2) ++ CLOSE)
                    :: closing :: rest)).
Proof.
  intros Hend Hw Hne Hnl Hdecl Hnew Lnl Ldecl Rnew Hfirst Hclose Hmark.
  unfold FixActivitiesV2.transform.
  assert (E1 : FixActivitiesV2.revert
                 (pre ++ w ++ OLD_SIG ++ nl :: join (body ++ closing :: rest))
               = pre ++ w ++ OLD_SIG ++ nl :: join (body ++ closing :: rest)).
  { apply scan_id. intros a u E. apply (v2_revert_none a). now rewrite <- E. }
  rewrite E1, (v2_sub_signature_at pre w Hend Hw Hne Hdecl).
  rewrite (v2_sub_signature_clean (nl :: join (body ++ closing :: rest))).
  2:{ change (isin OLD_DECL (nl :: join (body ++ closing :: rest)))
        with (isin OLD_DECL (join (body ++ closing :: rest))).
      pose proof (isin_join_lines 118%N (tl OLD_DECL)
                    (body ++ closing :: rest) eq_refl) as E.
      change (118%N :: tl OLD_DECL) with OLD_DECL in E. now rewrite E. }
  f_equal.
  destruct (last_line (pre ++ w)) as (fs & fl & Ef & _).
  assert (EP : split ((pre ++ w) ++ OVERRIDE) = fs ++ [fl ++ OVERRIDE])
    by (apply (split_app _ OVERRIDE fs fl OVERRIDE []); [exact Ef|reflexivity]).
  assert (HP : forall l, In l (fs ++ [fl ++ OVERRIDE]) ->
                         isin NEW_NAME l = false).
  { intros l Hl. apply (front_lines_clean (pre ++ w) l Hnew). now rewrite EP. }
  assert (Esig : split (w ++ NEW_SIG) = [w ++ NEW_SIG]).
  { apply split_line. now rewrite isin_nl_app, Hnl. }
  replace (pre ++ w ++ OVERRIDE ++ nl :: w ++ NEW_SIG
             ++ nl :: join (body ++ closing :: rest))
    with (((pre ++ w) ++ OVERRIDE) ++ nl :: (w ++ NEW_SIG)
            ++ nl :: join (body ++ closing :: rest))
    by (now rewrite <- !app_assoc).
  rewrite !split_app_nl, Esig, EP.
  rewrite (split_join _ (app_cons_some body closing rest) Lnl).
  rewrite <- app_assoc. cbn [app].
  assert (Eloop : FixActivitiesV2.wrap_loop
                    (fs ++ (fl ++ OVERRIDE) :: (w ++ NEW_SIG)
                        :: body ++ closing :: rest)
                  = (fs ++ [fl ++ OVERRIDE])
                      ++ (w ++ NEW_SIG)
                      :: (repeat sp (length w + 2) ++ SET_STATE)
                      :: map indent_body body
                      ++ (repeat sp (length w + 2) ++ CLOSE)
                      :: closing :: rest).
  { unfold FixActivitiesV2.wrap_loop. rewrite scan_app_copy.
    - rewrite <- app_assoc. cbn [app]. f_equal.
      pose proof (v2_step_method (fl ++ OVERRIDE) (w ++ NEW_SIG) body closing
                    rest (isin_app_r OVERRIDE fl OVERRIDE eq_refl)
                    (isin_app_r NEW_NAME w NEW_SIG eq_refl)
                    Hfirst Hclose) as S.
      etransitivity; [exact S|].
      rewrite (indent_width_front w NEW_SIG Hw eq_refl). do 4 f_equal.
      do 2 f_equal. apply v2_wrap_loop_id.
      now apply existsb_false_in.
    - intros a u E Hu. destruct u as [|x [|y u]]; [contradiction| |].
      + cbn [app FixActivitiesV2.m_method].
        rewrite (HP (fl ++ OVERRIDE)), andb_false_r; [reflexivity|].
        apply in_or_app. right. now left.
      + cbn [app FixActivitiesV2.m_method].
        rewrite (HP y), andb_false_r; [reflexivity|].
        apply in_or_app. left. rewrite E. apply in_or_app. right.
        right. now left. }
  etransitivity; [apply (f_equal join); exact Eloop|].
  rewrite <- EP.
  rewrite (join_app _ _ (split_not_nil _) (cons_some _ _)).
  rewrite join_split. cbn [join]. now rewrite <- !app_assoc.
Qed.

(** X12.  What the second pass makes of a method whose signature stands on
    the line of the whitespace in front of it, as on the first line of a
    buffer.  The whitespace [w] holds no line break; the lines [body] keep
    the depth, counted from the brace of the signature, above zero and the
    line [closing] brings it to zero; the line behind the signature is not
    an opening line of the wrapper already.  Then the signature is renamed
    under [@override], the opening line of the wrapper is put behind it and
    the closing line [});] in front of [closing], both indented by two
    spaces more than the signature, every line of the body that is not
    blank is indented by two more spaces, and the lines behind the method
    are kept; the call sites are replaced in the result. *)
Theorem second_pass_wraps_method (pre w : str) (body : list str)
    (closing : str) (rest : list str) :
  isspace (last pre 0%N) = false ->
  forallb isspace w = true ->
  w <> [] ->
  isin [nl] w = false ->
  isin OLD_DECL (pre ++ w) = false ->
  isin NEW_NAME (pre ++ w) = false ->
  existsb (isin [nl]) (body ++ closing :: rest) = false ->
  existsb (isin OLD_DECL) (body ++ closing :: rest) = false ->
  existsb (isin NEW_NAME) rest = false ->
  isin SET_STATE (hd closing body) = false ->
  closes_at body closing 1 ->
  isin CLOSE_MARK
    (pre ++ w ++ OLD_SIG ++ nl :: join (body ++ closing :: rest)) = false ->
  FixActivitiesV2.transform
    (pre ++ w ++ OLD_SIG ++ nl :: join (body ++ closing :: rest))
  = replace OLD_CALL NEW_CALL
      (pre ++ w ++ OVERRIDE ++ nl :: w ++ NEW_SIG ++ nl
         :: join ((repeat sp (length w + 2) ++ SET_STATE)
                    :: map indent_body body
                    ++ (repeat sp (length w + 2) ++ CLOSE)
                    :: closing :: rest)).
Proof. exact (v2_method_text pre w body closing rest). Qed.

Lemma second_pass_wraps_method_witness :
  FixActivitiesV2.transform
    ([] ++ lit "  " ++ OLD_SIG ++ nl :: join (scenario_body ++ lit "  }" :: []))
  = replace OLD_CALL NEW_CALL
      ([] ++ lit "  " ++ OVERRIDE ++ nl :: lit "  " ++ NEW_SIG ++ nl
         :: join ((repeat sp (length (lit "  ") + 2) ++ SET_STATE)
                    :: map indent_body scenario_body
                    ++ (repeat sp (length (lit "  ") + 2) ++ CLOSE)
                    :: lit "  }" :: [])).
Proof.
  refine (second_pass_wraps_method [] (lit "  ") scenario_body (lit "  }") []
            _ _ _ _ _ _ _ _ _ _ scenario_closes _).
  - reflexivity.
  - reflexivity.
  - discriminate.
  - reflexivity.
  - reflexivity.
  - reflexivity.
  - reflexivity.
  - reflexivity.
  - reflexivity.
  - reflexivity.
  - vm_compute. reflexivity.
Defined.

(** ** The characters the scripts do not deal in *)

Lemma some_pair {A B : Type} (a c : A) (b d : B) :
  Some (a, b) = Some (c, d) -> a = c /\ b = d.
Proof. intros H. now injection H. Qed.

Lemma kept_app (a b : str) : kept (a ++ b) = kept a ++ kept b.
Proof. apply filter_app. Qed.

Lemma kept_space (w : str) : forallb isspace w = true -> kept w = [].
Proof.
  induction w as [|c w IH]; [reflexivity|]. cbn [forallb]. intros H.
  apply andb_true_iff in H as [Hc H]. unfold kept in *. cbn [filter].
  unfold foreign at 1. now rewrite Hc, (IH H).
Qed.

Lemma kept_spaces (n : nat) : kept (repeat sp n) = [].
Proof. induction n as [|n IH]; [reflexivity|exact IH]. Qed.

Lemma firstn_front {A : Type} (a b : list A) : firstn (length a) (a ++ b) = a.
Proof. induction a as [|x a IH]; [reflexivity|]. cbn [length app firstn]. now rewrite IH. Qed.

Lemma v1_signature_keeps (s out : str) (n : nat) :
  FixActivities.m_signature s = Some (out, n) ->
  1 <= n /\ kept out = kept (firstn n s).
Proof.
  unfold FixActivities.m_signature.
  pose proof (span_space_app s) as E. pose proof (span_space_forall s) as F.
  destruct (span_space s) as [w r]. cbn [fst snd] in *.
  destruct w as [|c w]; [discriminate|].
  destruct (startswith r (OLD_SIG ++ [nl])) eqn:S; [|discriminate].
  intros H. apply some_pair in H as [<- <-]. split; [cbn [length]; lia|].
  apply startswith_iff in S as [t ->]. subst s.
  replace (length (c :: w) + length OLD_SIG + 1)
    with (length ((c :: w) ++ OLD_SIG ++ [nl]))
    by (rewrite !length_app; cbn [length]; lia).
  replace ((c :: w) ++ (OLD_SIG ++ [nl]) ++ t)
    with (((c :: w) ++ OLD_SIG ++ [nl]) ++ t) by (now rewrite <- !app_assoc).
  rewrite firstn_front, !kept_app, (kept_space (c :: w) F). reflexivity.
Qed.

Lemma v2_signature_keeps (s out : str) (n : nat) :
  FixActivitiesV2.m_signature s = Some (out, n) ->
  1 <= n /\ kept out = kept (firstn n s).
Proof.
  unfold FixActivitiesV2.m_signature.
  pose proof (span_space_app s) as E. pose proof (span_space_forall s) as F.
  destruct (span_space s) as [w r]. cbn [fst snd] in *.
  destruct w as [|c w]; [discriminate|].
  destruct (startswith r OLD_SIG) eqn:S; [|discriminate].
  intros H. apply some_pair in H as [<- <-]. split; [cbn [length]; lia|].
  apply startswith_iff in S as [t ->]. subst s.
  replace (length (c :: w) + length OLD_SIG)
    with (length ((c :: w) ++ OLD_SIG)) by (now rewrite !length_app).
  rewrite (app_assoc (c :: w) OLD_SIG t).
  rewrite firstn_front, !kept_app, (kept_space (c :: w) F). reflexivity.
Qed.

Lemma v2_revert_keeps (s out : str) (n : nat) :
  FixActivitiesV2.m_revert s = Some (out, n) ->
  1 <= n /\ kept out = kept (firstn n s).
Proof.
  unfold FixActivitiesV2.m_revert.
  destruct (startswith s CLOSE_MARK) eqn:S; [|discriminate].
  apply startswith_iff in S as [t ->].
  rewrite skipn_app, skipn_all, Nat.sub_diag. cbn [app skipn].
  pose proof (span_space_app t) as E. pose proof (span_space_forall t) as F.
  destruct (span_space t) as [w r]. cbn [fst snd] in *.
  destruct (startswith r CLOSE) eqn:S2; [|discriminate].
  apply startswith_iff in S2 as [t' ->].
  intros H. apply some_pair in H as [<- <-].
  split; [change (length CLOSE_MARK) with 15; lia|]. subst t.
  replace (length CLOSE_MARK + length w + length CLOSE)
    with (length (CLOSE_MARK ++ w ++ CLOSE))
    by (rewrite !length_app; lia).
  replace (CLOSE_MARK ++ w ++ CLOSE ++ t')
    with ((CLOSE_MARK ++ w ++ CLOSE) ++ t') by (now rewrite <- !app_assoc).
  rewrite firstn_front, !kept_app, (kept_space w F). reflexivity.
Qed.

Lemma replace_keeps (old new s out : str) (n : nat) :
  old <> [] -> kept new = kept old ->
  m_replace old new s = Some (out, n) ->
  1 <= n /\ kept out = kept (firstn n s).
Proof.
  intros Hne Hk. unfold m_replace.
  destruct (startswith s old) eqn:S; [|discriminate].
  intros H. apply some_pair in H as [<- <-]. apply startswith_iff in S as [t ->].
  split; [destruct old; [contradiction|cbn [length]; lia]|].
  now rewrite firstn_front.
Qed.

Lemma kept_replace (old new s : str) :
  old <> [] -> kept new = kept old -> kept (replace old new s) = kept s.
Proof.
  intros Hne Hk. unfold replace.
  apply (scan_keeps _ kept kept_app).
  intros s' out n. now apply replace_keeps.
Qed.

Lemma kept_lines_app (a b : list str) :
  kept_lines (a ++ b) = kept_lines a ++ kept_lines b.
Proof. unfold kept_lines. now rewrite map_app, concat_app. Qed.

Lemma kept_lines_spaces (n : nat) (l : str) :
  kept_lines [repeat sp n ++ l] = kept_lines [l].
Proof.
  unfold kept_lines. cbn [map concat]. now rewrite kept_app, kept_spaces.
Qed.

Lemma kept_join (ls : list str) : kept (join ls) = kept_lines ls.
Proof.
  induction ls as [|l ls IH]; [reflexivity|]. destruct ls as [|l' ls].
  - unfold kept_lines. cbn [join map concat]. now rewrite app_nil_r.
  - change (join (l :: l' :: ls)) with (l ++ nl :: join (l' :: ls)).
    rewrite kept_app.
    change (kept (nl :: join (l' :: ls))) with (kept (join (l' :: ls))).
    now rewrite IH.
Qed.

(** X13.  None of the three scripts touches a character that is neither
    whitespace nor one of the characters its own texts are written with:
    whatever the buffer is, those characters of the buffer are the same, in
    the same order, in what the script writes back.  What a script removes
    or puts in is whitespace and text made of the characters of the
    signatures, of [@override], of the wrapper lines and of the call. *)
Theorem foreign_characters_kept (x : str) :
  kept (FixActivities.transform x) = kept x
  /\ kept (FixExtraBraces.transform x) = kept x
  /\ kept (FixActivitiesV2.transform x) = kept x.
Proof.
  split; [|split].
  - unfold FixActivities.transform.
    rewrite kept_replace by (discriminate || reflexivity).
    rewrite kept_join.
    rewrite (v1_wrap_loop_keeps kept_lines kept_lines_app
               (fun n => kept_lines_spaces n CLOSE_MARK)).
    rewrite <- kept_join, join_split.
    apply (scan_keeps _ kept kept_app v1_signature_keeps).
  - unfold FixExtraBraces.transform.
    now rewrite !kept_replace by (discriminate || reflexivity).
  - unfold FixActivitiesV2.transform.
    rewrite kept_replace by (discriminate || reflexivity).
    rewrite kept_join.
    rewrite (v2_wrap_loop_keeps kept_lines kept_lines_app
               (kept_lines_spaces 2)
               (fun n => kept_lines_spaces n SET_STATE)
               (fun n => kept_lines_spaces n CLOSE)).
    rewrite <- kept_join, join_split.
    unfold FixActivitiesV2.sub_signature.
    rewrite (scan_keeps _ kept kept_app v2_signature_keeps).
    apply (scan_keeps _ kept kept_app v2_revert_keeps).
Qed.

(** ** The braces of a wrapped method *)

Lemma count_lines_app (c : char) (a b : list str) :
  count_lines c (a ++ b) = (count_lines c a + count_lines c b)%Z.
Proof.
  induction a as [|l a IH]; [reflexivity|]. cbn [app count_lines].
  rewrite IH. lia.
Qed.

Lemma count_call_sites (c : char) (s : str) :
  count c OLD_CALL = count c NEW_CALL ->
  count c (replace OLD_CALL NEW_CALL s) = count c s.
Proof.
  intros H. rewrite count_replace by discriminate.
  rewrite H, Z.sub_diag. lia.
Qed.

Lemma count_indent_body (c : char) (body : list str) :
  isspace c = false -> count_lines c (map indent_body body) = count_lines c body.
Proof.
  intros H. induction body as [|l body IH]; [reflexivity|].
  cbn [map count_lines]. rewrite IH. f_equal.
  unfold indent_body. destruct (strip l); [reflexivity|].
  change (lit "  ") with (repeat sp 2). now rewrite count_app, count_spaces.
Qed.

Lemma count_break (c : char) (s : str) :
  isspace c = false -> count c (nl :: s) = count c s.
Proof.
  intros H. cbn [count]. destruct (N.eqb_spec nl c) as [<-|_]; [discriminate|].
  reflexivity.
Qed.

Lemma not_break (c : char) : isspace c = false -> c <> nl.
Proof. intros H ->. discriminate. Qed.

Lemma v1_method_count (c : char) (delta : Z) (pre w : str)
    (body : list str) (closing : str) (rest : list str) (k : nat) :
  isspace c = false -> forallb isspace w = true ->
  (count c OVERRIDE + count c NEW_SIG + count c SET_STATE
   + count c CLOSE_MARK - count c OLD_SIG = delta)%Z ->
  count c (pre ++ w ++ OVERRIDE ++ nl :: w ++ NEW_SIG ++ nl
             :: w ++ lit "  " ++ SET_STATE ++ nl
             :: join (body ++ (repeat sp k ++ CLOSE_MARK) :: closing :: rest))
  = (count c (pre ++ w ++ OLD_SIG ++ nl :: join (body ++ closing :: rest))
     + delta)%Z.
Proof.
  intros Hc Hw Hd. change (lit "  ") with (repeat sp 2).
  repeat (rewrite count_app || rewrite (count_break c _ Hc)).
  rewrite !(count_join c _ (not_break c Hc)), !count_lines_app.
  cbn [count_lines]. rewrite !count_app, !(count_spaces c _ Hc).
  rewrite (count_space c w Hc Hw). lia.
Qed.

Lemma v2_method_count (c : char) (delta : Z) (pre w : str)
    (body : list str) (closing : str) (rest : list str) (k : nat) :
  isspace c = false -> forallb isspace w = true ->
  (count c OVERRIDE + count c NEW_SIG + count c SET_STATE
   + count c CLOSE - count c OLD_SIG = delta)%Z ->
  count c (pre ++ w ++ OVERRIDE ++ nl :: w ++ NEW_SIG ++ nl
             :: join ((repeat sp k ++ SET_STATE)
                        :: map indent_body body
                        ++ (repeat sp k ++ CLOSE) :: closing :: rest))
  = (count c (pre ++ w ++ OLD_SIG ++ nl :: join (body ++ closing :: rest))
     + delta)%Z.
Proof.
  intros Hc Hw Hd.
  repeat (rewrite count_app || rewrite (count_break c _ Hc)).
  rewrite !(count_join c _ (not_break c Hc)). cbn [count_lines].
  rewrite !count_lines_app. cbn [count_lines].
  rewrite (count_indent_body c body Hc), !count_app, !(count_spaces c _ Hc).
  rewrite (count_space c w Hc Hw). lia.
Qed.

(** X14.  On a buffer with a method whose body closes, the passes keep the
    balance of the braces: the opening line of the wrapper brings one [{]
    and the closing line one [}], and nothing else that is put in, removed
    or replaced holds a brace.  This holds for the first pass wherever the
    method stands, and for the second pass where the signature stands on
    the line of the whitespace in front of it, which is where it wraps. *)
Theorem balance_kept_on_method (pre w : str) (body : list str)
    (closing : str) (rest : list str) :
  isspace (last pre 0%N) = false ->
  forallb isspace w = true ->
  w <> [] ->
  isin OLD_DECL (pre ++ w) = false ->
  isin NEW_NAME (pre ++ w) = false ->
  existsb (isin [nl]) (body ++ closing :: rest) = false ->
  existsb (isin OLD_DECL) (body ++ closing :: rest) = false ->
  closes_at body closing 1 ->
  (existsb (isin NEW_NAME) (body ++ closing :: rest) = false ->
   balance (FixActivities.transform
              (pre ++ w ++ OLD_SIG ++ nl :: join (body ++ closing :: rest)))
   = balance (pre ++ w ++ OLD_SIG ++ nl :: join (body ++ closing :: rest)))
  /\ (isin [nl] w = false ->
      existsb (isin NEW_NAME) rest = false ->
      isin SET_STATE (hd closing body) = false ->
      isin CLOSE_MARK
        (pre ++ w ++ OLD_SIG ++ nl :: join (body ++ closing :: rest)) = false ->
      balance (FixActivitiesV2.transform
                 (pre ++ w ++ OLD_SIG ++ nl :: join (body ++ closing :: rest)))
      = balance (pre ++ w ++ OLD_SIG ++ nl :: join (body ++ closing :: rest))).
Proof.
  intros Hend Hw Hne Hdecl Hnew Lnl Ldecl Hclose. split.
  - intros Lnew. unfold balance.
    rewrite (v1_method_text pre w body closing rest Hend Hw Hne Hdecl Hnew
               Lnl Ldecl Lnew Hclose).
    rewrite !count_call_sites by reflexivity.
    rewrite (v1_method_count lbrace 1 pre w body closing rest _ eq_refl Hw
               eq_refl).
    rewrite (v1_method_count rbrace 1 pre w body closing rest _ eq_refl Hw
               eq_refl).
    lia.
  - intros Hnl Rnew Hfirst Hmark. unfold balance.
    rewrite (v2_method_text pre w body closing rest Hend Hw Hne Hnl Hdecl Hnew
               Lnl Ldecl Rnew Hfirst Hclose Hmark).
    rewrite !count_call_sites by reflexivity.
    rewrite (v2_method_count lbrace 1 pre w body closing rest _ eq_refl Hw
               eq_refl).
    rewrite (v2_method_count rbrace 1 pre w body closing rest _ eq_refl Hw
               eq_refl).
    lia.
Qed.

Lemma balance_kept_on_method_witness :
  balance (FixActivities.transform
             ([] ++ lit "  " ++ OLD_SIG ++ nl
                :: join (scenario_body ++ lit "  }" :: [])))
  = balance ([] ++ lit "  " ++ OLD_SIG ++ nl
               :: join (scenario_body ++ lit "  }" :: []))
  /\ balance (FixActivitiesV2.transform
                ([] ++ lit "  " ++ OLD_SIG ++ nl
                   :: join (scenario_body ++ lit "  }" :: [])))
     = balance ([] ++ lit "  " ++ OLD_SIG ++ nl
                  :: join (scenario_body ++ lit "  }" :: [])).
Proof.
  assert (H : isspace (last [] 0%N) = false
              /\ forallb isspace (lit "  ") = true
              /\ lit "  " <> []
              /\ isin OLD_DECL ([] ++ lit "  ") = false
              /\ isin NEW_NAME ([] ++ lit "  ") = false
              /\ existsb (isin [nl]) (scenario_body ++ lit "  }" :: []) = false
              /\ existsb (isin OLD_DECL) (scenario_body ++ lit "  }" :: [])
                 = false).
  { repeat split; try reflexivity. discriminate. }
  destruct H as (H1 & H2 & H3 & H4 & H5 & H6 & H7).
  split.
  - apply (proj1 (balance_kept_on_method [] (lit "  ") scenario_body
                    (lit "  }") [] H1 H2 H3 H4 H5 H6 H7 scenario_closes)).
    reflexivity.
  - apply (proj2 (balance_kept_on_method [] (lit "  ") scenario_body
                    (lit "  }") [] H1 H2 H3 H4 H5 H6 H7 scenario_closes));
      vm_compute; reflexivity.
Defined.

(** ** The first pass run twice *)

Lemma depth_app (d : Z) (a b : list str) :
  depth d (a ++ b) = depth (depth d a) b.
Proof.
  revert d; induction a as [|l a IH]; intros d; [reflexivity|].
  cbn [app depth]. apply IH.
Qed.

Lemma existsb_false_all {A : Type} (f : A -> bool) (l : list A) :
  (forall x, In x l -> f x = false) -> existsb f l = false.
Proof.
  induction l as [|a l IH]; intros H; [reflexivity|]. cbn [existsb].
  rewrite (H a (or_introl eq_refl)). apply IH. intros x Hx. apply H. now right.
Qed.

Lemma spaces_space (n : nat) : forallb isspace (repeat sp n) = true.
Proof. induction n as [|n IH]; [reflexivity|exact IH]. Qed.

Lemma isin_marker (o : char) (p : str) (n : nat) :
  isspace o = false -> isin (o :: p) CLOSE_MARK = false ->
  isin (o :: p) (repeat sp n ++ CLOSE_MARK) = false.
Proof.
  intros Ho H.
  now rewrite (isin_skip o p _ _ (forallb_space_no o _ Ho (spaces_space n))).
Qed.

Lemma marker_no_break (n : nat) : isin [nl] (repeat sp n ++ CLOSE_MARK) = false.
Proof.
  rewrite isin_nl_app. induction n as [|n IH]; [reflexivity|].
  cbn [repeat]. now rewrite isin_nl_cons.
Qed.

Section MethodLines.
(** The lines of the text the first pass makes of a method: the lines up to
    [@override], the lines of the whitespace [w] up to the signature and up
    to the opening line, and the lines [L] behind it. *)
Variables (pre w : str) (ws : list str) (ind : str).
Hypothesis w_space : forallb isspace w = true.
Hypothesis w_lines : split w = ws ++ [ind].

Lemma ws_space : forallb (forallb isspace) ws = true /\ forallb isspace ind = true.
Proof.
  pose proof (split_space w w_space) as H. rewrite w_lines, forallb_app in H.
  apply andb_true_iff in H as [Hws Hind]. cbn [forallb] in Hind.
  now rewrite andb_true_r in Hind.
Qed.

Lemma signature_lines : split (w ++ NEW_SIG) = ws ++ [ind ++ NEW_SIG].
Proof. apply (split_app w NEW_SIG ws ind NEW_SIG []); [exact w_lines|reflexivity]. Qed.

Lemma opening_lines :
  split (w ++ lit "  " ++ SET_STATE) = ws ++ [ind ++ lit "  " ++ SET_STATE].
Proof.
  apply (split_app w _ ws ind (lit "  " ++ SET_STATE) []);
    [exact w_lines|reflexivity].
Qed.

Lemma method_text_join (L : list str) :
  L <> [] ->
  pre ++ w ++ OVERRIDE ++ nl :: w ++ NEW_SIG ++ nl
    :: w ++ lit "  " ++ SET_STATE ++ nl :: join L
  = join (split ((pre ++ w) ++ OVERRIDE) ++ (ws ++ [ind ++ NEW_SIG])
            ++ (ws ++ [ind ++ lit "  " ++ SET_STATE]) ++ L).
Proof.
  intros HL. rewrite <- signature_lines, <- opening_lines.
  rewrite (join_app (split ((pre ++ w) ++ OVERRIDE)) _ (split_not_nil _)
             (app_some_l _ _ (split_not_nil _))).
  rewrite (join_app (split (w ++ NEW_SIG)) _ (split_not_nil _)
             (app_some_l _ _ (split_not_nil _))).
  rewrite (join_app (split (w ++ lit "  " ++ SET_STATE)) _ (split_not_nil _) HL).
  rewrite !join_split. now rewrite <- !app_assoc.
Qed.

Lemma method_text_split (L : list str) :
  L <> [] -> existsb (isin [nl]) L = false ->
  split (pre ++ w ++ OVERRIDE ++ nl :: w ++ NEW_SIG ++ nl
           :: w ++ lit "  " ++ SET_STATE ++ nl :: join L)
  = split ((pre ++ w) ++ OVERRIDE) ++ (ws ++ [ind ++ NEW_SIG])
      ++ (ws ++ [ind ++ lit "  " ++ SET_STATE]) ++ L.
Proof.
  intros HL Hnl.
  replace (pre ++ w ++ OVERRIDE ++ nl :: w ++ NEW_SIG ++ nl
             :: w ++ lit "  " ++ SET_STATE ++ nl :: join L)
    with (((pre ++ w) ++ OVERRIDE) ++ nl :: (w ++ NEW_SIG) ++ nl
            :: (w ++ lit "  " ++ SET_STATE) ++ nl :: join L)
    by (now rewrite <- !app_assoc).
  now rewrite !split_app_nl, signature_lines, opening_lines, (split_join L HL Hnl).
Qed.

(** A pattern that occurs neither in front of the method nor in the lines
    behind the opening line, and in none of the texts put in, occurs in no
    line. *)
Lemma method_lines_clean (o : char) (p : str) (L : list str) :
  isspace o = false ->
  existsb (N.eqb 64%N) (o :: p) = false ->
  isin (o :: p) (lit "override") = false ->
  isin (o :: p) NEW_SIG = false ->
  isin (o :: p) (lit "  " ++ SET_STATE) = false ->
  isin (o :: p) (pre ++ w) = false ->
  (forall l, In l L -> isin (o :: p) l = false) ->
  forall l,
    In l (split ((pre ++ w) ++ OVERRIDE) ++ (ws ++ [ind ++ NEW_SIG])
            ++ (ws ++ [ind ++ lit "  " ++ SET_STATE]) ++ L) ->
    isin (o :: p) l = false.
Proof.
  intros Ho Hat Hov Hsig Hopen Hfront HL l Hl.
  destruct ws_space as [Hws Hind]. rewrite forallb_forall in Hws.
  apply in_app_or in Hl as [Hl|Hl].
  - apply (isin_false_line (o :: p) ((pre ++ w) ++ OVERRIDE) l); [|exact Hl].
    pose proof (isin_sep 64%N o p (pre ++ w) (lit "override") Hat) as E.
    rewrite Hfront, Hov in E. exact E.
  - apply in_app_or in Hl as [Hl|Hl].
    + apply in_app_or in Hl as [Hl|[<-|[]]].
      * apply isin_space; [exact Ho|now apply Hws].
      * now rewrite (isin_skip o p ind _ (forallb_space_no o ind Ho Hind)).
    + apply in_app_or in Hl as [Hl|Hl]; [|now apply HL].
      apply in_app_or in Hl as [Hl|[<-|[]]].
      * apply isin_space; [exact Ho|now apply Hws].
      * now rewrite (isin_skip o p ind _ (forallb_space_no o ind Ho Hind)).
Qed.

End MethodLines.

Lemma name_free (q p s : str) :
  isin q p = true -> isin q s = false -> isin p s = false.
Proof.
  intros Hq Hs. destruct (isin p s) eqn:E; [|reflexivity].
  now rewrite (isin_trans q p s Hq E) in Hs.
Qed.

Lemma marked_lines_all (f : str -> bool) (M : str) (k : nat)
    (body : list str) (closing : str) (rest : list str) :
  (forall l, In l (body ++ closing :: rest) -> f l = false) ->
  f M = false ->
  forall l, In l (body ++ repeat M k ++ closing :: rest) -> f l = false.
Proof.
  intros HL HM l Hl. apply in_app_or in Hl as [Hl|Hl].
  - apply HL. apply in_or_app. now left.
  - apply in_app_or in Hl as [Hl|Hl].
    + apply repeat_spec in Hl. now subst l.
    + apply HL. apply in_or_app. now right.
Qed.

Lemma v1_text (T : str) (lines : list str) :
  split T = lines ->
  isin OLD_DECL T = false ->
  isin OLD_CALL (join (FixActivities.wrap_loop false 0 0 lines)) = false ->
  FixActivities.transform T = join (FixActivities.wrap_loop false 0 0 lines).
Proof.
  intros Hs Hd Hc. unfold FixActivities.transform.
  rewrite (v1_sub_signature_clean T Hd), Hs. now apply replace_id.
Qed.

Lemma v1_method_twice (pre w : str) (body : list str) (closing : str)
    (rest : list str) :
  isspace (last pre 0%N) = false ->
  forallb isspace w = true ->
  w <> [] ->
  isin OLD_NAME (pre ++ w) = false ->
  isin NEW_NAME (pre ++ w) = false ->
  existsb (isin [nl]) (body ++ closing :: rest) = false ->
  existsb (isin OLD_NAME) (body ++ closing :: rest) = false ->
  existsb (isin NEW_NAME) (body ++ closing :: rest) = false ->
  closes_at body closing 1 ->
  (count lbrace closing - count rbrace closing = -1)%Z ->
  forall k, k = 1 \/ k = 2 ->
  Nat.iter k FixActivities.transform
    (pre ++ w ++ OLD_SIG ++ nl :: join (body ++ closing :: rest))
  = pre ++ w ++ OVERRIDE ++ nl :: w ++ NEW_SIG ++ nl
      :: w ++ lit "  " ++ SET_STATE ++ nl
      :: join (body
                 ++ repeat (repeat sp (length (last (split w) []) + 2)
                              ++ CLOSE_MARK) k
                 ++ closing :: rest).
Proof.
  intros Hend Hw Hne Hold Hnew Lnl Lold Lnew Hclose Hnet.
  destruct (last_line w) as (ws & ind & Ew & ->).
  destruct (ws_space w ws ind Hw Ew) as [Hws Hind].
  pose proof (existsb_false_in _ _ Lold) as Lold'.
  pose proof (existsb_false_in _ _ Lnew) as Lnew'.
  pose proof (existsb_false_in _ _ Lnl) as Lnl'.
  assert (Hdecl : isin OLD_DECL (pre ++ w) = false)
    by (apply (name_free OLD_NAME); [reflexivity|exact Hold]).
  assert (Hcall : isin OLD_CALL (pre ++ w) = false)
    by (apply (name_free OLD_NAME); [reflexivity|exact Hold]).
  assert (Ldecl : forall l, In l (body ++ closing :: rest) ->
                            isin OLD_DECL l = false).
  { intros l Hl. apply (name_free OLD_NAME); [reflexivity|now apply Lold']. }
  assert (Lcall : forall l, In l (body ++ closing :: rest) ->
                            isin OLD_CALL l = false).
  { intros l Hl. apply (name_free OLD_NAME); [reflexivity|now apply Lold']. }
  (* no pattern occurs in the text with [k] marker lines *)
  assert (Clean : forall (o : char) (p : str) (k : nat),
             isspace o = false ->
             existsb (N.eqb 64%N) (o :: p) = false ->
             existsb (N.eqb nl) (o :: p) = false ->
             isin (o :: p) (lit "override") = false ->
             isin (o :: p) NEW_SIG = false ->
             isin (o :: p) (lit "  " ++ SET_STATE) = false ->
             isin (o :: p) CLOSE_MARK = false ->
             isin (o :: p) (pre ++ w) = false ->
             (forall l, In l (body ++ closing :: rest) ->
                        isin (o :: p) l = false) ->
             isin (o :: p)
               (pre ++ w ++ OVERRIDE ++ nl :: w ++ NEW_SIG ++ nl
                  :: w ++ lit "  " ++ SET_STATE ++ nl
                  :: join (body
                             ++ repeat (repeat sp (length ind + 2)
                                          ++ CLOSE_MARK) k
                             ++ closing :: rest)) = false).
  { intros o p k Ho Hat Hbr Hov Hsig Hopen Hmark Hfront HL.
    rewrite (method_text_join pre w ws ind Ew)
      by (rewrite app_assoc; apply app_cons_some).
    rewrite (isin_join_lines o p _ Hbr). apply existsb_false_all.
    apply (method_lines_clean pre w ws ind Hw Ew o p _ Ho Hat Hov Hsig Hopen
             Hfront).
    apply marked_lines_all; [exact HL|now apply isin_marker]. }
  assert (One : FixActivities.transform
                  (pre ++ w ++ OLD_SIG ++ nl :: join (body ++ closing :: rest))
                = pre ++ w ++ OVERRIDE ++ nl :: w ++ NEW_SIG ++ nl
                    :: w ++ lit "  " ++ SET_STATE ++ nl
                    :: join (body
                               ++ repeat (repeat sp (length ind + 2)
                                            ++ CLOSE_MARK) 1
                               ++ closing :: rest)).
  { rewrite (v1_method_text pre w body closing rest Hend Hw Hne Hdecl Hnew
               Lnl (existsb_false_all _ _ Ldecl) Lnew Hclose).
    rewrite Ew, last_last. apply replace_id.
    apply (Clean 95%N (tl OLD_CALL) 1); try reflexivity; assumption. }
  intros k [->| ->]; [exact One|].
  change (Nat.iter 2 FixActivities.transform ?x)
    with (FixActivities.transform (FixActivities.transform x)).
  rewrite One.
  assert (Hm_new : isin NEW_NAME (repeat sp (length ind + 2) ++ CLOSE_MARK)
                   = false)
    by (apply (isin_marker 118%N (tl NEW_NAME)); reflexivity).
  assert (Hm_net : (count lbrace (repeat sp (length ind + 2) ++ CLOSE_MARK)
                    - count rbrace (repeat sp (length ind + 2) ++ CLOSE_MARK)
                    = -1)%Z).
  { rewrite !count_app, !count_spaces by reflexivity. reflexivity. }
  assert (Hclose' : closes_at body (repeat sp (length ind + 2) ++ CLOSE_MARK) 1).
  { destruct Hclose as [Hpos Hzero]. split; [exact Hpos|].
    rewrite depth_app in *. cbn [depth] in *. lia. }
  rewrite (v1_text _ (split ((pre ++ w) ++ OVERRIDE) ++ (ws ++ [ind ++ NEW_SIG])
                        ++ (ws ++ [ind ++ lit "  " ++ SET_STATE])
                        ++ body
                        ++ repeat (repeat sp (length ind + 2) ++ CLOSE_MARK) 1
                        ++ closing :: rest)).
  - cbn [repeat app].
    rewrite (v1_wrap_loop_method _ ws ind body _ (closing :: rest)
               (fun l => front_lines_clean (pre ++ w) l Hnew) Hws Hind).
    + rewrite <- (method_text_join pre w ws ind Ew) by apply app_cons_some.
      reflexivity.
    + apply (marked_lines_all (isin NEW_NAME) _ 1 body closing rest Lnew' Hm_new).
    + exact Hclose'.
  - apply (method_text_split pre w ws ind Ew).
    + rewrite app_assoc. apply app_cons_some.
    + apply existsb_false_all.
      apply (marked_lines_all (isin [nl]) _ 1 body closing rest Lnl').
      apply marker_no_break.
  - apply (Clean 118%N (tl OLD_DECL) 1); try reflexivity; assumption.
  - cbn [repeat app].
    rewrite (v1_wrap_loop_method _ ws ind body _ (closing :: rest)
               (fun l => front_lines_clean (pre ++ w) l Hnew) Hws Hind).
    + rewrite <- (method_text_join pre w ws ind Ew) by apply app_cons_some.
      apply (Clean 95%N (tl OLD_CALL) 2); try reflexivity; assumption.
    + apply (marked_lines_all (isin NEW_NAME) _ 1 body closing rest Lnew' Hm_new).
    + exact Hclose'.
Qed.

(** X15.  The first pass run on its own result stacks a second marker line.
    On a buffer with a method as the first pass wraps it, whose closing line
    closes one brace more than it opens and in which the old name occurs
    in the signature only, the second run finds the renamed signature,
    reaches depth zero on the marker line [}); // setState] of the first
    run and puts another marker line in front of it: the result of two runs
    is the result of one run with the marker line doubled, and differs from
    it. *)
Theorem first_pass_twice_stacks_marker (pre w : str) (body : list str)
    (closing : str) (rest : list str) :
  isspace (last pre 0%N) = false ->
  forallb isspace w = true ->
  w <> [] ->
  isin OLD_NAME (pre ++ w) = false ->
  isin NEW_NAME (pre ++ w) = false ->
  existsb (isin [nl]) (body ++ closing :: rest) = false ->
  existsb (isin OLD_NAME) (body ++ closing :: rest) = false ->
  existsb (isin NEW_NAME) (body ++ closing :: rest) = false ->
  closes_at body closing 1 ->
  (count lbrace closing - count rbrace closing = -1)%Z ->
  FixActivities.transform
    (FixActivities.transform
       (pre ++ w ++ OLD_SIG ++ nl :: join (body ++ closing :: rest)))
  = pre ++ w ++ OVERRIDE ++ nl :: w ++ NEW_SIG ++ nl
      :: w ++ lit "  " ++ SET_STATE ++ nl
      :: join (body
                 ++ (repeat sp (length (last (split w) []) + 2) ++ CLOSE_MARK)
                 :: (repeat sp (length (last (split w) []) + 2) ++ CLOSE_MARK)
                 :: closing :: rest)
  /\ FixActivities.transform
       (FixActivities.transform
          (pre ++ w ++ OLD_SIG ++ nl :: join (body ++ closing :: rest)))
     <> FixActivities.transform
          (pre ++ w ++ OLD_SIG ++ nl :: join (body ++ closing :: rest)).
Proof.
  intros Hend Hw Hne Hold Hnew Lnl Lold Lnew Hclose Hnet.
  pose proof (v1_method_twice pre w body closing rest Hend Hw Hne Hold Hnew
                Lnl Lold Lnew Hclose Hnet) as T.
  pose proof (T 1 (or_introl eq_refl)) as T1.
  pose proof (T 2 (or_intror eq_refl)) as T2.
  cbn [Nat.iter nat_rect] in T1, T2. rewrite T2, T1.
  split; [reflexivity|]. intros E.
  apply (f_equal (count rbrace)) in E.
  repeat (rewrite count_app in E || rewrite (count_break rbrace _ eq_refl) in E).
  rewrite !(count_join rbrace _ (not_break rbrace eq_refl)) in E.
  rewrite !count_lines_app in E. cbn [repeat app count_lines] in E.
  rewrite !count_app, !count_spaces in E by reflexivity.
  change (count rbrace CLOSE_MARK) with 1%Z in E. lia.
Qed.

Lemma first_pass_twice_stacks_marker_witness :
  FixActivities.transform
    (FixActivities.transform
       (lit "class A {" ++ (nl :: lit "  ") ++ OLD_SIG ++ nl
          :: join (scenario_body ++ lit "  }" :: [lit "}"])))
  <> FixActivities.transform
       (lit "class A {" ++ (nl :: lit "  ") ++ OLD_SIG ++ nl
          :: join (scenario_body ++ lit "  }" :: [lit "}"])).
Proof.
  refine (proj2 (first_pass_twice_stacks_marker (lit "class A {")
                   (nl :: lit "  ") scenario_body (lit "  }") [lit "}"]
                   _ _ _ _ _ _ _ _ scenario_closes _)).
  - reflexivity.
  - reflexivity.
  - discriminate.
  - vm_compute. reflexivity.
  - vm_compute. reflexivity.
  - vm_compute. reflexivity.
  - vm_compute. reflexivity.
  - vm_compute. reflexivity.
  - vm_compute. reflexivity.
Defined.

(** ** The second pass run twice *)

Lemma renamed_no_pair (pre w post : str) :
  forallb isspace w = true ->
  isin [nl] w = true ->
  isin NEW_NAME (pre ++ w) = false ->
  isin NEW_NAME post = false ->
  located_pair (split (pre ++ w ++ OVERRIDE ++ nl :: w ++ NEW_SIG ++ post))
  = false.
Proof.
  intros Hw Hnl Hnew Pnew.
  destruct (last_line w) as (ws & ind & Ew & _).
  assert (Hws_ne : ws <> []).
  { intros ->. cbn [app] in Ew.
    pose proof (split_lines_clean w) as C. rewrite Ew in C.
    cbn [existsb] in C. rewrite orb_false_r in C.
    pose proof (join_split w) as J. rewrite Ew in J. cbn [join] in J.
    rewrite J in C. congruence. }
  destruct (ws_space w ws ind Hw Ew) as [Hws _].
  destruct (split post) as [|p0 ps] eqn:Ep; [now apply split_not_nil in Ep|].
  assert (Esig : split (w ++ NEW_SIG ++ post)
                 = ws ++ (ind ++ NEW_SIG ++ p0) :: ps).
  { apply (split_app w (NEW_SIG ++ post) ws ind (NEW_SIG ++ p0) ps Ew).
    apply (split_app NEW_SIG post [] NEW_SIG p0 ps); [reflexivity|exact Ep]. }
  replace (pre ++ w ++ OVERRIDE ++ nl :: w ++ NEW_SIG ++ post)
    with (((pre ++ w) ++ OVERRIDE) ++ nl :: w ++ NEW_SIG ++ post)
    by (now rewrite <- !app_assoc).
  rewrite split_app_nl, Esig.
  apply located_pair_behind_blank.
  - exact Hws_ne.
  - intros l. now apply front_lines_clean.
  - exact Hws.
  - intros l Hl. apply (isin_false_line _ post); [exact Pnew|].
    rewrite Ep. now right.
Qed.

Lemma renamed_clean (o : char) (p pre w post : str) :
  isspace o = false ->
  forallb isspace w = true ->
  existsb (N.eqb 64%N) (o :: p) = false ->
  existsb (N.eqb nl) (o :: p) = false ->
  isin (o :: p) (lit "override") = false ->
  isin (o :: p) (pre ++ w) = false ->
  isin (o :: p) (NEW_SIG ++ post) = false ->
  isin (o :: p) (pre ++ w ++ OVERRIDE ++ nl :: w ++ NEW_SIG ++ post) = false.
Proof.
  intros Ho Hw Hat Hbr Hov Hfront Hpost.
  replace (pre ++ w ++ OVERRIDE ++ nl :: w ++ NEW_SIG ++ post)
    with ((pre ++ w) ++ 64%N :: lit "override" ++ nl :: w ++ NEW_SIG ++ post)
    by (now rewrite <- !app_assoc).
  rewrite (isin_sep 64%N o p _ _ Hat), Hfront.
  rewrite (isin_sep nl o p _ _ Hbr), Hov.
  now rewrite (isin_skip o p w _ (forallb_space_no o w Ho Hw)).
Qed.

(** X16.  Where it renames without wrapping, the second pass is idempotent.
    On a buffer with one declaration behind whitespace that holds a line
    break, in which the old name occurs in the signature only and the
    renamed signature and the marker do not occur, the second run finds
    nothing to do: what two runs return is what one run returns, the buffer
    with the signature renamed under [@override] and the body as it was. *)
Theorem second_pass_twice_renamed (pre w post : str) :
  isspace (last pre 0%N) = false ->
  forallb isspace w = true ->
  isin [nl] w = true ->
  isin OLD_NAME (pre ++ w) = false ->
  isin NEW_NAME (pre ++ w) = false ->
  isin CLOSE_MARK (pre ++ w) = false ->
  isin OLD_NAME post = false ->
  isin NEW_NAME post = false ->
  isin CLOSE_MARK post = false ->
  FixActivitiesV2.transform (pre ++ w ++ OLD_SIG ++ post)
  = pre ++ w ++ OVERRIDE ++ nl :: w ++ NEW_SIG ++ post
  /\ FixActivitiesV2.transform
       (FixActivitiesV2.transform (pre ++ w ++ OLD_SIG ++ post))
     = FixActivitiesV2.transform (pre ++ w ++ OLD_SIG ++ post).
Proof.
  intros Hend Hw Hnl Hold Hnew Hmark Pold Pnew Pmark.
  assert (Hdecl : isin OLD_DECL (pre ++ w) = false)
    by (apply (name_free OLD_NAME); [reflexivity|exact Hold]).
  assert (Pdecl : isin OLD_DECL post = false)
    by (apply (name_free OLD_NAME); [reflexivity|exact Pold]).
  assert (Cmark : isin CLOSE_MARK
                    (pre ++ w ++ OVERRIDE ++ nl :: w ++ NEW_SIG ++ post) = false).
  { apply (renamed_clean rbrace (tl CLOSE_MARK)); try reflexivity;
      assumption. }
  assert (Ccall : isin OLD_CALL
                    (pre ++ w ++ OVERRIDE ++ nl :: w ++ NEW_SIG ++ post) = false).
  { apply (renamed_clean 95%N (tl OLD_CALL)); try reflexivity;
      try assumption.
    - apply (name_free OLD_NAME); [reflexivity|exact Hold].
    - change (isin (95%N :: tl OLD_CALL) (NEW_SIG ++ post))
        with (isin OLD_CALL post).
      apply (name_free OLD_NAME); [reflexivity|exact Pold]. }
  assert (Cdecl : isin OLD_DECL
                    (pre ++ w ++ OVERRIDE ++ nl :: w ++ NEW_SIG ++ post) = false).
  { apply (renamed_clean 118%N (tl OLD_DECL)); try reflexivity;
      assumption. }
  assert (One : FixActivitiesV2.transform (pre ++ w ++ OLD_SIG ++ post)
                = pre ++ w ++ OVERRIDE ++ nl :: w ++ NEW_SIG ++ post).
  { rewrite (v2_renamed_text pre w post Hend Hw Hnl Hdecl Hnew Pdecl Pnew).
    - now apply replace_id.
    - pose proof (isin_sep 118%N rbrace (tl CLOSE_MARK) (pre ++ w)
                    (tl OLD_SIG ++ post) eq_refl) as E.
      change (rbrace :: tl CLOSE_MARK) with CLOSE_MARK in E.
      change (isin CLOSE_MARK (tl OLD_SIG ++ post))
        with (isin CLOSE_MARK post) in E.
      rewrite Hmark, Pmark, <- app_assoc in E. exact E. }
  split; [exact One|]. rewrite One.
  unfold FixActivitiesV2.transform.
  assert (E1 : FixActivitiesV2.revert
                 (pre ++ w ++ OVERRIDE ++ nl :: w ++ NEW_SIG ++ post)
               = pre ++ w ++ OVERRIDE ++ nl :: w ++ NEW_SIG ++ post).
  { apply scan_id. intros a u E. apply (v2_revert_none a). now rewrite <- E. }
  rewrite E1, (v2_sub_signature_clean _ Cdecl).
  rewrite (v2_wrap_loop_no_pair _ (renamed_no_pair pre w post Hw Hnl Hnew Pnew)).
  rewrite join_split. now apply replace_id.
Qed.

Lemma second_pass_twice_renamed_witness :
  FixActivitiesV2.transform
    (FixActivitiesV2.transform
       (lit "class A {" ++ (nl :: lit "  ") ++ OLD_SIG
          ++ nl :: lit "    score = score + 1;" ++ nl :: lit "  }"
          ++ nl :: lit "}"))
  = FixActivitiesV2.transform
      (lit "class A {" ++ (nl :: lit "  ") ++ OLD_SIG
         ++ nl :: lit "    score = score + 1;" ++ nl :: lit "  }"
         ++ nl :: lit "}").
Proof.
  refine (proj2 (second_pass_twice_renamed (lit "class A {") (nl :: lit "  ")
                   (nl :: lit "    score = score + 1;" ++ nl :: lit "  }"
                      ++ nl :: lit "}") _ _ _ _ _ _ _ _ _));
    vm_compute; reflexivity.
Defined.

Lemma isin_spaces (o : char) (p : str) (n : nat) (s : str) :
  isspace o = false ->
  isin (o :: p) (repeat sp n ++ s) = isin (o :: p) s.
Proof.
  intros Ho.
  apply (isin_skip o p _ _ (forallb_space_no o _ Ho (spaces_space n))).
Qed.

Lemma isin_indent_body (o : char) (p l : str) :
  isspace o = false -> isin (o :: p) (indent_body l) = isin (o :: p) l.
Proof.
  intros Ho. unfold indent_body. destruct (strip l); [reflexivity|].
  change (lit "  ") with (repeat sp 2). now apply isin_spaces.
Qed.

Lemma spaces_no_break (n : nat) (s : str) :
  isin [nl] (repeat sp n ++ s) = isin [nl] s.
Proof.
  induction n as [|n IH]; [reflexivity|]. cbn [repeat app].
  now rewrite isin_nl_cons.
Qed.

Lemma indent_body_no_break (l : str) : isin [nl] (indent_body l) = isin [nl] l.
Proof.
  unfold indent_body. destruct (strip l); [reflexivity|].
  change (lit "  ") with (repeat sp 2). apply spaces_no_break.
Qed.

(** The lines of a wrapped body hold a pattern that is not in the wrapper
    lines only where the lines of the body hold it. *)
Lemma wrapped_lines_all (f : str -> bool) (n : nat) (body : list str)
    (closing : str) (rest : list str) :
  (forall l, f (indent_body l) = f l) ->
  f (repeat sp n ++ SET_STATE) = false ->
  f (repeat sp n ++ CLOSE) = false ->
  (forall l, In l (body ++ closing :: rest) -> f l = false) ->
  forall l,
    In l ((repeat sp n ++ SET_STATE) :: map indent_body body
            ++ (repeat sp n ++ CLOSE) :: closing :: rest) ->
    f l = false.
Proof.
  intros Hind Hopen Hclose HL l [<-|Hl]; [exact Hopen|].
  apply in_app_or in Hl as [Hl|[<-|Hl]].
  - apply in_map_iff in Hl as (l0 & <- & Hl0). rewrite Hind.
    apply HL. apply in_or_app. now left.
  - exact Hclose.
  - apply HL. apply in_or_app. now right.
Qed.

Lemma all_wrapped_cons (x y : str) (X : list str) :
  all_wrapped (x :: y :: X)
  = (if isin OVERRIDE x && isin NEW_NAME y
     then match X with first :: _ => isin SET_STATE first | [] => false end
     else true) && all_wrapped (y :: X).
Proof. reflexivity. Qed.

Lemma all_wrapped_tail (X : list str) :
  (forall l, In l (tl X) -> isin NEW_NAME l = false) -> all_wrapped X = true.
Proof.
  induction X as [|x X IH]; [reflexivity|]. intros H.
  destruct X as [|y X]; [reflexivity|].
  rewrite all_wrapped_cons, (H y (or_introl eq_refl)), andb_false_r.
  apply IH. intros l Hl. apply H. now right.
Qed.

Lemma all_wrapped_method (fs : list str) (lo sig opener : str)
    (Y : list str) :
  (forall l, In l (fs ++ [lo]) -> isin NEW_NAME l = false) ->
  isin SET_STATE opener = true ->
  (forall l, In l (opener :: Y) -> isin NEW_NAME l = false) ->
  all_wrapped (fs ++ lo :: sig :: opener :: Y) = true.
Proof.
  intros Hfs Hopen HY. induction fs as [|x fs IH].
  - cbn [app]. rewrite all_wrapped_cons, Hopen.
    rewrite (all_wrapped_tail (sig :: opener :: Y)) by exact HY.
    now destruct (isin OVERRIDE lo && isin NEW_NAME sig).
  - assert (IH' : all_wrapped (fs ++ lo :: sig :: opener :: Y) = true)
      by (apply IH; intros l Hl; apply Hfs; now right).
    destruct fs as [|y fs]; cbn [app] in *.
    + rewrite all_wrapped_cons, IH'.
      rewrite (Hfs lo), andb_false_r; [reflexivity|]. right. now left.
    + rewrite all_wrapped_cons, IH'.
      rewrite (Hfs y), andb_false_r; [reflexivity|]. right. now left.
Qed.

Lemma wrapped_clean (o : char) (p pre w : str) (n : nat) (body : list str)
    (closing : str) (rest : list str) :
  isspace o = false ->
  forallb isspace w = true ->
  existsb (N.eqb 64%N) (o :: p) = false ->
  existsb (N.eqb nl) (o :: p) = false ->
  isin (o :: p) (lit "override") = false ->
  isin (o :: p) NEW_SIG = false ->
  isin (o :: p) SET_STATE = false ->
  isin (o :: p) CLOSE = false ->
  isin (o :: p) (pre ++ w) = false ->
  (forall l, In l (body ++ closing :: rest) -> isin (o :: p) l = false) ->
  isin (o :: p)
    (pre ++ w ++ OVERRIDE ++ nl :: w ++ NEW_SIG ++ nl
       :: join ((repeat sp n ++ SET_STATE) :: map indent_body body
                  ++ (repeat sp n ++ CLOSE) :: closing :: rest)) = false.
Proof.
  intros Ho Hw Hat Hbr Hov Hsig Hopen Hclose Hfront HL.
  replace (pre ++ w ++ OVERRIDE ++ nl :: w ++ NEW_SIG ++ nl
             :: join ((repeat sp n ++ SET_STATE) :: map indent_body body
                        ++ (repeat sp n ++ CLOSE) :: closing :: rest))
    with ((pre ++ w) ++ 64%N :: lit "override" ++ nl :: (w ++ NEW_SIG) ++ nl
            :: join ((repeat sp n ++ SET_STATE) :: map indent_body body
                       ++ (repeat sp n ++ CLOSE) :: closing :: rest))
    by (now rewrite <- !app_assoc).
  rewrite (isin_sep 64%N o p _ _ Hat), Hfront.
  rewrite (isin_sep nl o p _ _ Hbr), Hov.
  rewrite (isin_sep nl o p _ _ Hbr).
  rewrite (isin_skip o p w _ (forallb_space_no o w Ho Hw)), Hsig.
  rewrite (isin_join_lines o p _ Hbr). cbn [orb].
  apply existsb_false_all. apply wrapped_lines_all.
  - intros l. now apply isin_indent_body.
  - now rewrite isin_spaces.
  - now rewrite isin_spaces.
  - exact HL.
Qed.

Lemma v2_method_twice (pre w : str) (body : list str)
    (closing : str) (rest : list str) :
  isspace (last pre 0%N) = false ->
  forallb isspace w = true ->
  w <> [] ->
  isin [nl] w = false ->
  isin OLD_NAME (pre ++ w) = false ->
  isin NEW_NAME (pre ++ w) = false ->
  isin CLOSE_MARK (pre ++ w) = false ->
  existsb (isin [nl]) (body ++ closing :: rest) = false ->
  existsb (isin OLD_NAME) (body ++ closing :: rest) = false ->
  existsb (isin NEW_NAME) (body ++ closing :: rest) = false ->
  existsb (isin CLOSE_MARK) (body ++ closing :: rest) = false ->
  isin SET_STATE (hd closing body) = false ->
  closes_at body closing 1 ->
  FixActivitiesV2.transform
    (pre ++ w ++ OLD_SIG ++ nl :: join (body ++ closing :: rest))
  = pre ++ w ++ OVERRIDE ++ nl :: w ++ NEW_SIG ++ nl
      :: join ((repeat sp (length w + 2) ++ SET_STATE)
                 :: map indent_body body
                 ++ (repeat sp (length w + 2) ++ CLOSE) :: closing :: rest)
  /\ FixActivitiesV2.transform
       (FixActivitiesV2.transform
          (pre ++ w ++ OLD_SIG ++ nl :: join (body ++ closing :: rest)))
     = FixActivitiesV2.transform
         (pre ++ w ++ OLD_SIG ++ nl :: join (body ++ closing :: rest)).
Proof.
  intros Hend Hw Hne Hnl Hold Hnew Hmark Lnl Lold Lnew Lmark Hfirst Hclose.
  pose proof (existsb_false_in _ _ Lold) as Lold'.
  pose proof (existsb_false_in _ _ Lnew) as Lnew'.
  pose proof (existsb_false_in _ _ Lnl) as Lnl'.
  pose proof (existsb_false_in _ _ Lmark) as Lmark'.
  assert (Hdecl : isin OLD_DECL (pre ++ w) = false)
    by (apply (name_free OLD_NAME); [reflexivity|exact Hold]).
  assert (Hcall : isin OLD_CALL (pre ++ w) = false)
    by (apply (name_free OLD_NAME); [reflexivity|exact Hold]).
  assert (Ldecl : existsb (isin OLD_DECL) (body ++ closing :: rest) = false).
  { apply existsb_false_all. intros l Hl.
    apply (name_free OLD_NAME); [reflexivity|now apply Lold']. }
  assert (Lcall : forall l, In l (body ++ closing :: rest) ->
                            isin OLD_CALL l = false).
  { intros l Hl. apply (name_free OLD_NAME); [reflexivity|now apply Lold']. }
  assert (Rnew : existsb (isin NEW_NAME) rest = false).
  { apply existsb_false_all. intros l Hl. apply Lnew'.
    apply in_or_app. right. now right. }
  assert (Xmark : isin CLOSE_MARK
                    (pre ++ w ++ OLD_SIG ++ nl :: join (body ++ closing :: rest))
                  = false).
  { pose proof (isin_sep 118%N rbrace (tl CLOSE_MARK) (pre ++ w)
                  (tl OLD_SIG ++ nl :: join (body ++ closing :: rest))
                  eq_refl) as E.
    change (rbrace :: tl CLOSE_MARK) with CLOSE_MARK in E.
    change (isin CLOSE_MARK
              (tl OLD_SIG ++ nl :: join (body ++ closing :: rest)))
      with (isin CLOSE_MARK (join (body ++ closing :: rest))) in E.
    pose proof (isin_join_lines rbrace (tl CLOSE_MARK)
                  (body ++ closing :: rest) eq_refl) as J.
    change (rbrace :: tl CLOSE_MARK) with CLOSE_MARK in J.
    rewrite Hmark, J, Lmark, <- app_assoc in E. exact E. }
  assert (One : FixActivitiesV2.transform
                  (pre ++ w ++ OLD_SIG ++ nl :: join (body ++ closing :: rest))
                = pre ++ w ++ OVERRIDE ++ nl :: w ++ NEW_SIG ++ nl
                    :: join ((repeat sp (length w + 2) ++ SET_STATE)
                               :: map indent_body body
                               ++ (repeat sp (length w + 2) ++ CLOSE)
                               :: closing :: rest)).
  { rewrite (v2_method_text pre w body closing rest Hend Hw Hne Hnl Hdecl Hnew
               Lnl Ldecl Rnew Hfirst Hclose Xmark).
    apply replace_id.
    apply (wrapped_clean 95%N (tl OLD_CALL)); try reflexivity; assumption. }
  split; [exact One|]. rewrite One.
  apply v2_canonical_unchanged.
  - apply (wrapped_clean 95%N (tl OLD_NAME)); try reflexivity; assumption.
  - apply (wrapped_clean rbrace (tl CLOSE_MARK)); try reflexivity; assumption.
  - destruct (last_line (pre ++ w)) as (fs & fl & Ef & _).
    assert (EP : split ((pre ++ w) ++ OVERRIDE) = fs ++ [fl ++ OVERRIDE])
      by (apply (split_app _ OVERRIDE fs fl OVERRIDE []);
          [exact Ef|reflexivity]).
    assert (Esig : split (w ++ NEW_SIG) = [w ++ NEW_SIG]).
    { apply split_line. now rewrite isin_nl_app, Hnl. }
    replace (pre ++ w ++ OVERRIDE ++ nl :: w ++ NEW_SIG ++ nl
               :: join ((repeat sp (length w + 2) ++ SET_STATE)
                          :: map indent_body body
                          ++ (repeat sp (length w + 2) ++ CLOSE)
                          :: closing :: rest))
      with (((pre ++ w) ++ OVERRIDE) ++ nl :: (w ++ NEW_SIG) ++ nl
              :: join ((repeat sp (length w + 2) ++ SET_STATE)
                         :: map indent_body body
                         ++ (repeat sp (length w + 2) ++ CLOSE)
                         :: closing :: rest))
      by (now rewrite <- !app_assoc).
    rewrite !split_app_nl, Esig, EP, split_join.
    + rewrite <- app_assoc. cbn [app]. apply all_wrapped_method.
      * intros l Hl. apply (front_lines_clean (pre ++ w) l Hnew).
        now rewrite EP.
      * apply isin_app_r. reflexivity.
      * change NEW_NAME with (118%N :: tl NEW_NAME).
        apply wrapped_lines_all.
        -- intros l. now apply isin_indent_body.
        -- now rewrite isin_spaces.
        -- now rewrite isin_spaces.
        -- exact Lnew'.
    + apply cons_some.
    + apply existsb_false_all. apply wrapped_lines_all.
      * apply indent_body_no_break.
      * now rewrite spaces_no_break.
      * now rewrite spaces_no_break.
      * exact Lnl'.
Qed.

(** X17.  Where it wraps, the second pass is idempotent.  On a buffer with
    one method whose signature stands on the line of the whitespace in
    front of it and whose body closes, in which the old name occurs in the
    signature only and the renamed signature and the marker do not occur,
    a second run finds the opening line of the wrapper behind the signature
    and copies the method: what two runs return is what one run returns,
    the method renamed and wrapped once. *)
Theorem second_pass_twice_wrapped (pre w : str) (body : list str)
    (closing : str) (rest : list str) :
  isspace (last pre 0%N) = false ->
  forallb isspace w = true ->
  w <> [] ->
  isin [nl] w = false ->
  isin OLD_NAME (pre ++ w) = false ->
  isin NEW_NAME (pre ++ w) = false ->
  isin CLOSE_MARK (pre ++ w) = false ->
  existsb (isin [nl]) (body ++ closing :: rest) = false ->
  existsb (isin OLD_NAME) (body ++ closing :: rest) = false ->
  existsb (isin NEW_NAME) (body ++ closing :: rest) = false ->
  existsb (isin CLOSE_MARK) (body ++ closing :: rest) = false ->
  isin SET_STATE (hd closing body) = false ->
  closes_at body closing 1 ->
  FixActivitiesV2.transform
    (pre ++ w ++ OLD_SIG ++ nl :: join (body ++ closing :: rest))
  = pre ++ w ++ OVERRIDE ++ nl :: w ++ NEW_SIG ++ nl
      :: join ((repeat sp (length w + 2) ++ SET_STATE)
                 :: map indent_body body
                 ++ (repeat sp (length w + 2) ++ CLOSE) :: closing :: rest)
  /\ FixActivitiesV2.transform
       (FixActivitiesV2.transform
          (pre ++ w ++ OLD_SIG ++ nl :: join (body ++ closing :: rest)))
     = FixActivitiesV2.transform
         (pre ++ w ++ OLD_SIG ++ nl :: join (body ++ closing :: rest)).
Proof.
  intros Hend Hw Hne Hnl Hold Hnew Hmark Lnl Lold Lnew Lmark Hfirst Hclose.
  now apply v2_method_twice.
Qed.

Lemma second_pass_twice_wrapped_witness :
  FixActivitiesV2.transform
    (FixActivitiesV2.transform
       ([] ++ lit "  " ++ OLD_SIG ++ nl
          :: join (scenario_body ++ lit "  }" :: [])))
  = FixActivitiesV2.transform
      ([] ++ lit "  " ++ OLD_SIG ++ nl
         :: join (scenario_body ++ lit "  }" :: [])).
Proof.
  refine (proj2 (second_pass_twice_wrapped [] (lit "  ") scenario_body
                   (lit "  }") [] _ _ _ _ _ _ _ _ _ _ _ _ scenario_closes)).
  - reflexivity.
  - reflexivity.
  - discriminate.
  - reflexivity.
  - reflexivity.
  - reflexivity.
  - reflexivity.
  - reflexivity.
  - reflexivity.
  - reflexivity.
  - reflexivity.
  - reflexivity.
Defined.

(** ** The second pass at a located method *)




Lemma copy_wrapped_all (body : list str) :
  no_closing_brace body = true ->
  FixActivitiesV2.copy_wrapped body = (body, S (length body)).
Proof.
  intros Hb. induction body as [|l body IH]; [reflexivity|].
  cbn [no_closing_brace forallb] in Hb. apply andb_true_iff in Hb as [Hl Hb].
  apply negb_true_iff in Hl.
  cbn [FixActivitiesV2.copy_wrapped]. rewrite Hl, (IH Hb). reflexivity.
Qed.






Lemma never_closes_block_end (d : Z) (body : list str) :
  never_closes body d -> block_end d body = None.
Proof.
  revert d; induction body as [|l body IH]; intros d H; [reflexivity|].
  apply never_closes_cons in H as (Hd & Hl & H).
  cbn [block_end].
  destruct (Z.eqb_spec (d + (count lbrace l - count rbrace l)) 0); [lia|].
  now rewrite (IH _ H).
Qed.

(** ** The first pass behind a signature *)



(** ** The scenario behind any indentation *)








Section ScenarioAt.
Variable w : str.
Hypothesis w_space : forallb isspace w = true.
Hypothesis w_some : w <> [].
Hypothesis w_line : isin [nl] w = false.

Let body : list str := [w ++ lit "  score = score + 1;"].
Let closing : str := w ++ lit "}".










End ScenarioAt.

(** ** The braces of a method after one run and after two *)




(** ** A pass that puts the front of what it finds

    The repair pass and the revert step replace a text that starts with
    [});] by [});].  Such a pass can bring a text it looks for into being
    only where what it found was followed by the rest of a marker. *)

Lemma startswith_trans (s p q : str) :
  startswith s p = true -> startswith p q = true -> startswith s q = true.
Proof.
  intros H1 H2. apply startswith_iff in H1 as [x ->].
  apply startswith_iff in H2 as [y ->]. rewrite <- app_assoc.
  apply startswith_app.
Qed.

Lemma startswith_firstn (n : nat) (s : str) : startswith s (firstn n s) = true.
Proof. apply startswith_iff. exists (skipn n s). now rewrite firstn_skipn. Qed.

Lemma isin_skipn (p : str) (k : nat) (s : str) :
  isin p s = false -> isin p (skipn k s) = false.
Proof.
  intros H. destruct (isin p (skipn k s)) eqn:E; [|reflexivity].
  rewrite <- (firstn_skipn k s), (isin_app_r _ _ _ E) in H. discriminate.
Qed.

Lemma heads_free (o : char) (core q : str) :
  existsb (N.eqb o) q = false -> heads_within o core q = true.
Proof.
  induction q as [|c q IH]; [reflexivity|]. cbn [existsb heads_within].
  intros H. apply orb_false_iff in H as [Hc H]. rewrite (IH H), andb_true_r.
  rewrite N.eqb_sym, Hc. reflexivity.
Qed.

Lemma heads_behind (o : char) (core a b : str) :
  existsb (N.eqb o) a = false ->
  heads_within o core (a ++ b) = heads_within o core b.
Proof.
  induction a as [|c a IH]; [reflexivity|]. cbn [existsb app heads_within].
  intros H. apply orb_false_iff in H as [Hc H]. rewrite (IH H).
  rewrite N.eqb_sym, Hc. reflexivity.
Qed.

Section PutsFront.
Variables (o : char) (new' t : str) (m : str -> option (str * nat)).

Hypothesis o_new : existsb (N.eqb o) new' = false.
Hypothesis o_t : existsb (N.eqb o) t = false.
Hypothesis m_core :
  forall u out n, m u = Some (out, n) ->
    out = o :: new' /\ 1 <= n /\ startswith u ((o :: new') ++ t) = true.
Hypothesis m_region :
  forall u out n u', m u = Some (out, n) ->
    startswith u' (firstn n u) = true -> m u' <> None.
Hypothesis m_heads :
  forall u out n, m u = Some (out, n) ->
    heads_within o ((o :: new') ++ t) (tl (firstn n u)) = true.

Lemma scan_prefix_kept (q s : str) :
  heads_within o ((o :: new') ++ t) q = true ->
  startswith (scan m 0 s) q = true -> startswith s q = true.
Proof.
  revert s; induction q as [|a q IH]; intros s Hq H; [apply startswith_nil|].
  cbn [heads_within] in Hq. apply andb_true_iff in Hq as [Ha Hq].
  destruct s as [|c s]; [discriminate H|].
  rewrite scan_unfold in H. destruct (m (c :: s)) as [[out n]|] eqn:E.
  - destruct (m_core _ _ _ E) as (-> & Hn & Hc).
    cbn [app startswith] in H. apply andb_true_iff in H as [Eo _].
    rewrite Eo in Ha. cbn [negb orb] in Ha.
    exact (startswith_trans _ _ _ Hc Ha).
  - cbn [startswith] in *. apply andb_true_iff in H as [Ec H].
    rewrite Ec. cbn [andb]. now apply IH.
Qed.

Lemma m_nil : m [] = None.
Proof.
  destruct (m []) as [[out n]|] eqn:E; [|reflexivity].
  now destruct (m_core _ _ _ E) as (_ & _ & H).
Qed.

Lemma unfollowed_skipn (c : char) (s : str) (k : nat) :
  (forall a u out n, c :: s = a ++ u -> m u = Some (out, n) ->
                     startswith (skipn n u) t = false) ->
  forall a u out n, skipn k s = a ++ u -> m u = Some (out, n) ->
                    startswith (skipn n u) t = false.
Proof.
  intros H a u out n E. apply (H (c :: firstn k s ++ a)).
  cbn [app]. now rewrite <- app_assoc, <- E, firstn_skipn.
Qed.

Lemma scan_clears_upto (k : nat) (s : str) :
  length s <= k ->
  (forall a u out n, s = a ++ u -> m u = Some (out, n) ->
                     startswith (skipn n u) t = false) ->
  forall a u, scan m 0 s = a ++ u -> m u = None.
Proof.
  revert s; induction k as [|k IH]; intros [|c s] Hk H a u Hz.
  - cbn [scan] in Hz. symmetry in Hz. apply app_eq_nil in Hz as [_ ->].
    apply m_nil.
  - simpl in Hk. lia.
  - cbn [scan] in Hz. symmetry in Hz. apply app_eq_nil in Hz as [_ ->].
    apply m_nil.
  - rewrite scan_unfold in Hz.
    destruct (m (c :: s)) as [[out n]|] eqn:E.
    + destruct (m_core _ _ _ E) as (-> & Hn & Hc).
      pose proof (H [] (c :: s) _ n eq_refl E) as Hf.
      destruct n as [|n]; [lia|]. cbn [skipn] in Hf. cbn [pred] in *.
      assert (R : forall a' u', scan m 0 (skipn (pred (S n)) s) = a' ++ u' ->
                                m u' = None).
      { apply IH.
        - rewrite length_skipn. simpl in Hk. lia.
        - now apply (unfollowed_skipn c). }
      apply app_eq_app in Hz as [l [[Ea Eu]|[Ea Eu]]].
      * destruct a as [|a0 a].
        -- cbn [app] in Ea. subst l u.
           destruct (m ((o :: new') ++ scan m 0 (skipn n s)))
             as [[out2 n2]|] eqn:E2; [|reflexivity].
           destruct (m_core _ _ _ E2) as (_ & _ & Hc2).
           rewrite startswith_same_front in Hc2.
           apply scan_prefix_kept in Hc2; [|now apply heads_free].
           congruence.
        -- cbn [app] in Ea. injection Ea as -> Ea.
           destruct l as [|l0 l].
           ++ cbn [app] in Eu. subst u. now apply (R []).
           ++ subst u. destruct (m ((l0 :: l) ++ _)) as [[out2 n2]|] eqn:E2;
                [|reflexivity].
              destruct (m_core _ _ _ E2) as (_ & _ & Hc2).
              cbn [app startswith] in Hc2.
              apply andb_true_iff in Hc2 as [Hc2 _].
              rewrite Ea, existsb_app in o_new. cbn [existsb] in o_new.
              rewrite Hc2, orb_true_r in o_new. discriminate.
      * now apply (R l).
    + destruct a as [|a0 a].
      * cbn [app] in Hz. subst u.
        destruct (m (c :: scan m 0 s)) as [[out2 n2]|] eqn:E2; [|reflexivity].
        destruct (m_core _ _ _ E2) as (_ & Hn2 & _).
        pose proof (m_heads _ _ _ E2) as Hh.
        destruct n2 as [|n2]; [lia|]. cbn [firstn tl] in Hh.
        pose proof (scan_prefix_kept _ s Hh (startswith_firstn n2 _)) as P.
        exfalso. apply (m_region _ _ _ (c :: s) E2); [|exact E].
        cbn [firstn startswith]. now rewrite N.eqb_refl.
      * cbn [app] in Hz. injection Hz as _ Hz.
        refine (IH s _ _ a u Hz); [simpl in Hk; lia|].
        intros a' u' out n E'. apply (H (c :: a')). cbn [app]. now rewrite E'.
Qed.

Lemma scan_creates_none_upto (Q2 : str) (k : nat) (s : str) :
  startswith Q2 t = true ->
  heads_within o ((o :: new') ++ t) (new' ++ Q2) = true ->
  length s <= k ->
  isin ((o :: new') ++ Q2) s = false ->
  (forall a u out n, s = a ++ u -> m u = Some (out, n) ->
                     startswith (skipn n u) t = false) ->
  isin ((o :: new') ++ Q2) (scan m 0 s) = false.
Proof.
  intros Ht Hh. revert s; induction k as [|k IH]; intros [|c s] Hk HQ H;
    try exact HQ.
  - simpl in Hk. lia.
  - rewrite isin_cons in HQ. apply orb_false_iff in HQ as [Hs Hs'].
    rewrite scan_unfold. destruct (m (c :: s)) as [[out n]|] eqn:E.
    + destruct (m_core _ _ _ E) as (-> & Hn & Hc).
      pose proof (H [] (c :: s) _ n eq_refl E) as Hf.
      destruct n as [|n]; [lia|]. cbn [skipn] in Hf. cbn [pred].
      change ((o :: new') ++ scan m 0 (skipn n s))
        with (o :: (new' ++ scan m 0 (skipn n s))).
      rewrite isin_cons.
      change (isin ((o :: new') ++ Q2) (new' ++ scan m 0 (skipn n s)))
        with (isin (o :: (new' ++ Q2)) (new' ++ scan m 0 (skipn n s))).
      rewrite (isin_skip o _ new' _ o_new).
      change (o :: (new' ++ Q2)) with ((o :: new') ++ Q2).
      rewrite IH.
      * rewrite orb_false_r.
        change (o :: new' ++ scan m 0 (skipn n s))
          with ((o :: new') ++ scan m 0 (skipn n s)).
        rewrite startswith_same_front.
        destruct (startswith (scan m 0 (skipn n s)) Q2) eqn:F;
          [|reflexivity].
        pose proof (startswith_trans _ _ _ F Ht) as F'.
        apply scan_prefix_kept in F'; [|now apply heads_free].
        congruence.
      * rewrite length_skipn. simpl in Hk. lia.
      * now apply isin_skipn.
      * now apply (unfollowed_skipn c).
    + rewrite isin_cons, IH.
      * rewrite orb_false_r.
        destruct (startswith (c :: scan m 0 s) ((o :: new') ++ Q2)) eqn:F;
          [|reflexivity].
        cbn [app startswith] in F. apply andb_true_iff in F as [Fo F].
        apply scan_prefix_kept in F; [|exact Hh].
        cbn [app startswith] in Hs. now rewrite Fo, F in Hs.
      * simpl in Hk. lia.
      * exact Hs'.
      * intros a' u' out n E'. apply (H (c :: a')). cbn [app]. now rewrite E'.
Qed.

End PutsFront.

(** ** The repair pass on a buffer without stacked marker lines *)

Section RepairDup.
Variable n : nat.

Lemma dup_length : length (DUP n) = 19 + n.
Proof.
  unfold DUP. rewrite length_app. cbn [length]. rewrite length_app, repeat_length.
  change (length CLOSE_MARK) with 15. change (length CLOSE) with 3. lia.
Qed.

Lemma dup_matches (u out : str) (k : nat) :
  m_replace (DUP n) CLOSE u = Some (out, k) ->
  out = CLOSE /\ k = length (DUP n) /\ startswith u (DUP n) = true.
Proof.
  unfold m_replace. destruct (startswith u (DUP n)) eqn:S; [|discriminate].
  intros E. apply some_pair in E as [<- <-]. now repeat split.
Qed.

Lemma dup_core (u out : str) (k : nat) :
  m_replace (DUP n) CLOSE u = Some (out, k) ->
  out = rbrace :: [41%N; 59%N] /\ 1 <= k
  /\ startswith u ((rbrace :: [41%N; 59%N]) ++ MARK_NOTE) = true.
Proof.
  intros E. apply dup_matches in E as (-> & -> & S). split; [reflexivity|].
  split; [rewrite dup_length; lia|].
  apply (startswith_prefix u CLOSE_MARK (nl :: repeat sp n ++ CLOSE)).
  exact S.
Qed.

Lemma dup_region (u out : str) (k : nat) (u' : str) :
  m_replace (DUP n) CLOSE u = Some (out, k) ->
  startswith u' (firstn k u) = true -> m_replace (DUP n) CLOSE u' <> None.
Proof.
  intros E. apply dup_matches in E as (-> & -> & S).
  apply startswith_inv in S. rewrite S, firstn_app, Nat.sub_diag, firstn_all.
  cbn [firstn]. rewrite app_nil_r. intros S'. unfold m_replace.
  now rewrite S'.
Qed.

Lemma dup_heads (u out : str) (k : nat) :
  m_replace (DUP n) CLOSE u = Some (out, k) ->
  heads_within rbrace ((rbrace :: [41%N; 59%N]) ++ MARK_NOTE)
    (tl (firstn k u)) = true.
Proof.
  intros E. apply dup_matches in E as (-> & -> & S).
  apply startswith_inv in S. rewrite S, firstn_app, Nat.sub_diag, firstn_all.
  cbn [firstn]. rewrite app_nil_r.
  change (tl (DUP n)) with (MARK_TAIL ++ nl :: repeat sp n ++ CLOSE).
  replace (MARK_TAIL ++ nl :: repeat sp n ++ CLOSE)
    with ((MARK_TAIL ++ nl :: repeat sp n) ++ CLOSE)
    by (now rewrite <- app_assoc).
  rewrite heads_behind; [reflexivity|].
  rewrite existsb_app. cbn [existsb].
  now rewrite (forallb_space_no rbrace _ eq_refl (spaces_space n)).
Qed.

Lemma stacked_dup : STACKED n = DUP n ++ MARK_NOTE.
Proof.
  unfold STACKED, DUP. now rewrite <- app_assoc, <- app_comm_cons, <- app_assoc.
Qed.

Lemma dup_unfollowed (s : str) :
  isin (STACKED n) s = false ->
  forall a u out k, s = a ++ u -> m_replace (DUP n) CLOSE u = Some (out, k) ->
                    startswith (skipn k u) MARK_NOTE = false.
Proof.
  intros H a u out k -> E. apply dup_matches in E as (-> & -> & S).
  destruct (startswith (skipn (length (DUP n)) u) MARK_NOTE) eqn:F;
    [|reflexivity].
  apply startswith_inv in S. apply startswith_iff in F as [r F].
  rewrite F, app_assoc, <- stacked_dup in S.
  rewrite S in H. rewrite isin_app_r in H; [discriminate|].
  apply isin_startswith, startswith_app.
Qed.

Lemma dup_cleared (s : str) :
  isin (STACKED n) s = false ->
  isin (DUP n) (replace (DUP n) CLOSE s) = false.
Proof.
  intros H. destruct (isin (DUP n) (replace (DUP n) CLOSE s)) eqn:E;
    [|reflexivity].
  apply isin_iff in E as (a & b & E).
  pose proof (scan_clears_upto rbrace [41%N; 59%N] MARK_NOTE
                (m_replace (DUP n) CLOSE) eq_refl eq_refl
                dup_core dup_region dup_heads (length s) s (le_n _)
                (dup_unfollowed s H) a (DUP n ++ b) E) as C.
  unfold m_replace in C. now rewrite startswith_app in C.
Qed.

Lemma pattern_not_created (Q2 s : str) :
  startswith Q2 MARK_NOTE = true ->
  heads_within rbrace CLOSE_MARK ([41%N; 59%N] ++ Q2) = true ->
  isin (CLOSE ++ Q2) s = false ->
  isin (STACKED n) s = false ->
  isin (CLOSE ++ Q2) (replace (DUP n) CLOSE s) = false.
Proof.
  intros Ht Hh HQ H.
  apply (scan_creates_none_upto rbrace [41%N; 59%N] MARK_NOTE
           (m_replace (DUP n) CLOSE) eq_refl eq_refl
           dup_core Q2 (length s) s Ht Hh (le_n _) HQ
           (dup_unfollowed s H)).
Qed.

End RepairDup.

Lemma repair_clears (x : str) :
  isin (STACKED 4) x = false ->
  isin (STACKED 2) x = false ->
  isin FixExtraBraces.DUP4 (FixExtraBraces.transform x) = false
  /\ isin FixExtraBraces.DUP2 (FixExtraBraces.transform x) = false
  /\ FixExtraBraces.transform (FixExtraBraces.transform x)
     = FixExtraBraces.transform x.
Proof.
  intros S4 S2. unfold FixExtraBraces.transform.
  change FixExtraBraces.DUP4 with (DUP 4).
  change FixExtraBraces.DUP2 with (DUP 2).
  pose proof (dup_cleared 4 x S4) as A.
  assert (C : isin (STACKED 2) (replace (DUP 4) CLOSE x) = false).
  { apply (pattern_not_created 4
             (MARK_NOTE ++ nl :: repeat sp 2 ++ CLOSE_MARK) x);
      try reflexivity; assumption. }
  pose proof (dup_cleared 2 _ C) as D.
  assert (E : isin (DUP 4) (replace (DUP 2) CLOSE (replace (DUP 4) CLOSE x))
              = false).
  { apply (pattern_not_created 2
             (MARK_NOTE ++ nl :: repeat sp 4 ++ CLOSE)
             (replace (DUP 4) CLOSE x));
      try reflexivity; assumption. }
  split; [exact E|split; [exact D|]].
  rewrite (replace_id (DUP 4) CLOSE _ E). now apply replace_id.
Qed.

(** ** The revert step on a buffer without stacked markers *)

Lemma revert_matches (w rest : str) :
  forallb isspace w = true ->
  FixActivitiesV2.m_revert (CLOSE_MARK ++ w ++ CLOSE ++ rest)
  = Some (CLOSE, length CLOSE_MARK + length w + length CLOSE).
Proof.
  intros Hw. unfold FixActivitiesV2.m_revert.
  rewrite startswith_app, skipn_app, skipn_all, Nat.sub_diag.
  cbn [app skipn]. rewrite span_space_run;
    [|exact Hw|apply startswith_app].
  now rewrite startswith_app.
Qed.

Lemma revert_match (u out : str) (k : nat) :
  FixActivitiesV2.m_revert u = Some (out, k) ->
  exists w rest,
    forallb isspace w = true
    /\ u = CLOSE_MARK ++ w ++ CLOSE ++ rest
    /\ out = CLOSE
    /\ k = length CLOSE_MARK + length w + length CLOSE.
Proof.
  unfold FixActivitiesV2.m_revert.
  destruct (startswith u CLOSE_MARK) eqn:S; [|discriminate].
  pose proof (span_space_app (skipn (length CLOSE_MARK) u)) as A.
  pose proof (span_space_forall (skipn (length CLOSE_MARK) u)) as F.
  destruct (span_space (skipn (length CLOSE_MARK) u)) as [w r].
  cbn [fst snd] in A, F.
  destruct (startswith r CLOSE) eqn:R; [|discriminate].
  intros E. apply some_pair in E as [<- <-].
  apply startswith_inv in S. apply startswith_inv in R.
  exists w, (skipn (length CLOSE) r). repeat split; [exact F|].
  rewrite S at 1. f_equal. rewrite A. f_equal. exact R.
Qed.

Lemma revert_core (u out : str) (k : nat) :
  FixActivitiesV2.m_revert u = Some (out, k) ->
  out = rbrace :: [41%N; 59%N] /\ 1 <= k
  /\ startswith u ((rbrace :: [41%N; 59%N]) ++ MARK_NOTE) = true.
Proof.
  intros E. apply revert_match in E as (w & rest & Hw & -> & -> & ->).
  split; [reflexivity|]. split.
  - change (length CLOSE_MARK) with 15. lia.
  - apply (startswith_app CLOSE_MARK).
Qed.

Lemma revert_front (w rest : str) :
  firstn (length CLOSE_MARK + length w + length CLOSE)
    (CLOSE_MARK ++ w ++ CLOSE ++ rest)
  = CLOSE_MARK ++ w ++ CLOSE.
Proof.
  replace (CLOSE_MARK ++ w ++ CLOSE ++ rest)
    with ((CLOSE_MARK ++ w ++ CLOSE) ++ rest)
    by (now rewrite <- !app_assoc).
  rewrite firstn_app.
  replace (length CLOSE_MARK + length w + length CLOSE)
    with (length (CLOSE_MARK ++ w ++ CLOSE))
    by (rewrite !length_app; lia).
  now rewrite firstn_all, Nat.sub_diag, app_nil_r.
Qed.

Lemma revert_region (u out : str) (k : nat) (u' : str) :
  FixActivitiesV2.m_revert u = Some (out, k) ->
  startswith u' (firstn k u) = true -> FixActivitiesV2.m_revert u' <> None.
Proof.
  intros E. apply revert_match in E as (w & rest & Hw & -> & -> & ->).
  rewrite revert_front. intros S. apply startswith_iff in S as [r ->].
  rewrite <- !app_assoc, (revert_matches w r Hw). discriminate.
Qed.

Lemma revert_heads (u out : str) (k : nat) :
  FixActivitiesV2.m_revert u = Some (out, k) ->
  heads_within rbrace ((rbrace :: [41%N; 59%N]) ++ MARK_NOTE)
    (tl (firstn k u)) = true.
Proof.
  intros E. apply revert_match in E as (w & rest & Hw & -> & -> & ->).
  rewrite revert_front.
  change (tl (CLOSE_MARK ++ w ++ CLOSE)) with (MARK_TAIL ++ w ++ CLOSE).
  rewrite app_assoc, heads_behind; [reflexivity|].
  rewrite existsb_app.
  now rewrite (forallb_space_no rbrace w eq_refl Hw).
Qed.

Lemma stacked_markers_app (a u : str) :
  stacked_front u = true -> stacked_markers (a ++ u) = true.
Proof.
  intros H. induction a as [|c a IH].
  - destruct u; cbn [app stacked_markers]; now rewrite H.
  - cbn [app stacked_markers]. rewrite IH. apply orb_true_r.
Qed.

Lemma revert_unfollowed (s : str) :
  stacked_markers s = false ->
  forall a u out k, s = a ++ u -> FixActivitiesV2.m_revert u = Some (out, k) ->
                    startswith (skipn k u) MARK_NOTE = false.
Proof.
  intros H a u out k -> E.
  apply revert_match in E as (w & rest & Hw & -> & -> & ->).
  destruct (startswith _ MARK_NOTE) eqn:F; [|reflexivity].
  rewrite stacked_markers_app in H; [discriminate|].
  replace (CLOSE_MARK ++ w ++ CLOSE ++ rest)
    with ((CLOSE_MARK ++ w ++ CLOSE) ++ rest) in F
    by (now rewrite <- !app_assoc).
  rewrite skipn_app in F.
  replace (length CLOSE_MARK + length w + length CLOSE)
    with (length (CLOSE_MARK ++ w ++ CLOSE)) in F
    by (rewrite !length_app; lia).
  rewrite skipn_all, Nat.sub_diag in F. cbn [app skipn] in F.
  apply startswith_iff in F as [r ->].
  unfold stacked_front. rewrite startswith_app, skipn_app, skipn_all, Nat.sub_diag.
  cbn [app skipn andb]. unfold lstrip.
  replace (w ++ CLOSE ++ MARK_NOTE ++ r) with (w ++ CLOSE_MARK ++ r)
    by reflexivity.
  rewrite span_space_stop; [|exact Hw|reflexivity].
  apply startswith_app.
Qed.

Lemma revert_converges (x : str) :
  stacked_markers x = false ->
  FixActivitiesV2.revert (FixActivitiesV2.revert x) = FixActivitiesV2.revert x.
Proof.
  intros H. unfold FixActivitiesV2.revert at 1. apply scan_id.
  apply (scan_clears_upto rbrace [41%N; 59%N] MARK_NOTE
           FixActivitiesV2.m_revert eq_refl eq_refl
           revert_core revert_region revert_heads (length x) x (le_n _)
           (revert_unfollowed x H)).
Qed.

(** ** Counting the occurrences of a text *)

Lemma occurrences_cons (p : str) (c : char) (s : str) :
  occurrences p (c :: s)
  = (if startswith (c :: s) p then 1 else 0) + occurrences p s.
Proof. reflexivity. Qed.

Lemma occurrences_nil (o : char) (p : str) : occurrences (o :: p) [] = 0.
Proof. reflexivity. Qed.

Lemma occurrences_none (p s : str) : isin p s = false -> occurrences p s = 0.
Proof.
  induction s as [|c s IH]; intros H.
  - cbn [isin] in H. rewrite orb_false_r in H. cbn [occurrences]. now rewrite H.
  - rewrite isin_cons in H. apply orb_false_iff in H as [H1 H2].
    now rewrite occurrences_cons, H1, IH.
Qed.

Lemma dead_app (p a b : str) : dead p a -> dead p b -> dead p (a ++ b).
Proof.
  intros Ha Hb a1 u r E Hu.
  apply app_eq_app in E as [l [[E1 E2]|[E1 E2]]].
  - destruct l as [|l0 l].
    + cbn [app] in E2. subst u. apply (Hb [] b r eq_refl).
      intros ->. now destruct Hu.
    + subst u. rewrite <- app_assoc. apply (Ha a1 (l0 :: l) _ E1). discriminate.
  - apply (Hb l u r E2 Hu).
Qed.

Lemma dead_fresh (o : char) (p a : str) :
  existsb (N.eqb o) a = false -> dead (o :: p) a.
Proof.
  intros H a1 u r -> Hu. destruct u as [|c u]; [contradiction|].
  rewrite existsb_app in H. cbn [existsb] in H.
  apply orb_false_iff in H as [_ H]. apply orb_false_iff in H as [H _].
  cbn [app startswith]. now rewrite H.
Qed.

Lemma compat_sym (u v : str) : compat u v = compat v u.
Proof.
  revert v; induction u as [|a u IH]; intros [|b v]; try reflexivity.
  cbn [compat]. now rewrite IH, N.eqb_sym.
Qed.

Lemma dead_apart (p a : str) : apart a p = true -> dead p a.
Proof.
  intros H a1 u r -> Hu. induction a1 as [|c a1 IH].
  - destruct u as [|c u]; [contradiction|]. cbn [app apart] in H.
    apply andb_true_iff in H as [H _]. apply negb_true_iff in H.
    destruct (startswith ((c :: u) ++ r) p) eqn:E; [|reflexivity].
    apply startswith_compat in E. rewrite compat_sym in E. congruence.
  - cbn [app apart] in H. apply andb_true_iff in H as [_ H]. now apply IH.
Qed.

Lemma dead_space (o : char) (p w : str) :
  isspace o = false -> forallb isspace w = true -> dead (o :: p) w.
Proof. intros Ho Hw. apply dead_fresh. now apply forallb_space_no. Qed.

Lemma occurrences_dead (p a b : str) :
  dead p a -> occurrences p (a ++ b) = occurrences p b.
Proof.
  induction a as [|c a IH]; intros H; [reflexivity|].
  cbn [app]. rewrite occurrences_cons.
  change (startswith (c :: a ++ b) p) with (startswith ((c :: a) ++ b) p).
  rewrite (H [] (c :: a) b eq_refl) by discriminate.
  apply IH. intros a1 u r -> Hu. now apply (H (c :: a1) u r).
Qed.

Lemma occurrences_skip (o : char) (p a b : str) :
  existsb (N.eqb o) a = false ->
  occurrences (o :: p) (a ++ b) = occurrences (o :: p) b.
Proof. intros H. apply occurrences_dead. now apply dead_fresh. Qed.

Lemma occurrences_sep (c o : char) (p a b : str) :
  existsb (N.eqb c) (o :: p) = false ->
  occurrences (o :: p) (a ++ c :: b)
  = occurrences (o :: p) a + occurrences (o :: p) b.
Proof.
  intros H. induction a as [|x a IH].
  - cbn [app]. rewrite occurrences_cons, occurrences_nil.
    cbn [existsb] in H. apply orb_false_iff in H as [H _].
    cbn [startswith]. rewrite N.eqb_sym, H. reflexivity.
  - cbn [app]. rewrite !occurrences_cons, IH.
    change (x :: a ++ c :: b) with ((x :: a) ++ c :: b).
    rewrite (startswith_cut c (o :: p) (x :: a) b H). lia.
Qed.

Lemma occurrences_join (o : char) (p : str) (ls : list str) :
  existsb (N.eqb nl) (o :: p) = false ->
  occurrences (o :: p) (join ls) = list_sum (map (occurrences (o :: p)) ls).
Proof.
  intros H. induction ls as [|l ls IH]; [reflexivity|].
  destruct ls as [|l' ls].
  - unfold list_sum. cbn [join map fold_right]. lia.
  - change (join (l :: l' :: ls)) with (l ++ nl :: join (l' :: ls)).
    rewrite (occurrences_sep nl o p _ _ H), IH. reflexivity.
Qed.

(** [s.count(p)] counts the places at which [p] starts when the first
    character of [p] is not repeated in it. *)
Lemma count_str_upto (o : char) (p : str) (k : nat) (s : str) :
  existsb (N.eqb o) p = false ->
  length s <= k ->
  count_str (o :: p) s = occurrences (o :: p) s.
Proof.
  intros Ho. unfold count_str.
  revert s; induction k as [|k IH]; intros [|c s] Hk; try reflexivity.
  - simpl in Hk. lia.
  - rewrite hits_unfold, occurrences_cons. unfold m_replace.
    destruct (startswith (c :: s) (o :: p)) eqn:E.
    + cbn [length pred]. rewrite IH by (rewrite length_skipn; simpl in Hk; lia).
      cbn [startswith] in E. apply andb_true_iff in E as [_ E].
      apply startswith_inv in E. rewrite E at 2.
      now rewrite (occurrences_skip o p p _ Ho).
    + rewrite IH by (simpl in Hk; lia). reflexivity.
Qed.

Lemma count_str_occurrences (o : char) (p s : str) :
  existsb (N.eqb o) p = false ->
  count_str (o :: p) s = occurrences (o :: p) s.
Proof. intros Ho. now apply (count_str_upto o p (length s)). Qed.

Section OccurrencesScan.
Variables (p : str) (sepc : char -> bool) (m : str -> option (str * nat)).

Hypothesis m_fronts :
  forall s out n, m s = Some (out, n) ->
    1 <= n /\ sepc (hd 0%N s) = true /\ out <> [] /\ sepc (hd 0%N out) = true.
Hypothesis m_dead :
  forall s out n, m s = Some (out, n) -> dead p (firstn n s) /\ dead p out.

Lemma scan_prefix_same (q s : str) :
  forallb (fun c => negb (sepc c)) q = true ->
  startswith (scan m 0 s) q = startswith s q.
Proof.
  revert s; induction q as [|a q IH]; intros s Hq.
  - now rewrite !startswith_nil.
  - cbn [forallb] in Hq. apply andb_true_iff in Hq as [Ha Hq].
    apply negb_true_iff in Ha.
    destruct s as [|c s]; [reflexivity|].
    rewrite scan_unfold. destruct (m (c :: s)) as [[out n]|] eqn:E.
    + destruct (m_fronts _ _ _ E) as (_ & Hc & Hne & Ho).
      destruct out as [|o1 out]; [contradiction|].
      cbn [hd] in Hc, Ho. cbn [app startswith].
      destruct (N.eqb_spec a o1) as [->|_]; [congruence|].
      destruct (N.eqb_spec a c) as [->|_]; [congruence|reflexivity].
    + cbn [startswith]. now rewrite IH.
Qed.

Hypothesis p_free : forallb (fun c => negb (sepc c)) p = true.

Lemma occurrences_scan_upto (k : nat) (s : str) :
  length s <= k -> occurrences p (scan m 0 s) = occurrences p s.
Proof.
  revert s; induction k as [|k IH]; intros [|c s] Hk; try reflexivity.
  - simpl in Hk. lia.
  - rewrite scan_unfold. destruct (m (c :: s)) as [[out n]|] eqn:E.
    + destruct (m_fronts _ _ _ E) as (Hn & _).
      destruct (m_dead _ _ _ E) as (Hr & Ho).
      rewrite (occurrences_dead p out _ Ho).
      rewrite IH by (rewrite length_skipn; simpl in Hk; lia).
      destruct n as [|n]; [lia|]. cbn [pred].
      change (skipn n s) with (skipn (S n) (c :: s)).
      rewrite <- (firstn_skipn (S n) (c :: s)) at 2.
      now rewrite (occurrences_dead p _ _ Hr).
    + rewrite !occurrences_cons, IH by (simpl in Hk; lia). f_equal.
      destruct p as [|a q]; [reflexivity|].
      cbn [forallb] in p_free. apply andb_true_iff in p_free as [_ Hq].
      cbn [startswith]. now rewrite (scan_prefix_same q s Hq).
Qed.

Lemma occurrences_scan (s : str) : occurrences p (scan m 0 s) = occurrences p s.
Proof. now apply (occurrences_scan_upto (length s)). Qed.

End OccurrencesScan.

(** ** What the passes find, and what they put *)

Lemma v1_signature_match (s out : str) (n : nat) :
  FixActivities.m_signature s = Some (out, n) ->
  exists w t,
    w <> [] /\ forallb isspace w = true
    /\ s = (w ++ OLD_SIG ++ [nl]) ++ t
    /\ out = w ++ OVERRIDE ++ [nl] ++ w ++ NEW_SIG ++ [nl]
               ++ w ++ lit "  " ++ SET_STATE ++ [nl]
    /\ n = length (w ++ OLD_SIG ++ [nl]).
Proof.
  unfold FixActivities.m_signature.
  pose proof (span_space_app s) as E. pose proof (span_space_forall s) as F.
  destruct (span_space s) as [w r]. cbn [fst snd] in *.
  destruct w as [|c w]; [discriminate|].
  destruct (startswith r (OLD_SIG ++ [nl])) eqn:S; [|discriminate].
  intros H. apply some_pair in H as [<- <-].
  apply startswith_iff in S as [t ->].
  exists (c :: w), t. repeat split; [discriminate|exact F| |].
  - rewrite E. now rewrite <- !app_assoc.
  - rewrite !length_app. cbn [length]. lia.
Qed.

Lemma v2_signature_match (s out : str) (n : nat) :
  FixActivitiesV2.m_signature s = Some (out, n) ->
  exists w t,
    w <> [] /\ forallb isspace w = true
    /\ s = (w ++ OLD_SIG) ++ t
    /\ out = w ++ OVERRIDE ++ [nl] ++ w ++ NEW_SIG
    /\ n = length (w ++ OLD_SIG).
Proof.
  unfold FixActivitiesV2.m_signature.
  pose proof (span_space_app s) as E. pose proof (span_space_forall s) as F.
  destruct (span_space s) as [w r]. cbn [fst snd] in *.
  destruct w as [|c w]; [discriminate|].
  destruct (startswith r OLD_SIG) eqn:S; [|discriminate].
  intros H. apply some_pair in H as [<- <-].
  apply startswith_iff in S as [t ->].
  exists (c :: w), t. repeat split; [discriminate|exact F| |].
  - rewrite E. now rewrite <- !app_assoc.
  - now rewrite !length_app.
Qed.

Lemma hd_space (w t : str) :
  w <> [] -> forallb isspace w = true -> opens_match (hd 0%N (w ++ t)) = true.
Proof.
  destruct w as [|c w]; [contradiction|]. intros _ H.
  cbn [forallb] in H. apply andb_true_iff in H as [H _].
  cbn [app hd]. unfold opens_match. now rewrite H.
Qed.

Lemma free_no_opening (q : str) (c : char) :
  forallb (fun c => negb (opens_match c)) q = true ->
  opens_match c = true -> existsb (N.eqb c) q = false.
Proof.
  intros Hq Hc. induction q as [|a q IH]; [reflexivity|].
  cbn [forallb] in Hq. apply andb_true_iff in Hq as [Ha Hq].
  cbn [existsb]. rewrite (IH Hq), orb_false_r.
  apply negb_true_iff in Ha.
  destruct (N.eqb_spec c a) as [->|_]; [congruence|reflexivity].
Qed.

Section CallPattern.
(** [o :: p'] is a text without whitespace and without [}] that does not
    start inside the texts the passes look for and put. *)
Variables (o : char) (p' : str).
Hypothesis p_free :
  forallb (fun c => negb (opens_match c)) (o :: p') = true.
Hypothesis p_old_sig : apart OLD_SIG (o :: p') = true.
Hypothesis p_new_sig : apart NEW_SIG (o :: p') = true.
Hypothesis p_override : apart OVERRIDE (o :: p') = true.
Hypothesis p_set_state : apart SET_STATE (o :: p') = true.
Hypothesis p_close : apart CLOSE (o :: p') = true.
Hypothesis p_close_mark : apart CLOSE_MARK (o :: p') = true.

Lemma o_space : isspace o = false.
Proof.
  cbn [forallb] in p_free. apply andb_true_iff in p_free as [H _].
  apply negb_true_iff in H. unfold opens_match in H.
  now apply orb_false_iff in H as [H _].
Qed.

Lemma p_no_opening (c : char) :
  opens_match c = true -> existsb (N.eqb c) (o :: p') = false.
Proof. intros Hc. now apply free_no_opening. Qed.

Lemma dead_w (w : str) : forallb isspace w = true -> dead (o :: p') w.
Proof. apply dead_space, o_space. Qed.

Lemma dead_break : dead (o :: p') [nl].
Proof. now apply dead_w. Qed.

Lemma occurrences_v1_signature (x : str) :
  occurrences (o :: p') (FixActivities.sub_signature x)
  = occurrences (o :: p') x.
Proof.
  apply (occurrences_scan (o :: p') opens_match); [| |exact p_free].
  - intros s out n E.
    apply v1_signature_match in E as (w & t & Hne & Hw & -> & -> & ->).
    repeat split.
    + rewrite length_app. destruct w; [contradiction|cbn [length]; lia].
    + rewrite <- app_assoc. now apply hd_space.
    + destruct w; [contradiction|discriminate].
    + now apply hd_space.
  - intros s out n E.
    apply v1_signature_match in E as (w & t & Hne & Hw & -> & -> & ->).
    rewrite firstn_front. split.
    + repeat apply dead_app;
        (now apply dead_w) || (now apply dead_apart) || apply dead_break.
    + change (lit "  ") with (repeat sp 2).
      repeat apply dead_app;
        (now apply dead_w) || (now apply dead_apart) || apply dead_break
        || (apply dead_w, spaces_space).
Qed.

Lemma occurrences_v2_signature (x : str) :
  occurrences (o :: p') (FixActivitiesV2.sub_signature x)
  = occurrences (o :: p') x.
Proof.
  apply (occurrences_scan (o :: p') opens_match); [| |exact p_free].
  - intros s out n E.
    apply v2_signature_match in E as (w & t & Hne & Hw & -> & -> & ->).
    repeat split.
    + rewrite length_app. destruct w; [contradiction|cbn [length]; lia].
    + rewrite <- app_assoc. now apply hd_space.
    + destruct w; [contradiction|discriminate].
    + now apply hd_space.
  - intros s out n E.
    apply v2_signature_match in E as (w & t & Hne & Hw & -> & -> & ->).
    rewrite firstn_front. split;
      repeat apply dead_app;
        (now apply dead_w) || (now apply dead_apart) || apply dead_break.
Qed.

Lemma occurrences_revert (x : str) :
  occurrences (o :: p') (FixActivitiesV2.revert x) = occurrences (o :: p') x.
Proof.
  apply (occurrences_scan (o :: p') opens_match); [| |exact p_free].
  - intros s out n E.
    apply revert_match in E as (w & t & Hw & -> & -> & ->).
    repeat split; try reflexivity; try discriminate.
    change (length CLOSE_MARK) with 15. lia.
  - intros s out n E.
    apply revert_match in E as (w & t & Hw & -> & -> & ->).
    rewrite revert_front. split;
      repeat apply dead_app;
        (now apply dead_w) || (now apply dead_apart).
Qed.

Lemma occurrences_dead_all (a : str) :
  dead (o :: p') a -> occurrences (o :: p') a = 0.
Proof.
  intros H. rewrite <- (app_nil_r a). now rewrite occurrences_dead.
Qed.

Lemma occurrences_spaces (n : nat) (l : str) :
  occurrences (o :: p') (repeat sp n ++ l) = occurrences (o :: p') l.
Proof. apply occurrences_dead, dead_w, spaces_space. Qed.

Lemma marks_app (a b : list str) :
  concat (map (fun l => repeat tt (occurrences (o :: p') l)) (a ++ b))
  = concat (map (fun l => repeat tt (occurrences (o :: p') l)) a)
      ++ concat (map (fun l => repeat tt (occurrences (o :: p') l)) b).
Proof. now rewrite map_app, concat_app. Qed.

Lemma marks_line (n : nat) (l : str) :
  dead (o :: p') l ->
  concat (map (fun l => repeat tt (occurrences (o :: p') l))
            [repeat sp n ++ l]) = [].
Proof.
  intros H. cbn [map concat].
  now rewrite occurrences_spaces, (occurrences_dead_all l H).
Qed.

Lemma marks_indent (l : str) :
  concat (map (fun l => repeat tt (occurrences (o :: p') l)) [lit "  " ++ l])
  = concat (map (fun l => repeat tt (occurrences (o :: p') l)) [l]).
Proof.
  cbn [map concat]. change (lit "  ") with (repeat sp 2).
  now rewrite occurrences_spaces.
Qed.

Lemma marks_length (ls : list str) :
  length (concat (map (fun l => repeat tt (occurrences (o :: p') l)) ls))
  = list_sum (map (occurrences (o :: p')) ls).
Proof.
  induction ls as [|l ls IH]; [reflexivity|].
  change (list_sum (map (occurrences (o :: p')) (l :: ls)))
    with (occurrences (o :: p') l + list_sum (map (occurrences (o :: p')) ls)).
  cbn [map concat]. now rewrite length_app, repeat_length, IH.
Qed.

Lemma occurrences_v1_loop (started : bool) (d : Z) (indent : nat)
    (lines : list str) :
  list_sum (map (occurrences (o :: p'))
              (FixActivities.wrap_loop started d indent lines))
  = list_sum (map (occurrences (o :: p')) lines).
Proof.
  rewrite <- !marks_length. f_equal.
  apply (v1_wrap_loop_keeps _ marks_app).
  intros n. apply marks_line. now apply dead_apart.
Qed.

Lemma occurrences_v2_loop (lines : list str) :
  list_sum (map (occurrences (o :: p')) (FixActivitiesV2.wrap_loop lines))
  = list_sum (map (occurrences (o :: p')) lines).
Proof.
  rewrite <- !marks_length. f_equal.
  apply (v2_wrap_loop_keeps _ marks_app marks_indent).
  - intros n. apply marks_line. now apply dead_apart.
  - intros n. apply marks_line. now apply dead_apart.
Qed.

Lemma occurrences_v1_lines (x : str) :
  occurrences (o :: p')
    (join (FixActivities.wrap_loop false 0 0
             (split (FixActivities.sub_signature x))))
  = occurrences (o :: p') x.
Proof.
  pose proof (p_no_opening nl eq_refl) as Hnl.
  rewrite (occurrences_join o p' _ Hnl), occurrences_v1_loop.
  rewrite <- (occurrences_join o p' _ Hnl), join_split.
  apply occurrences_v1_signature.
Qed.

Lemma occurrences_v2_lines (x : str) :
  occurrences (o :: p')
    (join (FixActivitiesV2.wrap_loop
             (split (FixActivitiesV2.sub_signature
                       (FixActivitiesV2.revert x)))))
  = occurrences (o :: p') x.
Proof.
  pose proof (p_no_opening nl eq_refl) as Hnl.
  rewrite (occurrences_join o p' _ Hnl), occurrences_v2_loop.
  rewrite <- (occurrences_join o p' _ Hnl), join_split.
  rewrite occurrences_v2_signature. apply occurrences_revert.
Qed.

End CallPattern.

(** ** The replacement of the call sites *)

Lemma tail_free (o g : char) (q : str) :
  existsb (N.eqb o) q = false -> existsb (N.eqb g) q = false ->
  forallb (fun c => negb ((c =? o) || (c =? g))%N) q = true.
Proof.
  induction q as [|a q IH]; [reflexivity|]. cbn [existsb forallb].
  intros Ho Hg. apply orb_false_iff in Ho as [Ho1 Ho2].
  apply orb_false_iff in Hg as [Hg1 Hg2].
  rewrite (IH Ho2 Hg2), andb_true_r.
  rewrite (N.eqb_sym a o), (N.eqb_sym a g), Ho1, Hg1. reflexivity.
Qed.

Section ReplaceCount.
(** [o :: old'] is replaced by [g :: new']; neither text overlaps itself or
    the other. *)
Variables (o : char) (old' : str) (g : char) (new' : str).
Hypothesis o_once : existsb (N.eqb o) old' = false.
Hypothesis g_once : existsb (N.eqb g) new' = false.
Hypothesis o_new : existsb (N.eqb o) (g :: new') = false.
Hypothesis g_old : apart old' (g :: new') = true.

Lemma replace_fronts (s out : str) (n : nat) :
  m_replace (o :: old') (g :: new') s = Some (out, n) ->
  1 <= n
  /\ ((hd 0%N s =? o) || (hd 0%N s =? g))%N = true
  /\ out <> []
  /\ ((hd 0%N out =? o) || (hd 0%N out =? g))%N = true.
Proof.
  unfold m_replace.
  destruct (startswith s (o :: old')) eqn:S; [|discriminate].
  intros E. apply some_pair in E as [<- <-].
  apply startswith_iff in S as [r ->]. repeat split.
  - cbn [length]. lia.
  - cbn [app hd]. now rewrite N.eqb_refl.
  - discriminate.
  - cbn [hd]. now rewrite N.eqb_refl, orb_true_r.
Qed.

Lemma new_tail_free :
  forallb (fun c => negb ((c =? o) || (c =? g))%N) new' = true.
Proof.
  apply tail_free; [|exact g_once].
  cbn [existsb] in o_new. now apply orb_false_iff in o_new as [_ Ho].
Qed.

Lemma replace_counts_upto (k : nat) (s : str) :
  length s <= k ->
  occurrences (g :: new') (replace (o :: old') (g :: new') s)
  = occurrences (o :: old') s + occurrences (g :: new') s.
Proof.
  assert (Hog : (g =? o)%N = false).
  { cbn [existsb] in o_new. apply orb_false_iff in o_new as [H _].
    now rewrite N.eqb_sym. }
  revert s; induction k as [|k IH]; intros [|c s] Hk; try reflexivity.
  - simpl in Hk. lia.
  - rewrite replace_step.
    destruct (startswith (c :: s) (o :: old')) eqn:E.
    + apply startswith_iff in E as [r E]. cbn [app] in E.
      injection E as -> ->.
      rewrite skipn_app, skipn_all, Nat.sub_diag. cbn [app skipn].
      assert (S1 : startswith (g :: new' ++ replace (o :: old') (g :: new') r)
                     (g :: new') = true)
        by apply (startswith_app (g :: new')).
      assert (S2 : startswith (o :: old' ++ r) (g :: new') = false)
        by (cbn [startswith]; now rewrite Hog).
      assert (S3 : startswith (o :: old' ++ r) (o :: old') = true)
        by apply (startswith_app (o :: old')).
      rewrite (occurrences_cons (g :: new') g), S1.
      rewrite (occurrences_cons (o :: old') o), S3.
      rewrite (occurrences_cons (g :: new') o), S2.
      rewrite (occurrences_skip g new' new' _ g_once).
      rewrite (occurrences_skip o old' old' r o_once).
      rewrite (occurrences_dead (g :: new') old' r (dead_apart _ _ g_old)).
      rewrite IH; [lia|].
      simpl in Hk. rewrite length_app in Hk. lia.
    + rewrite (occurrences_cons (g :: new') c (replace _ _ s)).
      rewrite (occurrences_cons (o :: old') c s), E.
      rewrite (occurrences_cons (g :: new') c s).
      rewrite IH by (simpl in Hk; lia).
      assert (S : startswith (c :: replace (o :: old') (g :: new') s)
                    (g :: new')
                  = startswith (c :: s) (g :: new')).
      { cbn [startswith]. f_equal. unfold replace.
        apply (scan_prefix_same (fun c => (c =? o) || (c =? g))%N
                 (m_replace (o :: old') (g :: new')) replace_fronts).
        exact new_tail_free. }
      rewrite S. lia.
Qed.

End ReplaceCount.

Lemma replace_calls (s : str) :
  occurrences NEW_CALL (replace OLD_CALL NEW_CALL s)
  = occurrences OLD_CALL s + occurrences NEW_CALL s.
Proof.
  apply (replace_counts_upto 95%N (tl OLD_CALL) 103%N (tl NEW_CALL)
           eq_refl eq_refl eq_refl eq_refl (length s)).
  apply le_n.
Qed.

Lemma no_old_call (s : str) : isin OLD_CALL (replace OLD_CALL NEW_CALL s) = false.
Proof.
  apply (replace_removes 95%N (lit "generateQuestion();") NEW_CALL);
    reflexivity.
Qed.

Lemma calls_counted (T T0 : str -> str) (content : str) :
  (forall x, T x = replace OLD_CALL NEW_CALL (T0 x)) ->
  (forall x, occurrences OLD_CALL (T0 x) = occurrences OLD_CALL x) ->
  (forall x, occurrences NEW_CALL (T0 x) = occurrences NEW_CALL x) ->
  count_str NEW_CALL (T content)
  = count_str OLD_CALL content + count_str NEW_CALL content
  /\ count_str OLD_CALL (T content) = 0.
Proof.
  intros HT Hold Hnew.
  change OLD_CALL with (95%N :: tl OLD_CALL).
  change NEW_CALL with (103%N :: tl NEW_CALL).
  rewrite !count_str_occurrences by reflexivity.
  change (95%N :: tl OLD_CALL) with OLD_CALL.
  change (103%N :: tl NEW_CALL) with NEW_CALL.
  rewrite HT, replace_calls, Hold, Hnew. split; [reflexivity|].
  apply occurrences_none, no_old_call.
Qed.

(** * The claims *)

(** ** Running a pass twice *)

(** C1 at the scenario.  The first pass has no check of the state of the
    wrapper: run on its own result it inserts a second closing line.  The
    second pass, which has the check, returns the scenario's result
    unchanged, and still changes its own result on other buffers: the call
    site it renames after its loop is a located method for the next run, and
    of stacked marker lines its revert step removes one per run. *)
Theorem not_idempotent :
  FixActivities.transform scenario_in = first_pass_once
  /\ FixActivities.transform first_pass_once = first_pass_twice
  /\ first_pass_twice <> first_pass_once
  /\ FixActivitiesV2.transform abstract_in = abstract_once
  /\ FixActivitiesV2.transform abstract_once = abstract_twice
  /\ abstract_twice <> abstract_once
  /\ FixActivitiesV2.transform stacked = double_wrapped
  /\ FixActivitiesV2.transform double_wrapped = scenario_out
  /\ double_wrapped <> scenario_out.
Proof. repeat split; vm_compute; congruence. Qed.

(** ** The scenario *)




(** ** Files without the old name *)

(** The old name occurs in neither text, and both passes change one. *)
Lemma no_old_name_yet_changed :
  isin OLD_NAME scenario_out = false
  /\ FixActivities.transform scenario_out <> scenario_out
  /\ isin OLD_NAME renamed_unwrapped = false
  /\ FixActivitiesV2.transform renamed_unwrapped = scenario_out
  /\ scenario_out <> renamed_unwrapped.
Proof. repeat split; vm_compute; congruence. Qed.

(** C3, as the scripts have it.  A text with no occurrence of the old name
    [_generateQuestion], of the renamed signature [void generateNewQuestion()]
    and of the closing marker [}); // setState] is returned unchanged by
    both passes. *)
Theorem untouched_without_patterns (x : str) :
  isin OLD_NAME x = false ->
  isin NEW_NAME x = false ->
  isin CLOSE_MARK x = false ->
  FixActivities.transform x = x /\ FixActivitiesV2.transform x = x.
Proof.
  intros Hold Hnew Hmark. split.
  - now apply v1_unchanged.
  - now apply v2_unchanged.
Qed.

Lemma untouched_without_patterns_witness :
  FixActivities.transform (lit "int score = 0;") = lit "int score = 0;"
  /\ FixActivitiesV2.transform (lit "int score = 0;") = lit "int score = 0;".
Proof.
  apply (untouched_without_patterns (lit "int score = 0;")); reflexivity.
Defined.

(** ** Repair *)

(** On the stacked text, which contains the doubled closing line, one
    repair pass does not reach the single closing line and a second pass
    changes the text again; the same holds for the revert step of the second
    pass. *)
Lemma repair_needs_two_passes :
  FixActivities.transform (FixActivities.transform scenario_out) = stacked
  /\ isin FixExtraBraces.DUP4 stacked = true
  /\ FixExtraBraces.transform stacked = double_wrapped
  /\ FixExtraBraces.transform (FixExtraBraces.transform stacked) = scenario_out
  /\ FixActivitiesV2.revert stacked = double_wrapped
  /\ FixActivitiesV2.revert (FixActivitiesV2.revert stacked) = scenario_out
  /\ double_wrapped <> scenario_out.
Proof. repeat split; vm_compute; congruence. Qed.

(** C4, as the scripts have it.  In a buffer in which no marker line
    [}); // setState] is followed by a second marker line indented by four
    or by two spaces, one repair pass leaves no marker line that is
    followed by a line [});] indented by four or by two spaces, and a
    second pass changes nothing.  The same holds for the revert step of the
    second pass in a buffer in which no marker is followed, behind
    whitespace only, by a second marker.  Where the only marker line of the
    buffer is followed by a line [});], the repair pass, when that line is
    indented by four or by two spaces, and the revert step, whatever the
    whitespace in front of it, collapse the two closing lines into the
    single [});] at the place of the marker.  The repair pass returns a
    buffer without the doubled closing line as it is. *)
Theorem repair_converges (x pre w post y : str) :
  (isin (STACKED 4) x = false ->
   isin (STACKED 2) x = false ->
   isin FixExtraBraces.DUP4 (FixExtraBraces.transform x) = false
   /\ isin FixExtraBraces.DUP2 (FixExtraBraces.transform x) = false
   /\ FixExtraBraces.transform (FixExtraBraces.transform x)
      = FixExtraBraces.transform x)
  /\ (stacked_markers x = false ->
      FixActivitiesV2.revert (FixActivitiesV2.revert x)
      = FixActivitiesV2.revert x)
  /\ (isin CLOSE_MARK pre = false ->
      isin CLOSE_MARK (CLOSE ++ post) = false ->
      forallb isspace w = true ->
      (w = repeat sp 4 \/ w = repeat sp 2 ->
       FixExtraBraces.transform (doubled pre w post) = collapsed pre post)
      /\ FixExtraBraces.transform (collapsed pre post) = collapsed pre post
      /\ FixActivitiesV2.revert (doubled pre w post) = collapsed pre post
      /\ FixActivitiesV2.revert (collapsed pre post) = collapsed pre post)
  /\ (isin FixExtraBraces.DUP4 y = false ->
      isin FixExtraBraces.DUP2 y = false ->
      FixExtraBraces.transform y = y).
Proof.
  split; [|split; [|split]].
  - apply repair_clears.
  - apply revert_converges.
  - intros Hpre Hpost Hs. repeat split.
    + intros Hw. rewrite (repair_doubled pre w post Hpre Hpost Hs).
      destruct Hw as [->| ->]; reflexivity.
    + unfold FixExtraBraces.transform.
      change FixExtraBraces.DUP4 with (DUP 4).
      change FixExtraBraces.DUP2 with (DUP 2).
      rewrite (replace_id (DUP 4)) by now apply collapsed_clean.
      apply replace_id. now apply collapsed_clean.
    + now apply revert_doubled.
    + apply scan_id. intros a u E. apply (v2_revert_none a). rewrite <- E.
      now apply mark_not_in_collapsed.
  - intros H4 H2. unfold FixExtraBraces.transform.
    rewrite (replace_id _ _ y H4). now apply replace_id.
Qed.

Lemma repair_converges_witness :
  (isin FixExtraBraces.DUP4 (FixExtraBraces.transform double_wrapped_twice)
   = false
   /\ isin FixExtraBraces.DUP2 (FixExtraBraces.transform double_wrapped_twice)
      = false
   /\ FixExtraBraces.transform (FixExtraBraces.transform double_wrapped_twice)
      = FixExtraBraces.transform double_wrapped_twice)
  /\ FixActivitiesV2.revert (FixActivitiesV2.revert double_wrapped_twice)
     = FixActivitiesV2.revert double_wrapped_twice
  /\ FixExtraBraces.transform double_wrapped_twice = wrapped_twice
  /\ FixExtraBraces.transform
       (doubled (lit "    ") (repeat sp 4) (nl :: lit "  }"))
     = collapsed (lit "    ") (nl :: lit "  }").
Proof.
  split; [|split; [|split]].
  - refine (proj1 (repair_converges double_wrapped_twice [] [] [] []) _ _);
      vm_compute; reflexivity.
  - refine (proj1 (proj2 (repair_converges double_wrapped_twice [] [] [] []))
              _).
    vm_compute. reflexivity.
  - vm_compute. reflexivity.
  - refine (proj1 (proj1 (proj2 (proj2
              (repair_converges [] (lit "    ") (repeat sp 4)
                 (nl :: lit "  }") [])))
              _ _ _) _);
      try (vm_compute; reflexivity).
    left. reflexivity.
Defined.

(** ** Brace balance *)




(** ** The end of the body *)




(** ** Writing back *)

(** The file is written although no script changes its text. *)
Lemma write_back_unchanged_file :
  let content := lit "int score = 0;" in
  FixActivities.transform content = content
  /\ FixExtraBraces.transform content = content
  /\ FixActivitiesV2.transform content = content
  /\ writes (fix_activities (one_file content))
     = ["alphabet_adventure_activity.dart"%string]
  /\ writes (fix_extra_braces (one_file content))
     = ["alphabet_adventure_activity.dart"%string]
  /\ writes (fix_activities_v2 (one_file content))
     = ["alphabet_adventure_activity.dart"%string].
Proof. repeat split; vm_compute; reflexivity. Qed.

(** C7, as the scripts have it.  Every file of the list that exists is opened
    for writing, once and in the order of the list, whether or not the
    transformed text differs from the one read; processing an existing file
    leaves the transformed text in it; a file that does not exist is not
    written. *)
Theorem write_back_always (verbose : bool) (transform : str -> str) (w : world) :
  writes (run verbose transform w)
  = writes w ++ filter (exists_in w) activity_files
  /\ (forall f content,
        files w f = Some content ->
        files (process_file verbose transform w f) f = Some (transform content)
        /\ writes (process_file verbose transform w f) = writes w ++ [f])
  /\ (forall f,
        files w f = None ->
        writes (process_file verbose transform w f) = writes w).
Proof.
  split; [|split].
  - unfold run. rewrite writes_print. apply fold_process_writes.
  - intros f content H. split.
    + now apply process_file_content.
    + rewrite process_file_writes. unfold exists_in. now rewrite H.
  - intros f H. rewrite process_file_writes. unfold exists_in.
    rewrite H. apply app_nil_r.
Qed.

(** ** Call sites *)

(** C8.  In the pass that rewrites the declaration, every call site
    [_generateQuestion();] of the buffer is rewritten to
    [generateNewQuestion();]: what a pass returns holds the new call as
    many times as the buffer held the old call and the new call together,
    and holds the old call nowhere.  No step in front of the replacement
    removes a call site or brings one into being. *)
Theorem call_sites_rewritten (content : str) :
  count_str NEW_CALL (FixActivities.transform content)
  = count_str OLD_CALL content + count_str NEW_CALL content
  /\ count_str OLD_CALL (FixActivities.transform content) = 0
  /\ isin OLD_CALL (FixActivities.transform content) = false
  /\ count_str NEW_CALL (FixActivitiesV2.transform content)
     = count_str OLD_CALL content + count_str NEW_CALL content
  /\ count_str OLD_CALL (FixActivitiesV2.transform content) = 0
  /\ isin OLD_CALL (FixActivitiesV2.transform content) = false.
Proof.
  destruct (calls_counted FixActivities.transform
              (fun x => join (FixActivities.wrap_loop false 0 0
                                (split (FixActivities.sub_signature x))))
              content (fun x => eq_refl)
              (occurrences_v1_lines 95%N (tl OLD_CALL)
                 eq_refl eq_refl eq_refl eq_refl eq_refl eq_refl)
              (occurrences_v1_lines 103%N (tl NEW_CALL)
                 eq_refl eq_refl eq_refl eq_refl eq_refl eq_refl))
    as [A B].
  destruct (calls_counted FixActivitiesV2.transform
              (fun x => join (FixActivitiesV2.wrap_loop
                                (split (FixActivitiesV2.sub_signature
                                          (FixActivitiesV2.revert x)))))
              content (fun x => eq_refl)
              (occurrences_v2_lines 95%N (tl OLD_CALL)
                 eq_refl eq_refl eq_refl eq_refl eq_refl eq_refl eq_refl)
              (occurrences_v2_lines 103%N (tl NEW_CALL)
                 eq_refl eq_refl eq_refl eq_refl eq_refl eq_refl eq_refl))
    as [C D].
  repeat split; try assumption; apply no_old_call.
Qed.

(** ** Unbalanced blocks *)




(** ** The indentation the repair pass knows *)

(** C10.  The repair pass recognises the doubled closing line only when the
    second [});] is indented by exactly four or exactly two spaces: a buffer
    in which neither of these two texts occurs is returned as it is; with
    any other whitespace between the marker line and the second [});] the
    buffer is returned unchanged, with four or two spaces it is collapsed. *)
Theorem repair_only_four_or_two (pre w post x : str) :
  isin CLOSE_MARK pre = false ->
  isin CLOSE_MARK (CLOSE ++ post) = false ->
  forallb isspace w = true ->
  (isin FixExtraBraces.DUP4 x = false -> isin FixExtraBraces.DUP2 x = false ->
   FixExtraBraces.transform x = x)
  /\ (w <> repeat sp 4 -> w <> repeat sp 2 ->
      isin FixExtraBraces.DUP4 (doubled pre w post) = false
      /\ isin FixExtraBraces.DUP2 (doubled pre w post) = false
      /\ FixExtraBraces.transform (doubled pre w post) = doubled pre w post)
  /\ (w = repeat sp 4 \/ w = repeat sp 2 ->
      FixExtraBraces.transform (doubled pre w post) = collapsed pre post
      /\ collapsed pre post <> doubled pre w post).
Proof.
  intros Hpre Hpost Hs. split; [|split].
  - intros H4 H2. unfold FixExtraBraces.transform.
    rewrite (replace_id _ _ x H4). now apply replace_id.
  - intros N4 N2. rewrite (repair_doubled pre w post Hpre Hpost Hs).
    change FixExtraBraces.DUP4 with (DUP 4).
    change FixExtraBraces.DUP2 with (DUP 2).
    rewrite !(isin_dup_doubled pre w post Hpre Hpost Hs).
    destruct (str_eqb w (repeat sp 4)) eqn:E4;
      [apply str_eqb_eq in E4; contradiction|].
    destruct (str_eqb w (repeat sp 2)) eqn:E2;
      [apply str_eqb_eq in E2; contradiction|].
    repeat split.
    + destruct (startswith _ _) eqn:E; [|reflexivity].
      now apply starts_with_spaces in E.
    + destruct (startswith _ _) eqn:E; [|reflexivity].
      now apply starts_with_spaces in E.
  - intros Hw. rewrite (repair_doubled pre w post Hpre Hpost Hs).
    split; [|apply collapsed_shorter].
    destruct Hw as [->| ->]; reflexivity.
Qed.

Lemma repair_only_four_or_two_witness :
  isin FixExtraBraces.DUP4
    (doubled (lit "    ") (repeat sp 6) (nl :: lit "  }")) = false
  /\ isin FixExtraBraces.DUP2
       (doubled (lit "    ") (repeat sp 6) (nl :: lit "  }")) = false
  /\ FixExtraBraces.transform
       (doubled (lit "    ") (repeat sp 6) (nl :: lit "  }"))
     = doubled (lit "    ") (repeat sp 6) (nl :: lit "  }").
Proof.
  refine (proj1 (proj2 (repair_only_four_or_two (lit "    ") (repeat sp 6)
                          (nl :: lit "  }") (lit "int score = 0;") _ _ _))
            _ _);
    try (vm_compute; reflexivity); vm_compute; discriminate.
Defined.
